(** * ferenda: composite-repository resolution and the DV uri map

    A shallow embedding of
      - [ferenda/compositerepository.py] ([CompositeStore],
        [CompositeRepository]), and
      - the uri-map protocol and the grammar set-up of
        [ferenda/sources/legal/se/dv.py] ([DV.readmapfile],
        [DV.postprocess_doc], [DV.get_parser]).

    Python strings are Rocq [string]s (sequences of 8-bit characters; text
    outside ASCII is its UTF-8 encoding).  Side effects are explicit: a
    computation takes the state of the file system and returns how it ended
    (a value or a raised exception), the new file system and the list of
    observable actions it performed, in order. *)

From Stdlib Require Import Ascii String List Bool Arith Lia.
From stdpp Require Import base option list gmap strings pretty.

Local Open Scope string_scope.

(** ** Python values and exceptions *)

(** The values that flow through the code under study: [None], booleans and
    strings (what a sub-repository's [parse] returns, what a configuration
    option holds). *)
Inductive pyval : Type :=
  | PNone
  | PBool (b : bool)
  | PStr (s : string).

Global Instance pyval_eq_dec : EqDecision pyval.
Proof. solve_decision. Defined.

(** Python truthiness: [if v:]. *)
Definition truthy (v : pyval) : bool :=
  match v with
  | PNone => false
  | PBool b => b
  | PStr s => negb (String.eqb s "")
  end.

(** [v is True]. *)
Definition is_True (v : pyval) : bool :=
  match v with
  | PBool true => true
  | _ => false
  end.

(** [v != s] for a string [s]. *)
Definition py_ne_str (v : pyval) (s : string) : bool :=
  match v with
  | PStr s' => negb (String.eqb s' s)
  | _ => true
  end.

(** Instances of [Exception].  [ParseError], [DocumentRenamedError] and
    [DuplicateReferatDoc] are the classes the code under study raises
    itself; anything else a sub-repository throws is an [OtherException]
    tagged with its class name.  ([except Exception] does not see
    [KeyboardInterrupt] and friends, which are not part of this type.) *)
Inductive exn : Type :=
  | ParseError (msg : string)
  | DocumentRenamedError (value : pyval) (msg : string)
                         (oldbasefile newbasefile : string)
  | DuplicateReferatDoc (value : string) (dummyfile : string)
  | ValueError (msg : string)
  | UnboundLocalError (name : string)
  | OtherException (cls : string) (msg : string).

Global Instance exn_eq_dec : EqDecision exn.
Proof. solve_decision. Defined.

(** [str(e)]. *)
Definition exn_str (e : exn) : string :=
  match e with
  | ParseError msg => msg
  | DocumentRenamedError _ msg _ _ => msg
  | DuplicateReferatDoc v _ => v
  | ValueError msg => msg
  | UnboundLocalError n => n
  | OtherException _ msg => msg
  end.

(** How a call ended. *)
Inductive Result (A : Type) : Type :=
  | Return (a : A)
  | Raise (e : exn).
Arguments Return {A} a.
Arguments Raise {A} e.

Global Instance Result_eq_dec {A} `{EqDecision A} : EqDecision (Result A).
Proof. solve_decision. Defined.

(** [", ".join(l)]. *)
Fixpoint join (sep : string) (l : list string) : string :=
  match l with
  | [] => ""
  | [x] => x
  | x :: l' => x ++ sep ++ join sep l'
  end.

(** ** os.path *)

Module ospath.

Definition slash : ascii := "/"%char.

Definition is_slash (a : ascii) : bool := Ascii.eqb a slash.

(** [dropwhile] on character lists. *)
Fixpoint drop_while (p : ascii -> bool) (l : list ascii) : list ascii :=
  match l with
  | [] => []
  | a :: l' => if p a then drop_while p l' else l
  end.

(** [posixpath.dirname]:
<<
    i = p.rfind('/') + 1
    head = p[:i]
    if head and head != '/'*len(head):
        head = head.rstrip('/')
    return head
>>
    computed on the reversed path. *)
Definition dirname (p : string) : string :=
  let rhead := drop_while (fun a => negb (is_slash a))
                          (rev (list_ascii_of_string p)) in
  let rhead' := if forallb is_slash rhead then rhead
                else drop_while is_slash rhead in
  string_of_list_ascii (rev rhead').

End ospath.

(** ** ferenda.compositerepository *)

Module Composite.

(** Log levels used by the module. *)
Inductive level : Type := DEBUG | INFO.

Global Instance level_eq_dec : EqDecision level.
Proof. solve_decision. Defined.

(** The module reaches the file system through [os.path.exists], two
    functions of [ferenda.util] and the [open_parsed] helper of
    [DocumentStore].  Their code is not among the sources, and the module
    is embedded over any implementation of them.  [world] is the state of
    the file system. *)
Class Util (world : Type) : Type := {
  (** [os.path.exists(path)] *)
  path_exists : string -> world -> bool;
  (** [util.outfile_is_newer(infiles, outfile)] *)
  outfile_is_newer : list string -> string -> world -> bool;
  (** [util.link_or_copy(src, dst)] *)
  link_or_copy : string -> string -> world -> world;
  (** [with self.store.open_parsed(basefile, "w"): pass], on the parsed
      path of [basefile] *)
  open_w : string -> world -> world
}.

Section Repository.

Context {world : Type} `{Util world}.

(** The part of the [DocumentStore] interface that the composite uses.
    [parsed_attachment_path b a] is [parsed_path(b, attachment=a)]. *)
Record DocumentStore : Type := {
  downloaded_path : string -> string;
  documententry_path : string -> string;
  distilled_path : string -> string;
  parsed_path : string -> string;
  parsed_attachment_path : string -> string -> string;
  storage_policy : string;
  list_attachments : string -> string -> world -> list string;
  (** truth value of [needed(basefile, action)] *)
  needed : string -> string -> world -> bool;
  (** [list(list_basefiles_for(action, force=force))] *)
  list_basefiles_for : string -> bool -> world -> list string
}.

(** A sub-repository.  [get_instance] keeps one instance per class, so
    class and instance are identified; [cls] is the identity of the
    class (the key of [_instances] and of [store.basefiles]). *)
Record DocumentRepository : Type := {
  cls : string;
  qualified_class_name : string;
  store : DocumentStore;
  repo_parse : string -> world -> Result pyval * world
}.

(** What a run does, in order. *)
Inductive event : Type :=
  | CallParse (inst : DocumentRepository) (basefile : string)
              (outcome : Result pyval)
  | Log (lvl : level) (msg : string)
  (** [log.info("%(basefile)s parse OK (%(elapsed).3f sec)", ...)];
      the elapsed wall-clock time is not modelled *)
  | LogParseOK (basefile : string)
  | OpenParsedW (basefile : string)
  | LinkOrCopy (src dst : string).

(** Computations: file system in; result, file system and actions
    out. *)
Definition M (A : Type) : Type := world -> Result A * world * list event.

Definition ret {A} (a : A) : M A := fun w => (Return a, w, []).

Definition bind {A B} (m : M A) (f : A -> M B) : M B :=
  fun w =>
    match m w with
    | (Return a, w1, t1) =>
        let '(r, w2, t2) := f a w1 in (r, w2, (t1 ++ t2)%list)
    | (Raise e, w1, t1) => (Raise e, w1, t1)
    end.

Definition raise {A} (e : exn) : M A := fun w => (Raise e, w, []).

Definition emit (ev : event) : M unit := fun w => (Return tt, w, [ev]).

Definition ask {A} (f : world -> A) : M A := fun w => (Return (f w), w, []).

Definition update (f : world -> world) : M unit :=
  fun w => (Return tt, f w, []).

Notation "x <- m ;; k" := (bind m (fun x => k))
  (at level 100, m at next level, right associativity).
Notation "m ;;; k" := (bind m (fun _ => k))
  (at level 100, right associativity).

(** [util.link_or_copy(src, dst)], recorded. *)
Definition do_link_or_copy (src dst : string) : M unit :=
  emit (LinkOrCopy src dst) ;;; update (link_or_copy src dst).

Definition log (lvl : level) (msg : string) : M unit := emit (Log lvl msg).

(** [inst.parse(basefile)] inside [try]: the call is recorded and its
    outcome handed to the handler. *)
Definition try_parse (inst : DocumentRepository) (basefile : string)
  : M (Result pyval) :=
  fun w =>
    let '(o, w') := repo_parse inst basefile w in
    (Return o, w', [CallParse inst basefile o]).

(** The configuration options the module reads. *)
Record Config : Type := {
  force : pyval;
  parseforce : pyval;
  failfast : pyval
}.

(** [CompositeStore]: the inherited store, the sub-repository instances
    (an [OrderedDict] keyed by class, in insertion order) and
    [basefiles], a [defaultdict(set)] keyed by class. *)
Record CompositeStore : Type := {
  base : DocumentStore;
  docrepo_instances : list DocumentRepository;
  basefiles : gmap string (gset string)
}.

Record CompositeRepository : Type := {
  config : Config;
  subrepos : list DocumentRepository;
  cstore : CompositeStore
}.

(** *** CompositeStore.list_basefiles_for *)

(** [x in s] for strings: [x] occurs in [s] as a substring. *)
Fixpoint str_in (x s : string) : bool :=
  String.prefix x s ||
  match s with
  | EmptyString => false
  | String _ s' => str_in x s'
  end.

(** The inner loop over one sub-repository's listing: every basefile is
    added to [self.basefiles[cls]]; it is yielded when it is not yet in
    [documents]. *)
Fixpoint list_one (k : string) (l : list string)
    (bf : gmap string (gset string)) (documents : gset string)
  : list string * gmap string (gset string) * gset string :=
  match l with
  | [] => ([], bf, documents)
  | basefile :: l' =>
      let bf1 := <[k := {[basefile]} ∪ bf !!! k]> bf in
      if decide (basefile ∈ documents) then list_one k l' bf1 documents
      else
        let '(ys, bf2, d2) := list_one k l' bf1 ({[basefile]} ∪ documents) in
        (basefile :: ys, bf2, d2)
  end.

(** The outer loop over [self.docrepo_instances.items()]. *)
Fixpoint list_all (insts : list DocumentRepository) (action : string)
    (force_ : bool) (w : world)
    (bf : gmap string (gset string)) (documents : gset string)
  : list string * gmap string (gset string) * gset string :=
  match insts with
  | [] => ([], bf, documents)
  | inst :: insts' =>
      let '(ys1, bf1, d1) :=
        list_one (cls inst)
                 (list_basefiles_for (store inst) action force_ w)
                 bf documents in
      let '(ys2, bf2, d2) := list_all insts' action force_ w bf1 d1 in
      ((ys1 ++ ys2)%list, bf2, d2)
  end.

(** [CompositeStore.list_basefiles_for(action, basedir, force)], run to
    exhaustion: the basefiles yielded, in order, and the store with
    [basefiles] as the run leaves it.  The test [action in ("parse")]
    is a substring test ([("parse")] is a string).  Any other action is
    delegated to the inherited method. *)
Definition composite_list_basefiles_for (self : CompositeStore)
    (action : string) (force_ : bool) (w : world)
  : list string * CompositeStore :=
  if str_in action "parse" then
    let '(ys, bf, _) :=
      list_all (docrepo_instances self) action force_ w
               (basefiles self) ∅ in
    (ys, {| base := base self;
            docrepo_instances := docrepo_instances self;
            basefiles := bf |})
  else (list_basefiles_for (base self) action force_ w, self).

(** *** CompositeRepository.get_preferred_instances *)

(** [basefile in self.store.basefiles[c]] for the class of [inst]. *)
Definition listed (self : CompositeRepository) (basefile : string)
    (inst : DocumentRepository) : bool :=
  bool_decide (basefile ∈ basefiles (cstore self) !!! cls inst).

(** The condition under which [get_preferred_instances] yields
    [inst]. *)
Definition eligible (self : CompositeRepository) (basefile : string)
    (inst : DocumentRepository) (w : world) : bool :=
  listed self basefile inst
  || path_exists (downloaded_path (store inst) basefile) w.

(** *** CompositeRepository.copy_parsed *)

(** The loop over the attachments; returns [cnt]. *)
Fixpoint copy_attachments (self : CompositeRepository) (basefile : string)
    (instance : DocumentRepository) (l : list string) (cnt : nat)
  : M nat :=
  match l with
  | [] => ret cnt
  | attachment :: l' =>
      do_link_or_copy
        (parsed_attachment_path (store instance) basefile attachment)
        (parsed_attachment_path (base (cstore self)) basefile attachment) ;;;
      copy_attachments self basefile instance l' (S cnt)
  end.

Definition copy_parsed (self : CompositeRepository) (basefile : string)
    (instance : DocumentRepository) : M unit :=
  let mine := base (cstore self) in
  let theirs := store instance in
  fresh <- ask (fun w =>
    negb (truthy (force (config self)))
    && outfile_is_newer [distilled_path theirs basefile]
                        (distilled_path mine basefile) w
    && outfile_is_newer [parsed_path theirs basefile]
                        (parsed_path mine basefile) w) ;;
  if fresh then
    log DEBUG (basefile ++ ": Attachments are (likely) up-to-date")
  else
    do_link_or_copy (documententry_path theirs basefile)
                    (documententry_path mine basefile) ;;;
    do_link_or_copy (distilled_path theirs basefile)
                    (distilled_path mine basefile) ;;;
    do_link_or_copy (parsed_path theirs basefile)
                    (parsed_path mine basefile) ;;;
    if String.eqb (storage_policy theirs) "dir" then
      atts <- ask (list_attachments theirs basefile "parsed") ;;
      cnt <- copy_attachments self basefile instance atts 0 ;;
      match cnt with
      | O => ret tt
      | S _ =>
          log DEBUG (basefile ++ ": Linked " ++ pretty cnt
                     ++ " attachments from "
                     ++ ospath.dirname (parsed_path theirs basefile)
                     ++ " to "
                     ++ ospath.dirname (parsed_path mine basefile))
      end
    else ret tt.

(** *** CompositeRepository.parse *)

(** The freshness loop at the head of [parse]: [true] when some
    sub-repository reports that no parse is needed while the composite's
    parsed file exists. *)
Fixpoint skip_check (self : CompositeRepository) (cs : list DocumentRepository)
    (basefile : string) (w : world) : bool :=
  match cs with
  | [] => false
  | inst :: cs' =>
      if negb (needed (store inst) basefile "parse" w)
         && path_exists (parsed_path (base (cstore self)) basefile) w
      then true
      else skip_check self cs' basefile w
  end.

(** The loop [for inst in self.get_preferred_instances(basefile)].  The
    generator is lazy: whether the next class is eligible is decided
    when the loop asks for it, after the earlier attempts.  The loop
    carries the variables [ret] and [inst]. *)
Fixpoint parse_loop (self : CompositeRepository)
    (cs : list DocumentRepository) (basefile : string)
    (ret_ : pyval) (inst_ : option DocumentRepository)
  : M (pyval * option DocumentRepository) :=
  match cs with
  | [] => ret (ret_, inst_)
  | inst :: cs' =>
      ok <- ask (eligible self basefile inst) ;;
      if ok then
        o <- try_parse inst basefile ;;
        match o with
        | Return v =>
            if truthy v then ret (v, Some inst)
            else parse_loop self cs' basefile v (Some inst)
        | Raise e =>
            if truthy (failfast (config self)) then raise e
            else
              log DEBUG (basefile ++ ": parse with "
                         ++ qualified_class_name inst
                         ++ " failed: " ++ exn_str e) ;;;
              parse_loop self cs' basefile (PBool false) (Some inst)
        end
      else parse_loop self cs' basefile ret_ inst_
  end.

(** The label of the final [ParseError]. *)
Definition subrepos_lbl (self : CompositeRepository) (basefile : string)
  : string :=
  join ", "
    (map qualified_class_name
       (List.filter (listed self basefile) (subrepos self))).

(** The body of [parse] after a truthy [ret].  A truthy [ret] that is not
    [True] is a string (the other values of [pyval] are falsy), so the
    new [basefile] is a string too. *)
Definition parse_success (self : CompositeRepository) (basefile : string)
    (ret_ : pyval) (inst : DocumentRepository) : M pyval :=
  let oldbasefile := basefile in
  let renamed := negb (is_True ret_) && py_ne_str ret_ basefile in
  let basefile := match ret_ with
                  | PStr s => if renamed then s else basefile
                  | _ => basefile
                  end in
  (if renamed then
     emit (OpenParsedW oldbasefile) ;;;
     update (open_w (parsed_path (base (cstore self)) oldbasefile))
   else ret tt) ;;;
  copy_parsed self basefile inst ;;;
  emit (LogParseOK basefile) ;;;
  if negb (String.eqb basefile oldbasefile) then
    raise (DocumentRenamedError (PBool true)
             (oldbasefile ++ ": In subrepo " ++ qualified_class_name inst
              ++ " basefile turned out to really be " ++ basefile)
             oldbasefile basefile)
  else ret ret_.

(** [CompositeRepository.parse(basefile)]: the body of the method (the
    decorator [updateentry] belongs to [ferenda.decorators], which is not
    among the sources).  [inst] is read only under [if ret:], and a truthy
    [ret] comes from the loop together with its [inst]. *)
Definition parse (self : CompositeRepository) (basefile : string)
  : M pyval :=
  let force_ := is_True (force (config self))
                || is_True (parseforce (config self)) in
  skip <- ask (fun w => negb force_
                        && skip_check self (subrepos self) basefile w) ;;
  if skip then
    log DEBUG (basefile ++ ": Skipped") ;;; ret (PBool true)
  else
    r <- parse_loop self (subrepos self) basefile (PBool false) None ;;
    let '(ret_, inst_) := r in
    if truthy ret_ then
      match inst_ with
      | Some inst => parse_success self basefile ret_ inst
      | None => raise (UnboundLocalError "inst")
      end
    else
      let lbl := subrepos_lbl self basefile in
      if negb (String.eqb lbl "") then
        raise (ParseError ("No instance of " ++ lbl
                           ++ " was able to parse " ++ basefile))
      else
        raise (ParseError ("No available instance (out of "
                           ++ pretty (length (subrepos self))
                           ++ ") had basefile " ++ basefile)).

(** *** Reading a run *)

(** The [parse] calls made on sub-repositories, in order, each with its
    outcome. *)
Fixpoint calls (tr : list event)
  : list (DocumentRepository * Result pyval) :=
  match tr with
  | [] => []
  | CallParse inst _ o :: tr' => (inst, o) :: calls tr'
  | _ :: tr' => calls tr'
  end.

(** The [link_or_copy] operations of a run, in order. *)
Fixpoint link_ops (tr : list event) : list (string * string) :=
  match tr with
  | [] => []
  | LinkOrCopy src dst :: tr' => (src, dst) :: link_ops tr'
  | _ :: tr' => link_ops tr'
  end.

(** A call succeeded when it returned a truthy value. *)
Definition succeeded (o : Result pyval) : bool :=
  match o with
  | Return v => truthy v
  | Raise _ => false
  end.

(** The instances that the generator [get_preferred_instances] yields to
    the loop of [parse] when the loop runs through all of [cs].  The
    generator is lazy: a class is tested when the loop comes back for
    its next instance, in the file system that the [parse] call of the
    previous instance left. *)
Fixpoint preferred_instances (self : CompositeRepository)
    (basefile : string) (cs : list DocumentRepository) (w : world)
  : list DocumentRepository :=
  match cs with
  | [] => []
  | inst :: cs' =>
      if eligible self basefile inst w
      then inst :: preferred_instances self basefile cs'
                     (snd (repo_parse inst basefile w))
      else preferred_instances self basefile cs' w
  end.

(** Parsing [basefile] in a sub-repository neither creates nor removes
    the downloaded file of [basefile] in any sub-repository. *)
Definition keeps_downloads (self : CompositeRepository)
    (basefile : string) : Prop :=
  forall inst inst' w,
    In inst (subrepos self) -> In inst' (subrepos self) ->
    path_exists (downloaded_path (store inst') basefile)
                (snd (repo_parse inst basefile w))
    = path_exists (downloaded_path (store inst') basefile) w.

(** Whether the freshness short-circuit at the head of [parse] fires. *)
Definition skipped (self : CompositeRepository) (basefile : string)
    (w : world) : bool :=
  negb (is_True (force (config self)) || is_True (parseforce (config self)))
  && skip_check self (subrepos self) basefile w.

(** What [parse] hands to its caller after a sub-repository [inst]
    returned the truthy value [v]: [v] itself, or the rename signal when
    [v] is a string other than the basefile asked for. *)
Definition result_of_success (basefile : string) (v : pyval)
    (inst : DocumentRepository) : Result pyval :=
  match v with
  | PStr s =>
      if String.eqb s basefile then Return v
      else Raise (DocumentRenamedError (PBool true)
                    (basefile ++ ": In subrepo " ++ qualified_class_name inst
                     ++ " basefile turned out to really be " ++ s)
                    basefile s)
  | _ => Return v
  end.

(** The debug line written when a sub-repository's exception is
    swallowed. *)
Definition swallowed_msg (basefile : string) (inst : DocumentRepository)
    (e : exn) : string :=
  basefile ++ ": parse with " ++ qualified_class_name inst
  ++ " failed: " ++ exn_str e.

(** The text of the final [ParseError] for a label [lbl]. *)
Definition parse_error_msg (self : CompositeRepository)
    (basefile : string) (lbl : string) : string :=
  if negb (String.eqb lbl "") then
    "No instance of " ++ lbl ++ " was able to parse " ++ basefile
  else
    "No available instance (out of " ++ pretty (length (subrepos self))
    ++ ") had basefile " ++ basefile.

(** The loop of [parse] over an explicit list of instances: what it does
    once it is known which instances the generator yields. *)
Fixpoint attempts (self : CompositeRepository)
    (insts : list DocumentRepository) (basefile : string)
    (ret_ : pyval) (inst_ : option DocumentRepository)
  : M (pyval * option DocumentRepository) :=
  match insts with
  | [] => ret (ret_, inst_)
  | inst :: insts' =>
      o <- try_parse inst basefile ;;
      match o with
      | Return v =>
          if truthy v then ret (v, Some inst)
          else attempts self insts' basefile v (Some inst)
      | Raise e =>
          if truthy (failfast (config self)) then raise e
          else
            log DEBUG (swallowed_msg basefile inst e) ;;;
            attempts self insts' basefile (PBool false) (Some inst)
      end
  end.

End Repository.

End Composite.

(** ** A file system

    A concrete file system on which the runs of both modules can be
    evaluated: regular files only (directories are implicit in the paths),
    each with its lines of text and a modification time, and a clock that
    stamps every write. *)

Module FS.

Record file : Type := File {
  mtime : nat;
  lines : list string
}.

Record world : Type := World {
  files : gmap string file;
  clock : nat
}.

(** [os.path.exists(path)] *)
Definition path_exists (path : string) (w : world) : bool :=
  bool_decide (is_Some (files w !! path)).

(** The lines of [path]; no lines when there is no such file. *)
Definition read_lines (path : string) (w : world) : list string :=
  match files w !! path with
  | Some f => lines f
  | None => []
  end.

(** [with open(path, "w"): pass]: [path] becomes an empty file. *)
Definition open_w (path : string) (w : world) : world :=
  {| files := <[path := File (clock w) []]> (files w);
     clock := S (clock w) |}.

(** [with open(path, "a") as fp: fp.write(line + "\n")] *)
Definition append_line (path : string) (line : string) (w : world) : world :=
  {| files := <[path := File (clock w) (read_lines path w ++ [line])%list]> (files w);
     clock := S (clock w) |}.

(** Modelled from the spec: [ferenda.util.outfile_is_newer] is not among
    the sources.  The freshness check of the spec, "the composite's
    existing copies are no older than the source's own": the out-file
    exists and no existing in-file has a later modification time. *)
Definition outfile_is_newer (infiles : list string) (outfile : string)
    (w : world) : bool :=
  match files w !! outfile with
  | None => false
  | Some fo =>
      forallb (fun f => match files w !! f with
                        | Some fi => Nat.leb (mtime fi) (mtime fo)
                        | None => true
                        end) infiles
  end.

(** Modelled from the spec: [ferenda.util.link_or_copy] is not among the
    sources.  "Copy (hard-link where possible, falling back to copy)":
    afterwards [dst] is the file [src] is, text and modification time.
    Failures of the operating system are not modelled: without [src]
    nothing happens. *)
Definition link_or_copy (src dst : string) (w : world) : world :=
  match files w !! src with
  | Some f => {| files := <[dst := f]> (files w); clock := clock w |}
  | None => w
  end.

(** The string read backwards. *)
Definition reversed (s : string) : string :=
  string_of_list_ascii (rev (list_ascii_of_string s)).

(** [s.endswith(suffix)] *)
Definition endswith (s suffix : string) : bool :=
  String.prefix (reversed suffix) (reversed s).

(** Modelled from the spec: [ferenda.util.list_dirs] is not among the
    sources.  Readers "scan all such suffixed files plus the canonical
    merged file": all files below directory [d] whose name ends with
    [suffix]. *)
Definition list_dirs (d : string) (suffix : string) (w : world)
  : list string :=
  List.filter (fun p => String.prefix (d ++ "/") p && endswith p suffix)
              (map fst (map_to_list (files w))).

Global Instance fs_util : Composite.Util world := {|
  Composite.path_exists := path_exists;
  Composite.outfile_is_newer := outfile_is_newer;
  Composite.link_or_copy := link_or_copy;
  Composite.open_w := open_w
|}.

End FS.

(** ** ferenda.sources.legal.se.dv: the uri map *)

Module DV.

(** *** String methods *)

(** The characters [str.strip] removes (the ASCII ones). *)
Definition is_space (a : ascii) : bool :=
  let n := nat_of_ascii a in
  (n =? 32)%nat || ((9 <=? n)%nat && (n <=? 13)%nat)
  || ((28 <=? n)%nat && (n <=? 31)%nat).

(** [s.strip()] *)
Definition strip (s : string) : string :=
  let l := ospath.drop_while is_space (list_ascii_of_string s) in
  string_of_list_ascii (rev (ospath.drop_while is_space (rev l))).

(** [s.split(sep, maxsplit)] for a one-character separator. *)
Fixpoint split_max (sep : ascii) (maxsplit : nat) (s : string)
  : list string :=
  match s with
  | EmptyString => [""]
  | String a s' =>
      match maxsplit with
      | O => [s]
      | S n =>
          if Ascii.eqb a sep then "" :: split_max sep n s'
          else
            match split_max sep maxsplit s' with
            | piece :: rest => String a piece :: rest
            | [] => [String a ""]
            end
      end
  end.

(** [s.split(sep)] *)
Definition split (sep : ascii) (s : string) : list string :=
  split_max sep (String.length s) s.

(** [s[n:]] *)
Fixpoint drop (n : nat) (s : string) : string :=
  match n, s with
  | O, _ => s
  | S n', String _ s' => drop n' s'
  | S _, EmptyString => ""
  end.

(** [str(v)] *)
Definition py_str (v : pyval) : string :=
  match v with
  | PNone => "None"
  | PBool true => "True"
  | PBool false => "False"
  | PStr s => s
  end.

Definition tab : ascii := ascii_of_nat 9.

(** *** The repository *)

Record Config : Type := {
  mapfiletype : string;
  clientname : pyval
}.

(** What the uri-map code reads of a [DV] instance and its
    surroundings: its configuration, the class attributes that shape
    the URIs, the directory of its store, the id of the running process
    ([os.getpid()]) and [urlparse(uri).path] (urllib is taken as
    given). *)
Record Repo : Type := {
  config : Config;
  urispace_base : string;
  urispace_segment : string;
  datadir : string;
  getpid : nat;
  urlparse_path : string -> string
}.

Record Document : Type := {
  basefile : string;
  uri : string
}.

(** Modelled from the spec: [DocumentStore.path] is not among the
    sources.  Artifacts are "addressable by (basefile, kind, optional
    attachment name)"; [relate_all_setup] spells the layout out as
    [<datadir>/dv/generated/uri.map] and [<datadir>/dv/parsed], which is
    [<store.datadir>/<maindir>/<basefile><suffix>]. *)
Definition store_path (self : Repo) (basefile maindir suffix : string)
  : string :=
  datadir self ++ "/" ++ maindir ++ "/" ++ basefile ++ suffix.

(** Modelled from the spec: [DocumentStore.parsed_path] is not among the
    sources; the parsed artifact of a basefile, laid out as above. *)
Definition parsed_path (self : Repo) (basefile : string) : string :=
  store_path self basefile "parsed" ".xhtml".

(** The canonical map file, [self.store.path("uri", "generated", ".map")]. *)
Definition canonical_mapfile (self : Repo) : string :=
  store_path self "uri" "generated" ".map".

(** The map file of this very process under a client name,
    [self.store.path("uri", "generated", ".%s.%s.map" % (clientname, os.getpid()))]. *)
Definition own_mapfile (self : Repo) : string :=
  store_path self "uri" "generated"
    ("." ++ py_str (clientname (config self)) ++ "."
     ++ pretty (getpid self) ++ ".map").

(** *** DV.readmapfile *)

(** [path, filename = line.strip().split("\t", 1)] *)
Definition parse_line (line : string) : Result (string * string) :=
  match split_max tab 1 (strip line) with
  | [path; filename] => Return (path, filename)
  | _ => Raise (ValueError "not enough values to unpack (expected 2, got 1)")
  end.

(** The loop over the lines of one map file.  [callback] answers [None]
    ([PNone]) to go on, anything else to stop with that answer. *)
Fixpoint scan_lines (callback : string -> string -> Result pyval)
    (ls : list string) : Result pyval :=
  match ls with
  | [] => Return PNone
  | line :: ls' =>
      match parse_line line with
      | Raise e => Raise e
      | Return (path, filename) =>
          match callback path filename with
          | Raise e => Raise e
          | Return PNone => scan_lines callback ls'
          | Return ret_ => Return ret_
          end
      end
  end.

(** The loop over the map files. *)
Fixpoint scan_files (callback : string -> string -> Result pyval)
    (mapfiles : list string) (w : FS.world) : Result pyval :=
  match mapfiles with
  | [] => Return PNone
  | mapfile :: rest =>
      if FS.path_exists mapfile w then
        match scan_lines callback (FS.read_lines mapfile w) with
        | Return PNone => scan_files callback rest w
        | r => r
        end
      else scan_files callback rest w
  end.

(** The map files [readmapfile] reads. *)
Definition mapfiles (self : Repo) (w : FS.world) : list string :=
  let mapfile := canonical_mapfile self in
  if truthy (clientname (config self))
  then FS.list_dirs (ospath.dirname mapfile) ".map" w
  else [mapfile].

(** [DV.readmapfile(callback)], for a callback without side effects.
    ([util.ensure_dir] only creates the directory, which this file system
    leaves implicit; the variable [regex] is never used.) *)
Definition readmapfile (self : Repo)
    (callback : string -> string -> Result pyval) (w : FS.world)
  : Result pyval :=
  scan_files callback (mapfiles self w) w.

(** *** DV.postprocess_doc *)

(** The path under which [doc] is entered in the map. *)
Definition map_path (self : Repo) (doc : Document) : string :=
  if String.eqb (mapfiletype (config self)) "nginx"
  then urlparse_path self (uri doc)
  else
    let idx := String.length (urispace_base self)
               + String.length (urispace_segment self) + 2 in
    drop idx (uri doc).

(** [filename.split("/",3)[-1].split(".")[0]] *)
Definition filename_to_basefile (filename : string) : string :=
  hd "" (split "."%char (List.last (split_max "/"%char 3 filename) "")).

(** The closure [map_append_needed(mapped_path, filename)]. *)
Definition map_append_needed (self : Repo) (doc : Document)
    (mapped_path filename : string) : Result pyval :=
  if String.eqb mapped_path (map_path self doc) then
    let basefile_ := filename_to_basefile filename in
    if negb (String.eqb (basefile doc) basefile_) then
      Raise (DuplicateReferatDoc basefile_ (parsed_path self (basefile doc)))
    else Return (PBool false)
  else Return PNone.

(** The line appended for [doc]. *)
Definition map_line (self : Repo) (doc : Document) : string :=
  if String.eqb (mapfiletype (config self)) "nginx"
  then map_path self doc ++ String tab ("/dv/generated/" ++ basefile doc ++ ".html;")
  else map_path self doc ++ String tab (basefile doc).

(** The map file [postprocess_doc] appends to. *)
Definition append_mapfile (self : Repo) : string :=
  if truthy (clientname (config self)) then own_mapfile self
  else canonical_mapfile self.

(** [DV.postprocess_doc(doc)], its uri-map section: from the top of the
    method to the end of the [if append_needed is not False] block.  (The
    cached [_basefilemap], which the block drops, and the clean-up of the
    document body that follows are not part of the embedding.) *)
Definition postprocess_doc (self : Repo) (doc : Document) (w : FS.world)
  : Result unit * FS.world :=
  match readmapfile self (map_append_needed self doc) w with
  | Raise e => (Raise e, w)
  | Return append_needed =>
      if negb (bool_decide (append_needed = PBool false)) then
        (Return tt, FS.append_line (append_mapfile self) (map_line self doc) w)
      else (Return tt, w)
  end.

(** *** Well-formed entries *)

(** A path is clean when it is not empty and holds no white space (a tab
    least of all). *)
Definition clean (s : string) : Prop :=
  s <> "" /\ Forall (fun a => is_space a = false) (list_ascii_of_string s).

(** A basefile without a dot. *)
Definition dotless (s : string) : Prop :=
  Forall (fun a => a <> "."%char) (list_ascii_of_string s).

End DV.

(** ** ferenda.sources.legal.se.dv: the grammars of [DV.get_parser] *)

Module DVParser.

(** The recognizers that [get_parser] hands to [set_recognizers]. *)
Inductive recognizer : Type :=
  | is_delmal
  | is_endmeta
  | is_instans
  | is_dom
  | is_betankande
  | is_domskal
  | is_domslut
  | is_skiljaktig
  | is_tillagg
  | is_heading
  | is_paragraph.

Global Instance recognizer_eq_dec : EqDecision recognizer.
Proof. solve_decision. Defined.

Section Recognizers.

(** The parser a recognizer is called with (its reader, its state
    stack, its attributes), and the truth value of the answer of the
    recognizers that inspect the chunk ahead; their regular expressions
    are domain data and stay abstract. *)
Context {parser : Type}.
Variable inspects : recognizer -> parser -> bool.

(** The truth value of [recognizer(parser)].  [is_paragraph] is
<<
    def is_paragraph(parser):
        return True
>>
*)
Definition recognize (r : recognizer) (p : parser) : bool :=
  match r with
  | is_paragraph => true
  | _ => inspects r p
  end.

End Recognizers.

(** The arguments of [p.set_recognizers(...)] in [get_parser], in
    order: one recognizer when [parseconfig == "simple"], the full list
    otherwise. *)
Definition get_parser_recognizers (parseconfig : string) : list recognizer :=
  if String.eqb parseconfig "simple" then [is_paragraph]
  else [is_delmal; is_endmeta; is_instans; is_dom; is_betankande;
        is_domskal; is_domslut; is_skiljaktig; is_tillagg; is_heading;
        is_paragraph].

(** Modelled from the spec: the FSM engine ([ferenda.fsmparser]) is not
    among the sources.  "Evaluate recognizers in declared order"; "the
    transition used is that of whichever is declared earlier in the
    grammar's recognizer list": of the recognizers that fire, the first
    in declared order is selected. *)
Definition first_match (fires : recognizer -> bool)
    (recognizers : list recognizer) : option recognizer :=
  List.find fires recognizers.

End DVParser.

(** ** ferenda.compositerepository: download and the default options *)

Module CompositeDownload.

Import Composite.

(** [logging.INFO] *)
Definition INFO : nat := 20.

(** The loggers of the standard [logging] module, named by a string:
    [getEffectiveLevel()] and [setLevel(level)].  The module is taken as
    given; the state of the loggers is part of [world]. *)
Class Logging (world : Type) : Type := {
  effective_level : string -> world -> nat;
  set_level : string -> nat -> world -> world
}.

Section Download.

Context {world : Type} `{Logging world}.

(** [util.location_exception(e)] is not among the sources. *)
Variable location_exception : exn -> string.

(** What [download] uses of a sub-repository class [c] and of its
    instance: the instance as the store keeps it, [c.alias], the logger
    [inst.log] and [inst.download]. *)
Record Subrepo : Type := {
  instance : @DocumentRepository world;
  alias : string;
  logger : string;
  repo_download : pyval -> world -> Result pyval * world
}.

(** The composite, as far as [download] reads it: its sub-repository
    classes and its own logger [self.log]. *)
Record Downloader : Type := {
  dl_subrepos : list Subrepo;
  dl_logger : string
}.

(** What a run of [download] does, in order. *)
Inductive dl_event : Type :=
  | CallDownload (c : Subrepo) (basefile : pyval) (outcome : Result pyval)
  | SetLevel (lg : string) (lvl : nat)
  | LogError (msg : string).

(** [c in self.store.docrepo_instances]: the keys are the classes. *)
Definition registered (c : Subrepo)
    (insts : list (@DocumentRepository world)) : bool :=
  bool_decide (cls (instance c) ∈ map cls insts).

(** [if c not in self.store.docrepo_instances:
         self.store.docrepo_instances[c] = inst]
    on an [OrderedDict]: a new key goes to the end. *)
Definition register (c : Subrepo) (insts : list (@DocumentRepository world))
  : list (@DocumentRepository world) :=
  if registered c insts then insts else (insts ++ [instance c])%list.

(** The text of the error line. *)
Definition download_failed_msg (c : Subrepo) (e : exn) : string :=
  "download for " ++ alias c ++ " failed: " ++ exn_str e
  ++ " (" ++ location_exception e ++ ")".

(** The condition of the log-level workaround. *)
Definition workaround (self : Downloader) (c : Subrepo) (w : world) : bool :=
  Nat.eqb (effective_level (dl_logger self) w) INFO
  && Nat.eqb (effective_level (logger c) w) (INFO + 1).

(** The [try] statement of the loop body: the value of [ret] after it,
    the world and what was done.  When [inst.download] raises, the
    statement that restores the level is not reached. *)
Definition try_download (self : Downloader) (c : Subrepo) (basefile : pyval)
    (w : world) : pyval * world * list dl_event :=
  let loglevel_workaround := workaround self c w in
  let '(w1, t1) :=
    if loglevel_workaround then
      let lvl := effective_level (dl_logger self) w in
      (set_level (logger c) lvl w, [SetLevel (logger c) lvl])
    else (w, []) in
  let '(o, w2) := repo_download c basefile w1 in
  let t2 := (t1 ++ [CallDownload c basefile o])%list in
  match o with
  | Return ret_ =>
      if loglevel_workaround then
        let lvl := effective_level (dl_logger self) w2 + 1 in
        (ret_, set_level (logger c) lvl w2,
         (t2 ++ [SetLevel (logger c) lvl])%list)
      else (ret_, w2, t2)
  | Raise e =>
      (PBool false, w2, (t2 ++ [LogError (download_failed_msg c e)])%list)
  end.

(** The loop of [download] over the classes still to visit.  It carries
    [self.store.docrepo_instances]; [Return PNone] is the method falling
    off its end or leaving through the bare [return]. *)
Fixpoint download_loop (self : Downloader) (cs : list Subrepo)
    (basefile : pyval) (insts : list (@DocumentRepository world)) (w : world)
  : Result pyval * list (@DocumentRepository world) * world * list dl_event :=
  match cs with
  | [] => (Return PNone, insts, w, [])
  | c :: cs' =>
      let insts1 := register c insts in
      let '(ret_, w1, t1) := try_download self c basefile w in
      if truthy basefile && truthy ret_ then (Return PNone, insts1, w1, t1)
      else
        let '(r, insts2, w2, t2) :=
          download_loop self cs' basefile insts1 w1 in
        (r, insts2, w2, (t1 ++ t2)%list)
  end.

(** [CompositeRepository.download(basefile)]; [insts] is
    [self.store.docrepo_instances] when the method is entered. *)
Definition download (self : Downloader) (basefile : pyval)
    (insts : list (@DocumentRepository world)) (w : world)
  : Result pyval * list (@DocumentRepository world) * world * list dl_event :=
  download_loop self (dl_subrepos self) basefile insts w.

(** The [download] calls of a run, in order, each with its outcome. *)
Fixpoint dl_calls (tr : list dl_event) : list (Subrepo * Result pyval) :=
  match tr with
  | [] => []
  | CallDownload c _ o :: tr' => (c, o) :: dl_calls tr'
  | _ :: tr' => dl_calls tr'
  end.

(** The error lines of a run, in order. *)
Fixpoint dl_errors (tr : list dl_event) : list string :=
  match tr with
  | [] => []
  | LogError msg :: tr' => msg :: dl_errors tr'
  | _ :: tr' => dl_errors tr'
  end.

(** The value of [ret] that an outcome leaves behind the [try]
    statement. *)
Definition ret_of (o : Result pyval) : pyval :=
  match o with
  | Return v => v
  | Raise _ => PBool false
  end.

(** The error line a call leaves, if any. *)
Definition error_of (call : Subrepo * Result pyval) : option string :=
  match snd call with
  | Raise e => Some (download_failed_msg (fst call) e)
  | Return _ => None
  end.

(** A call of a sub-repository logging to [lg] raised. *)
Definition raised_on (lg : string)
    (calls : list (Subrepo * Result pyval)) : Prop :=
  exists c e, (c, Raise e) ∈ calls /\ logger c = lg.

(** A sub-repository's [download] leaves the levels of all loggers as
    they are. *)
Definition keeps_levels (c : Subrepo) : Prop :=
  forall lg basefile w,
    effective_level lg (snd (repo_download c basefile w))
    = effective_level lg w.

(** The loggers behave as independent cells: a level that is set (to
    anything but NOTSET, 0) is the effective level from then on, and the
    other loggers do not see it. *)
Definition cells : Prop :=
  (forall lg n w, n <> 0 -> effective_level lg (set_level lg n w) = n)
  /\ (forall lg lg' n w, lg <> lg' ->
        effective_level lg' (set_level lg n w) = effective_level lg' w).

End Download.

(** *** CompositeRepository.get_default_options *)

(** The inner loop over [c.get_default_options().items()]: an option
    is taken over when [opts] has no such key yet. *)
Definition add_missing (opts : gmap string pyval)
    (items : list (string * pyval)) : gmap string pyval :=
  fold_left
    (fun opts kv => if decide (is_Some (opts !! kv.1)) then opts
                    else <[kv.1 := kv.2]> opts)
    items opts.

(** [get_default_options]: [super_opts] is what the superclass answers,
    [sub_opts] what each class of [cls.subrepos] answers, in order.
    (The keys of one dictionary are distinct, so the order in which
    [items()] hands them out makes no difference.) *)
Definition get_default_options (super_opts : gmap string pyval)
    (sub_opts : list (gmap string pyval)) : gmap string pyval :=
  let opts :=
    fold_left (fun opts c => add_missing opts (map_to_list c))
              sub_opts super_opts in
  <["failfast" := PBool false]> opts.

(** The first of the dictionaries that has the key decides. *)
Fixpoint first_with (k : string) (ds : list (gmap string pyval))
  : option pyval :=
  match ds with
  | [] => None
  | d :: ds' =>
      match d !! k with
      | Some v => Some v
      | None => first_with k ds'
      end
  end.

End CompositeDownload.

(** ** ferenda.sources.legal.se.dv: download *)

Module DVDownload.

(** The options [DV.download] reads.  [has_lastdownload] is
    ['lastdownload' in self.config]. *)
Record Config : Type := {
  refresh : pyval;
  has_lastdownload : bool;
  ftpuser : pyval;
  ftppassword : pyval
}.

(** [except errors.MaxDownloadsReached] *)
Definition is_MaxDownloadsReached (e : exn) : bool :=
  match e with
  | OtherException cls _ => String.eqb cls "MaxDownloadsReached"
  | _ => false
  end.

Section Download.

Context {world : Type}.

(** [download_ftp(dirname, recurse, user, password)] and
    [download_www(dirname, recurse)] talk to the court's FTP server and
    to a web server; they are taken as given. *)
Variable download_ftp :
  string -> bool -> pyval -> pyval -> world -> Result pyval * world.
Variable download_www : string -> bool -> world -> Result pyval * world.

(** [DV.download(basefile)]: the result, the world and the warnings
    logged.  (The counter [self.downloadcount], reset here and used by
    the two downloaders only, belongs to their part of the world.) *)
Definition download (config : Config) (basefile : pyval) (w : world)
  : Result pyval * world * list string :=
  if negb (bool_decide (basefile = PNone)) then
    (Raise (ValueError "DV.download cannot process a basefile parameter"),
     w, [])
  else
    let recurse := truthy (refresh config) || negb (has_lastdownload config) in
    let '(r, w', warnings) :=
      if truthy (ftpuser config) then
        let '(r, w') :=
          download_ftp "" recurse (ftpuser config) (ftppassword config) w in
        (r, w', [])
      else
        let '(r, w') := download_www "" recurse w in
        (r, w',
         ["Config variable ftpuser not set, downloading from secondary source (https://lagen.nu/dv/downloaded/) instead"])
    in
    match r with
    | Raise e =>
        if is_MaxDownloadsReached e then (Return PNone, w', warnings)
        else (Raise e, w', warnings)
    | Return _ => (Return PNone, w', warnings)
    end.

(** [DV.download] as the method a composite calls. *)
Definition as_repo_download (config : Config) (basefile : pyval) (w : world)
  : Result pyval * world :=
  (download config basefile w).1.

End Download.

End DVDownload.

(** ** ferenda.sources.legal.se.dv: from a URI back to the basefile *)

Module DVMap.

Import DV.

(** [s[:n]] *)
Fixpoint take (n : nat) (s : string) : string :=
  match n, s with
  | O, _ => ""
  | S n', String a s' => String a (take n' s')
  | S _, EmptyString => ""
  end.

(** [s[a:-b]] for [b > 0]. *)
Definition slice_neg (a b : nat) (s : string) : string :=
  drop a (take (String.length s - b) s).

(** [s.replace(old, new)] for one-character [old] and [new]. *)
Fixpoint replace_char (old new : ascii) (s : string) : string :=
  match s with
  | EmptyString => ""
  | String a s' =>
      String (if Ascii.eqb a old then new else a) (replace_char old new s')
  end.

(** The class attribute [expected_cases]. *)
Definition expected_cases : gmap string Z :=
  list_to_map [("ra", 1993%Z); ("nja", 1981%Z); ("rh", 1993%Z);
               ("ad", 1993%Z); ("mod", 1999%Z); ("md", 2004%Z)].

(** The closure [build_basefilemap(path, filename)] of
    [basefile_from_uri], which fills [self._basefilemap] and answers
    [None]. *)
Definition build_basefilemap (self : Repo) (path filename : string)
    (basefilemap : gmap string string) : gmap string string :=
  if String.eqb (mapfiletype (config self)) "nginx" then
    <[drop (String.length (urispace_segment self) + 2) path
      := slice_neg 14 6 filename]> basefilemap
  else <[path := filename]> basefilemap.

(** The loops of [DV.readmapfile] for a callback that updates a
    dictionary and always answers [None]: every line of every map file
    is handed to it, unless a line cannot be unpacked. *)
Fixpoint fill_lines
    (callback : string -> string -> gmap string string -> gmap string string)
    (ls : list string) (m : gmap string string)
  : Result pyval * gmap string string :=
  match ls with
  | [] => (Return PNone, m)
  | line :: ls' =>
      match parse_line line with
      | Raise e => (Raise e, m)
      | Return (path, filename) => fill_lines callback ls' (callback path filename m)
      end
  end.

Fixpoint fill_files
    (callback : string -> string -> gmap string string -> gmap string string)
    (mapfiles : list string) (w : FS.world) (m : gmap string string)
  : Result pyval * gmap string string :=
  match mapfiles with
  | [] => (Return PNone, m)
  | mapfile :: rest =>
      if FS.path_exists mapfile w then
        match fill_lines callback (FS.read_lines mapfile w) m with
        | (Return _, m') => fill_files callback rest w m'
        | r => r
        end
      else fill_files callback rest w m
  end.

Definition readmapfile_fill (self : Repo)
    (callback : string -> string -> gmap string string -> gmap string string)
    (w : FS.world) (m : gmap string string)
  : Result pyval * gmap string string :=
  fill_files callback (mapfiles self w) w m.

(** The key under which [build_basefilemap] files a path of the map. *)
Definition map_key (self : Repo) (path : string) : string :=
  if String.eqb (mapfiletype (config self)) "nginx"
  then drop (String.length (urispace_segment self) + 2) path
  else path.

Section BasefileFromUri.

(** [DocumentRepository.basefile_from_uri], the inherited method, is not
    among the sources; it answers [None] or a string, "the remainder of
    the URI". *)
Variable super_basefile_from_uri : string -> option string.

(** Python's [int] on a string (a builtin, taken as given): the number,
    or the [ValueError] it raises. *)
Variable py_int : string -> Result Z.

(** [DV.basefile_from_uri(uri)].  [cache] is the attribute
    [_basefilemap] ([None] when the instance has no such attribute); the
    result is the answer, the attribute afterwards and the warnings
    logged.  The dictionary is created before the map is read, so it
    stays, half filled, when the reading raises. *)
Definition basefile_from_uri (self : Repo) (uri : string)
    (cache : option (gmap string string)) (w : FS.world)
  : Result pyval * option (gmap string string) * list string :=
  match super_basefile_from_uri uri with
  | None => (Return PNone, cache, [])
  | Some basefile =>
      if String.eqb basefile "" then (Return PNone, cache, [])
      else
        let '(r, m) :=
          match cache with
          | Some m => (Return PNone, m)
          | None => readmapfile_fill self (build_basefilemap self) w ∅
          end in
        match r with
        | Raise e => (Raise e, Some m, [])
        | Return _ =>
            match m !! basefile with
            | Some found => (Return (PStr found), Some m, [])
            | None =>
                match split_max "/"%char 1 basefile with
                | [court; year] =>
                    match py_int (take 4 year) with
                    | Raise e => (Raise e, Some m, [])
                    | Return y =>
                        (Return (PStr (replace_char ":"%char "/"%char basefile)),
                         Some m,
                         if match expected_cases !! court with
                            | None => true
                            | Some expected => (expected <=? y)%Z
                            end
                         then [uri ++ ": Could not find corresponding basefile"]
                         else [])
                    end
                | _ =>
                    (Raise (ValueError
                              "not enough values to unpack (expected 2, got 1)"),
                     Some m, [])
                end
            end
        end
  end.

(** [DV.postprocess_doc(doc)] from its top to the assertion that the
    URI leads back to the basefile: the uri-map section, the
    [delattr(self, "_basefilemap")] that follows an append, and
<<
    computed_basefile = self.basefile_from_uri(doc.uri)
    assert doc.basefile == computed_basefile, "%s -> %s -> %s" % (...)
>>
*)
Definition postprocess_doc_checked (self : Repo) (doc : Document)
    (cache : option (gmap string string)) (w : FS.world)
  : Result unit * option (gmap string string) * FS.world * list string :=
  match readmapfile self (map_append_needed self doc) w with
  | Raise e => (Raise e, cache, w, [])
  | Return append_needed =>
      let appended := negb (bool_decide (append_needed = PBool false)) in
      let w1 := snd (postprocess_doc self doc w) in
      let cache1 := if appended then None else cache in
      let '(r, cache2, warnings) :=
        basefile_from_uri self (uri doc) cache1 w1 in
      match r with
      | Raise e => (Raise e, cache2, w1, warnings)
      | Return computed_basefile =>
          if bool_decide (computed_basefile = PStr (basefile doc))
          then (Return tt, cache2, w1, warnings)
          else (Raise (OtherException "AssertionError"
                         (basefile doc ++ " -> " ++ uri doc ++ " -> "
                          ++ py_str computed_basefile)),
                cache2, w1, warnings)
      end
  end.

End BasefileFromUri.

(** A string without the character [c]. *)
Definition without (c : ascii) (s : string) : Prop :=
  Forall (fun a => a <> c) (list_ascii_of_string s).

End DVMap.

(** ** ferenda.compositerepository: the order of an enumeration *)

Module Enumeration.

(** The elements of [l] in order, each at its first occurrence, without
    those already [seen]. *)
Fixpoint unseen (l : list string) (seen : gset string) : list string :=
  match l with
  | [] => []
  | x :: l' =>
      if decide (x ∈ seen) then unseen l' seen
      else x :: unseen l' ({[x]} ∪ seen)
  end.

End Enumeration.

(** ** ferenda.sources.legal.se.dv: the transitions of [DV.get_parser] *)

Module DVGrammar.

Import DVParser.

(** The constructors that [get_parser] defines. *)
Inductive constructor : Type :=
  | make_body
  | make_delmal
  | make_instans
  | make_betankande
  | make_dom
  | make_domskal
  | make_domslut
  | make_skiljaktig
  | make_tillagg
  | make_endmeta
  | make_heading
  | make_paragraph.

Global Instance constructor_eq_dec : EqDecision constructor.
Proof. solve_decision. Defined.

(** What a transition answers: a constructor or [False], and a new
    state or [None]. *)
Definition answer : Type := option constructor * option string.

(** [transition_domskal(symbol, statestack)] *)
Definition transition_domskal (statestack : list string) : answer :=
  if bool_decide ("betankande" ∈ statestack)
  then (Some make_domskal, Some "domskal")
  else (None, None).

(** The value of an entry of the table: a pair, or the callable
    [transition_domskal]. *)
Inductive action : Type :=
  | Pair (a : answer)
  | Callable (f : list string -> answer).

Definition commonstates : list string :=
  ["body"; "delmal"; "instans"; "dom"; "domskal"; "domslut"; "betankande";
   "skiljaktig"; "tillagg"].

(** An entry [(states, recognizer): action]; the key names one state or
    a tuple of states. *)
Definition entry : Type := list string * recognizer * action.

Definition push (c : constructor) (s : string) : action :=
  Pair (Some c, Some s).
Definition stay (c : constructor) : action := Pair (Some c, None).
(** [(False, None)] *)
Definition pop : action := Pair (None, None).

(** The argument of [p.set_transitions(...)], entry by entry as in the
    source. *)
Definition get_parser_transitions (parseconfig : string) : list entry :=
  if String.eqb parseconfig "simple" then
    [(["body"], is_paragraph, stay make_paragraph)]
  else
    [(["body"], is_delmal, push make_delmal "delmal");
     (["body"], is_instans, push make_instans "instans");
     (["body"], is_endmeta, push make_endmeta "endmeta");
     (["delmal"], is_instans, push make_instans "instans");
     (["delmal"], is_delmal, pop);
     (["delmal"], is_endmeta, pop);
     (["instans"], is_betankande, push make_betankande "betankande");
     (["instans"], is_domslut, push make_domslut "domslut");
     (["instans"], is_dom, push make_dom "dom");
     (["instans"], is_instans, pop);
     (["instans"], is_skiljaktig, push make_skiljaktig "skiljaktig");
     (["instans"], is_tillagg, push make_tillagg "tillagg");
     (["instans"], is_delmal, pop);
     (["instans"], is_endmeta, pop);
     (["betankande"], is_domskal, Callable transition_domskal);
     (["betankande"], is_domslut, push make_domslut "domslut");
     (["betankande"], is_dom, pop);
     (["__done__"], is_domskal, pop);
     (["__done__"], is_skiljaktig, pop);
     (["__done__"], is_tillagg, pop);
     (["__done__"], is_delmal, pop);
     (["__done__"], is_endmeta, pop);
     (["__done__"], is_domslut, push make_domslut "domslut");
     (["dom"], is_domskal, push make_domskal "domskal");
     (["dom"], is_domslut, push make_domslut "domslut");
     (["dom"], is_instans, pop);
     (["dom"], is_skiljaktig, pop);
     (["dom"], is_tillagg, pop);
     (["dom"], is_endmeta, pop);
     (["dom"], is_delmal, pop);
     (["domskal"], is_delmal, pop);
     (["domskal"], is_domslut, pop);
     (["domskal"], is_instans, pop);
     (["domslut"], is_delmal, pop);
     (["domslut"], is_instans, pop);
     (["domslut"], is_domskal, pop);
     (["domslut"], is_skiljaktig, pop);
     (["domslut"], is_tillagg, pop);
     (["domslut"], is_endmeta, pop);
     (["domslut"], is_dom, pop);
     (["skiljaktig"], is_domslut, pop);
     (["skiljaktig"], is_instans, pop);
     (["skiljaktig"], is_skiljaktig, pop);
     (["skiljaktig"], is_tillagg, pop);
     (["skiljaktig"], is_delmal, pop);
     (["skiljaktig"], is_endmeta, pop);
     (["tillagg"], is_tillagg, pop);
     (["tillagg"], is_delmal, pop);
     (["tillagg"], is_endmeta, pop);
     (["endmeta"], is_paragraph, stay make_paragraph);
     (commonstates, is_heading, stay make_heading);
     (commonstates, is_paragraph, stay make_paragraph)].

(** [p.initial_state] *)
Definition initial_state : string := "body".

(** The entries that apply in [state] to [r]. *)
Definition applicable (table : list entry) (state : string) (r : recognizer)
  : list action :=
  map snd
    (List.filter (fun e : entry =>
                    bool_decide (state ∈ e.1.1) && bool_decide (e.1.2 = r))
                 table).

(** What an action answers on a state stack. *)
Definition run_action (a : action) (statestack : list string) : answer :=
  match a with
  | Pair p => p
  | Callable f => f statestack
  end.

(** A state the table can put the parser in: the initial state, or the
    new state that some entry answers on some state stack. *)
Definition leads_to (table : list entry) (state : string) : Prop :=
  state = initial_state
  \/ exists e statestack,
       In e table /\ snd (run_action e.2 statestack) = Some state.

End DVGrammar.

(** ** Concrete repositories

    Small repositories over the file system [FS], on which the theorems
    below are exercised. *)

Module Scenario.

Import Composite.

(** A store laid out under [data/<alias>/], listing [listing] for every
    action, and in need of a parse unless its parsed file is fresh. *)
Definition mkstore (alias : string) (listing : list string)
  : @DocumentStore FS.world :=
  let downloaded := fun b => "data/" ++ alias ++ "/downloaded/" ++ b ++ ".html" in
  let parsed := fun b => "data/" ++ alias ++ "/parsed/" ++ b ++ ".xhtml" in
  {| downloaded_path := downloaded;
     documententry_path := fun b => "data/" ++ alias ++ "/entries/" ++ b ++ ".json";
     distilled_path := fun b => "data/" ++ alias ++ "/distilled/" ++ b ++ ".rdf";
     parsed_path := parsed;
     parsed_attachment_path :=
       fun b a => "data/" ++ alias ++ "/parsed/" ++ b ++ "/" ++ a;
     storage_policy := "file";
     list_attachments := fun _ _ _ => [];
     needed := fun b _ w => negb (FS.outfile_is_newer [downloaded b] (parsed b) w);
     list_basefiles_for := fun _ _ _ => listing |}.

(** A sub-repository whose [parse] always raises [e]. *)
Definition failing (alias : string) (listing : list string) (e : exn)
  : @DocumentRepository FS.world :=
  {| cls := alias;
     qualified_class_name := "repos." ++ alias;
     store := mkstore alias listing;
     repo_parse := fun _ w => (Raise e, w) |}.

(** A sub-repository whose [parse] writes its three artifacts for the
    basefile [named b] and returns [answer b]. *)
Definition parsing (alias : string) (listing : list string)
    (named : string -> string) (answer : string -> pyval)
  : @DocumentRepository FS.world :=
  let st := mkstore alias listing in
  {| cls := alias;
     qualified_class_name := "repos." ++ alias;
     store := st;
     repo_parse := fun b w =>
       (Return (answer b),
        FS.append_line (parsed_path st (named b)) "<html/>"
          (FS.append_line (distilled_path st (named b)) "<rdf/>"
             (FS.append_line (documententry_path st (named b)) "{}" w))) |}.

Definition srcA := failing "A" ["doc1"] (ParseError "A cannot parse this").
Definition srcB := failing "B" ["doc1"] (OtherException "IOError" "disk error").
Definition srcC := parsing "C" ["doc1"] id (fun _ => PBool true).
(** Never asked to list, so known only by its downloaded files. *)
Definition srcD := failing "D" [] (ParseError "D cannot parse this").
(** Finds out that the document is really ["newid"]. *)
Definition srcR := parsing "R" ["oldid"] (fun _ => "newid") (fun _ => PStr "newid").

Definition unset : pyval := PBool false.

Definition cfg (force_ failfast_ : bool) : Config :=
  {| force := PBool force_; parseforce := unset; failfast := PBool failfast_ |}.

(** A composite of [subs], with [bf] as the record of the enumeration. *)
Definition composite (c : Config) (subs : list (@DocumentRepository FS.world))
    (bf : gmap string (gset string)) : @CompositeRepository FS.world :=
  {| config := c;
     subrepos := subs;
     cstore := {| base := mkstore "comp" [];
                  docrepo_instances := subs;
                  basefiles := bf |} |}.

(** A file system holding [paths], written one after the other. *)
Definition disk (paths : list string) : FS.world :=
  fold_left (fun w p => FS.append_line p "..." w) paths (FS.World ∅ 0).

(** The store before any enumeration, and after the enumeration of
    [subs]. *)
Definition enumerated (subs : list (@DocumentRepository FS.world))
  : gmap string (gset string) :=
  basefiles
    (snd (composite_list_basefiles_for
            {| base := mkstore "comp" []; docrepo_instances := subs;
               basefiles := ∅ |} "parse" true (FS.World ∅ 0))).

(** Scenario B of the specification: A and B fail, C parses. *)
Definition abc : @CompositeRepository FS.world :=
  composite (cfg false false) [srcA; srcB; srcC] (enumerated [srcA; srcB; srcC]).
Definition abc_failfast : @CompositeRepository FS.world :=
  composite (cfg false true) [srcA; srcB; srcC] (enumerated [srcA; srcB; srcC]).
Definition abc_disk : FS.world :=
  disk ["data/A/downloaded/doc1.html"; "data/B/downloaded/doc1.html";
        "data/C/downloaded/doc1.html"].

(** Nobody can parse. *)
Definition ab : @CompositeRepository FS.world :=
  composite (cfg false false) [srcA; srcB] (enumerated [srcA; srcB]).
Definition b_failfast : @CompositeRepository FS.world :=
  composite (cfg false true) [srcB] (enumerated [srcB]).
(** A is listed; D is declared as well, but has neither listed nor
    downloaded the document. *)
Definition ad : @CompositeRepository FS.world :=
  composite (cfg false false) [srcA; srcD] (enumerated [srcA; srcD]).

(** Scenario C of the specification: the document is renamed. *)
Definition renaming : @CompositeRepository FS.world :=
  composite (cfg false false) [srcR] (enumerated [srcR]).
Definition renaming_disk : FS.world := disk ["data/R/downloaded/oldid.html"].

(** A composite that has parsed [doc1] from C in an earlier run. *)
Definition only_c : @CompositeRepository FS.world :=
  composite (cfg false false) [srcC] (enumerated [srcC]).
Definition parsed_disk : FS.world :=
  snd (fst (parse (composite (cfg true false) [srcC] (enumerated [srcC]))
                  "doc1" (disk ["data/C/downloaded/doc1.html"]))).

(** A composite that still holds the parsed file of [doc1], which its
    only sub-repository neither lists nor has downloaded any more. *)
Definition orphaned : @CompositeRepository FS.world :=
  composite (cfg false false) [srcD] ∅.
Definition orphaned_disk : FS.world := disk ["data/comp/parsed/doc1.xhtml"].

(** [parse] called for one basefile without an enumeration before it:
    D is tried because its downloaded file is there. *)
Definition unlisted : @CompositeRepository FS.world :=
  composite (cfg false false) [srcD] ∅.
Definition unlisted_disk : FS.world := disk ["data/D/downloaded/doc1.html"].

(** *** The uri map *)

Definition dv (maptype : string) (client : pyval) (pid : nat) : DV.Repo :=
  {| DV.config := {| DV.mapfiletype := maptype; DV.clientname := client |};
     DV.urispace_base := "https://lagen.nu";
     DV.urispace_segment := "rf";
     DV.datadir := "data/dv";
     DV.getpid := pid;
     (** enough of [urlparse] for URIs under [https://lagen.nu] *)
     DV.urlparse_path := DV.drop 16 |}.

(** Two basefiles of the same report (the example in the source). *)
Definition doc_first : DV.Document :=
  {| DV.basefile := "HDO/B883-81_1";
     DV.uri := "https://lagen.nu/rf/nja/1982s350" |}.
Definition doc_second : DV.Document :=
  {| DV.basefile := "HDO/B882-81_1";
     DV.uri := "https://lagen.nu/rf/nja/1982s350" |}.

Definition empty_disk : FS.world := FS.World ∅ 0.

(** One process with the default map file type. *)
Definition dv_apache : DV.Repo := dv "apache" PNone 1.
Definition apache_disk : FS.world :=
  snd (DV.postprocess_doc dv_apache doc_first empty_disk).

(** Two processes of a distributed run. *)
Definition sophie : DV.Repo := dv "nginx" (PStr "sophie") 4435.
Definition anna : DV.Repo := dv "nginx" (PStr "anna") 7.
Definition sophie_disk : FS.world :=
  snd (DV.postprocess_doc sophie doc_first empty_disk).

End Scenario.

(** ** Concrete repositories for download *)

Module DownloadScenario.

Import Composite CompositeDownload.

(** The world of these scenarios: the file system and the level of
    every logger that has one set (the others are at WARNING, 30). *)
Definition world : Type := FS.world * gmap string nat.

Global Instance world_logging : Logging world :=
  {| effective_level := fun lg w => default 30 (w.2 !! lg);
     set_level := fun lg n w => (w.1, <[lg := n]> w.2) |}.

(** A store over the file system, seen in this world. *)
Definition lift_store (st : @DocumentStore FS.world) : @DocumentStore world :=
  {| downloaded_path := downloaded_path st;
     documententry_path := documententry_path st;
     distilled_path := distilled_path st;
     parsed_path := parsed_path st;
     parsed_attachment_path := parsed_attachment_path st;
     storage_policy := storage_policy st;
     list_attachments := fun b k w => list_attachments st b k w.1;
     needed := fun b a w => needed st b a w.1;
     list_basefiles_for := fun a f w => list_basefiles_for st a f w.1 |}.

Definition lift (inst : @DocumentRepository FS.world)
  : @DocumentRepository world :=
  {| cls := cls inst;
     qualified_class_name := qualified_class_name inst;
     store := lift_store (store inst);
     repo_parse := fun b w =>
       let '(r, fs) := repo_parse inst b w.1 in (r, (fs, w.2)) |}.

(** A sub-repository whose [download] fetches [doc1] and answers
    [answer]. *)
Definition fetching (inst : @DocumentRepository FS.world) (answer : pyval)
  : @Subrepo world :=
  {| instance := lift inst;
     alias := cls inst;
     logger := cls inst;
     repo_download := fun _ w =>
       (Return answer,
        (FS.append_line (downloaded_path (store inst) "doc1") "<html/>" w.1,
         w.2)) |}.

(** A sub-repository whose [download] raises [e]. *)
Definition unreachable (inst : @DocumentRepository FS.world) (e : exn)
  : @Subrepo world :=
  {| instance := lift inst;
     alias := cls inst;
     logger := cls inst;
     repo_download := fun _ w => (Raise e, w) |}.

Definition dlA : @Subrepo world :=
  unreachable Scenario.srcA (OtherException "ConnectionError" "timed out").
Definition dlB : @Subrepo world := fetching Scenario.srcB (PBool true).
Definition dlC : @Subrepo world := fetching Scenario.srcC PNone.

Definition abc : @Downloader world :=
  {| dl_subrepos := [dlA; dlB; dlC]; dl_logger := "comp" |}.

(** The composite logs at INFO, and [get_instance] has put the
    sub-repositories one level above. *)
Definition start : world :=
  (FS.World ∅ 0,
   {["comp" := INFO; "A" := INFO + 1; "B" := INFO + 1; "C" := INFO + 1]}).

(** The court cases: [DV.download] with nothing to fetch. *)
Definition dlDV : @Subrepo world :=
  {| instance := lift Scenario.srcD;
     alias := "dv";
     logger := "dv";
     repo_download :=
       DVDownload.as_repo_download
         (fun _ _ _ _ w => (Return PNone, w))
         (fun _ _ w => (Return PNone, w))
         {| DVDownload.refresh := PBool false;
            DVDownload.has_lastdownload := true;
            DVDownload.ftpuser := PNone;
            DVDownload.ftppassword := PNone |} |}.

Definition dv_then_b : @Downloader world :=
  {| dl_subrepos := [dlDV; dlB; dlC]; dl_logger := "comp" |}.

(** Where the exception came from, as [util.location_exception] would
    say it. *)
Definition somewhere (e : exn) : string := "repo.py:42".

End DownloadScenario.

(** ** Concrete settings for the way back from a URI *)

Module DVMapScenario.

Import DV DVMap.

(** One process writing the nginx form of the map. *)
Definition dv_nginx : Repo := Scenario.dv "nginx" PNone 1.

(** The inherited [basefile_from_uri], for URIs under
    [https://lagen.nu/rf/]: what follows the segment. *)
Definition remainder_of (uri : string) : option string := Some (drop 20 uri).

(** Enough of [int] for what the scenarios hand it: a string of ASCII
    digits is its number, anything else a [ValueError]. *)
Fixpoint digits (s : string) (acc : Z) : option Z :=
  match s with
  | EmptyString => Some acc
  | String a s' =>
      let n := nat_of_ascii a in
      if (48 <=? n)%nat && (n <=? 57)%nat
      then digits s' (10 * acc + Z.of_nat (n - 48))%Z
      else None
  end.

Definition int_of_digits (s : string) : Result Z :=
  match s with
  | EmptyString => Raise (ValueError "invalid literal for int()")
  | _ => match digits s 0%Z with
         | Some n => Return n
         | None => Raise (ValueError "invalid literal for int()")
         end
  end.

(** A report from before the cases the repository holds. *)
Definition old_uri : string := "https://lagen.nu/rf/nja/1962s123".
(** A court that [expected_cases] does not list. *)
Definition hfd_uri : string := "https://lagen.nu/rf/hfd/2014:35".

End DVMapScenario.

(** ** A composite before its first enumeration *)

Module EnumerationScenario.

Import Composite Scenario.

(** A, B and C before any enumeration. *)
Definition fresh : @CompositeRepository FS.world :=
  composite (cfg false false) [srcA; srcB; srcC] ∅.

End EnumerationScenario.

(** * Properties of the composite repository *)

Module CompositeFacts.

Import Composite.

Section Facts.

Context {world : Type} `{Util world}.

Implicit Types (self : @CompositeRepository world)
               (inst c : @DocumentRepository world)
               (w : world) (tr : list (@event world)) (b : string).

(** Name the result of a run the goal still inspects. *)
Ltac name_run :=
  match goal with
  | |- context [match ?x with pair _ _ => _ end] =>
      lazymatch x with
      | context [match _ with pair _ _ => _ end] => fail
      | _ =>
          let r := fresh "r" in let w := fresh "w" in let t := fresh "t" in
          destruct x as [[r w] t] eqn:?
      end
  end.

(** ** Traces *)

Lemma calls_app tr1 tr2 : calls (tr1 ++ tr2) = (calls tr1 ++ calls tr2)%list.
Proof.
  induction tr1 as [|ev tr1 IH]; [reflexivity|].
  destruct ev; simpl; rewrite IH; reflexivity.
Qed.

Lemma link_ops_app tr1 tr2 :
  link_ops (tr1 ++ tr2) = (link_ops tr1 ++ link_ops tr2)%list.
Proof.
  induction tr1 as [|ev tr1 IH]; [reflexivity|].
  destruct ev; simpl; rewrite IH; reflexivity.
Qed.

(** ** The loop over the preferred instances *)

Lemma eligible_after self b inst c w :
  keeps_downloads self b ->
  In inst (subrepos self) -> In c (subrepos self) ->
  eligible self b c (snd (repo_parse inst b w)) = eligible self b c w.
Proof.
  intros Hk Hi Hc. unfold eligible. rewrite (Hk inst c w Hi Hc). reflexivity.
Qed.

(** The loop of [parse] is the loop over the instances its generator
    yields. *)
Lemma parse_loop_attempts self b cs : forall r0 i0 w,
  parse_loop self cs b r0 i0 w
  = attempts self (preferred_instances self b cs w) b r0 i0 w.
Proof.
  induction cs as [|c cs IH]; intros r0 i0 w.
  - reflexivity.
  - simpl. unfold bind at 1. unfold ask at 1.
    destruct (eligible self b c w) eqn:E; simpl.
    + unfold bind, try_parse.
      destruct (repo_parse c b w) as [o w1] eqn:P. simpl.
      destruct o as [v|e].
      * destruct (truthy v); [reflexivity|].
        rewrite IH. name_run. reflexivity.
      * destruct (truthy (failfast (config self))); [reflexivity|].
        simpl. rewrite IH. name_run. reflexivity.
    + rewrite IH. name_run. reflexivity.
Qed.

(** When parsing leaves the downloaded files alone, the generator yields
    the sub-repositories that are eligible at the start, in declared
    order. *)
Lemma preferred_instances_static self b :
  keeps_downloads self b ->
  forall cs, incl cs (subrepos self) ->
  forall w,
    preferred_instances self b cs w
    = List.filter (fun c => eligible self b c w) cs.
Proof.
  intros Hk cs. induction cs as [|c cs IH]; intros Hin w.
  - reflexivity.
  - assert (Hc : In c (subrepos self)) by (apply Hin; left; reflexivity).
    assert (Hcs : incl cs (subrepos self))
      by (intros x Hx; apply Hin; right; exact Hx).
    simpl. destruct (eligible self b c w) eqn:E.
    + rewrite (IH Hcs). f_equal.
      apply List.filter_ext_in. intros x Hx. apply eligible_after; auto.
    + apply IH, Hcs.
Qed.

(** One turn of the loop. *)
Lemma attempts_cons self c el b r0 i0 w :
  attempts self (c :: el) b r0 i0 w =
  let '(o, w1) := repo_parse c b w in
  match o with
  | Return v =>
      if truthy v then (Return (v, Some c), w1, [CallParse c b o])
      else
        let '(r, w', tr) := attempts self el b v (Some c) w1 in
        (r, w', CallParse c b o :: tr)
  | Raise e =>
      if truthy (failfast (config self))
      then (Raise e, w1, [CallParse c b o])
      else
        let '(r, w', tr) :=
          attempts self el b (PBool false) (Some c) w1 in
        (r, w', CallParse c b o :: Log DEBUG (swallowed_msg b c e) :: tr)
  end.
Proof.
  simpl. unfold bind, try_parse.
  destruct (repo_parse c b w) as [[v|e] w1].
  - destruct (truthy v); [reflexivity|]. name_run. reflexivity.
  - destruct (truthy (failfast (config self))); [reflexivity|].
    simpl. name_run. reflexivity.
Qed.

(** Case analysis on one turn of the loop. *)
Ltac turn self c b w :=
  rewrite attempts_cons;
  let o := fresh "o" in let w1 := fresh "w" in let v := fresh "v" in
  let e := fresh "e" in let Ev := fresh "Ev" in let Ef := fresh "Ef" in
  destruct (repo_parse c b w) as [[v|e] w1];
  [ destruct (truthy v) eqn:Ev
  | destruct (truthy (failfast (config self))) eqn:Ef ].

(** The instances called are an initial segment of the list. *)
Lemma attempts_prefix self b el : forall r0 i0 w r w' tr,
  attempts self el b r0 i0 w = (r, w', tr) ->
  exists rest, el = (map fst (calls tr) ++ rest)%list.
Proof.
  induction el as [|c el IH]; intros r0 i0 w r w' tr.
  - intros [= <- <- <-]. exists []. reflexivity.
  - turn self c b w.
    + intros [= <- <- <-]. exists el. reflexivity.
    + destruct (attempts self el b v (Some c) w0) as [[r1 w1] t1] eqn:E.
      intros [= <- <- <-]. destruct (IH _ _ _ _ _ _ E) as [rest ->].
      exists rest. reflexivity.
    + intros [= <- <- <-]. exists el. reflexivity.
    + destruct (attempts self el b (PBool false) (Some c) w0)
        as [[r1 w1] t1] eqn:E.
      intros [= <- <- <-]. destruct (IH _ _ _ _ _ _ E) as [rest ->].
      exists rest. reflexivity.
Qed.

(** A call that returns a truthy value is the last one, and the loop
    ends with that value and that instance. *)
Lemma attempts_success_last self b el : forall r0 i0 w r w' tr,
  attempts self el b r0 i0 w = (r, w', tr) ->
  forall i c v,
    calls tr !! i = Some (c, Return v) -> truthy v = true ->
    S i = length (calls tr) /\ r = Return (v, Some c).
Proof.
  induction el as [|c el IH]; intros r0 i0 w r w' tr.
  - intros [= <- <- <-] i c v Hi. discriminate Hi.
  - turn self c b w.
    + intros [= <- <- <-] [|i] c' v' Hi Hv; simpl in Hi.
      * injection Hi as <- <-. split; reflexivity.
      * discriminate Hi.
    + destruct (attempts self el b v (Some c) w0) as [[r1 w1] t1] eqn:E.
      intros [= <- <- <-] [|i] c' v' Hi Hv; simpl in Hi.
      * injection Hi as <- <-. congruence.
      * destruct (IH _ _ _ _ _ _ E _ _ _ Hi Hv) as [Hl Hr].
        simpl. split; congruence.
    + intros [= <- <- <-] [|i] c' v' Hi Hv; simpl in Hi; discriminate Hi.
    + destruct (attempts self el b (PBool false) (Some c) w0)
        as [[r1 w1] t1] eqn:E.
      intros [= <- <- <-] [|i] c' v' Hi Hv; simpl in Hi.
      * discriminate Hi.
      * destruct (IH _ _ _ _ _ _ E _ _ _ Hi Hv) as [Hl Hr].
        simpl. split; congruence.
Qed.

(** With [failfast], a call that raises is the last thing that happens,
    and the loop ends with its exception. *)
Lemma attempts_failfast self b el :
  truthy (failfast (config self)) = true ->
  forall r0 i0 w r w' tr,
  attempts self el b r0 i0 w = (r, w', tr) ->
  forall i c e,
    calls tr !! i = Some (c, Raise e) ->
    S i = length (calls tr) /\ r = Raise e
    /\ last tr = Some (CallParse c b (Raise e)).
Proof.
  intros Hff. induction el as [|c el IH]; intros r0 i0 w r w' tr.
  - intros [= <- <- <-] i c e Hi. discriminate Hi.
  - turn self c b w; try congruence.
    + intros [= <- <- <-] [|i] c' e' Hi; simpl in Hi; discriminate Hi.
    + destruct (attempts self el b v (Some c) w0) as [[r1 w1] t1] eqn:E.
      intros [= <- <- <-] [|i] c' e' Hi; simpl in Hi; [discriminate Hi|].
      destruct (IH _ _ _ _ _ _ E _ _ _ Hi) as (Hl & Hr & Hlast).
      simpl. repeat split; try congruence.
      destruct t1; [discriminate Hlast|exact Hlast].
    + intros [= <- <- <-] [|i] c' e' Hi; simpl in Hi.
      * injection Hi as <- <-. repeat split; reflexivity.
      * discriminate Hi.
Qed.

(** Without [failfast], a call that raises is followed at once by the
    debug line. *)
Lemma attempts_swallowed self b el :
  truthy (failfast (config self)) = false ->
  forall r0 i0 w r w' tr,
  attempts self el b r0 i0 w = (r, w', tr) ->
  forall i c e,
    calls tr !! i = Some (c, Raise e) ->
    exists t1 t2,
      tr = (t1 ++ CallParse c b (Raise e)
              :: Log DEBUG (swallowed_msg b c e) :: t2)%list
      /\ length (calls t1) = i.
Proof.
  intros Hff. induction el as [|c el IH]; intros r0 i0 w r w' tr.
  - intros [= <- <- <-] i c e Hi. discriminate Hi.
  - turn self c b w; try congruence.
    + intros [= <- <- <-] [|i] c' e' Hi; simpl in Hi; discriminate Hi.
    + destruct (attempts self el b v (Some c) w0) as [[r1 w1] t1] eqn:E.
      intros [= <- <- <-] [|i] c' e' Hi; simpl in Hi; [discriminate Hi|].
      destruct (IH _ _ _ _ _ _ E _ _ _ Hi) as (ta & tb & -> & Hl).
      exists (CallParse c b (Return v) :: ta), tb. simpl.
      split; congruence.
    + destruct (attempts self el b (PBool false) (Some c) w0)
        as [[r1 w1] t1] eqn:E.
      intros [= <- <- <-] [|i] c' e' Hi; simpl in Hi.
      * injection Hi as <- <-. exists [], t1. split; reflexivity.
      * destruct (IH _ _ _ _ _ _ E _ _ _ Hi) as (ta & tb & -> & Hl).
        exists (CallParse c b (Raise e)
                  :: Log DEBUG (swallowed_msg b c e) :: ta), tb.
        simpl. split; congruence.
Qed.

(** How the loop ends: every instance was called and none succeeded; or
    the last call succeeded; or, with [failfast], the last call
    raised. *)
Lemma attempts_ending self b el : forall r0 i0 w r w' tr,
  truthy r0 = false ->
  attempts self el b r0 i0 w = (r, w', tr) ->
  (exists v oi, r = Return (v, oi) /\ truthy v = false
                /\ map fst (calls tr) = el)
  \/ (exists c v, r = Return (v, Some c) /\ truthy v = true
                  /\ last (calls tr) = Some (c, Return v))
  \/ (exists c e, truthy (failfast (config self)) = true /\ r = Raise e
                  /\ last (calls tr) = Some (c, Raise e)).
Proof.
  induction el as [|c el IH]; intros r0 i0 w r w' tr Hr0.
  - intros [= <- <- <-]. left. exists r0, i0. auto.
  - turn self c b w.
    + intros [= <- <- <-]. right. left. exists c, v. auto.
    + destruct (attempts self el b v (Some c) w0) as [[r1 w1] t1] eqn:E.
      intros [= <- <- <-].
      destruct (IH _ _ _ _ _ _ Ev E)
        as [(v' & oi & -> & Hv & Hm)|[(c' & v' & -> & Hv & Hl)
            |(c' & e' & Hf & -> & Hl)]].
      * left. exists v', oi. simpl. rewrite Hm. auto.
      * right. left. exists c', v'. simpl.
        destruct (calls t1); [discriminate Hl|auto].
      * right. right. exists c', e'. simpl.
        destruct (calls t1); [discriminate Hl|auto].
    + intros [= <- <- <-]. right. right. exists c, e. auto.
    + destruct (attempts self el b (PBool false) (Some c) w0)
        as [[r1 w1] t1] eqn:E.
      intros [= <- <- <-].
      destruct (IH _ _ _ _ _ _ (eq_refl : truthy (PBool false) = false) E)
        as [(v' & oi & -> & Hv & Hm)|[(c' & v' & -> & Hv & Hl)
            |(c' & e' & Hf & -> & Hl)]].
      * left. exists v', oi. simpl. rewrite Hm. auto.
      * right. left. exists c', v'. simpl.
        destruct (calls t1); [discriminate Hl|auto].
      * right. right. exists c', e'. simpl.
        destruct (calls t1); [discriminate Hl|auto].
Qed.


(** ** Propagation *)

Lemma copy_attachments_run self b inst l : forall cnt w,
  exists w' tr,
    copy_attachments self b inst l cnt w = (Return (cnt + length l), w', tr)
    /\ calls tr = [].
Proof.
  induction l as [|a l IH]; intros cnt w; simpl.
  - exists w, []. rewrite Nat.add_0_r. split; reflexivity.
  - unfold bind at 1. unfold do_link_or_copy, bind, emit, update. simpl.
    destruct (IH (S cnt)
                (link_or_copy
                   (parsed_attachment_path (store inst) b a)
                   (parsed_attachment_path (base (cstore self)) b a) w))
      as (w' & tr & -> & Hc).
    eexists _, _. split.
    + rewrite Nat.add_succ_r. reflexivity.
    + simpl. exact Hc.
Qed.

(** [copy_parsed] always returns, and calls no sub-repository. *)
Lemma copy_parsed_run self b inst w :
  exists w' tr,
    copy_parsed self b inst w = (Return tt, w', tr) /\ calls tr = [].
Proof.
  unfold copy_parsed. unfold bind at 1. unfold ask at 1.
  match goal with |- context [if ?c then _ else _] => destruct c end.
  - eexists _, _. split; reflexivity.
  - unfold do_link_or_copy, bind, emit, update, ask. simpl.
    destruct (String.eqb (storage_policy (store inst)) "dir").
    + match goal with
      | |- context [copy_attachments ?s ?b ?i ?l ?n ?w] =>
          destruct (copy_attachments_run s b i l n w) as (w' & tr & -> & Hc)
      end.
      simpl. destruct (length _); eexists _, _; simpl;
        (split; [reflexivity|]); simpl; rewrite ?calls_app, Hc; reflexivity.
    + eexists _, _. split; reflexivity.
Qed.

(** The loop run of [parse] links nothing itself: what it leaves in the
    trace are the calls and the debug lines. *)
Lemma attempts_no_links self b el : forall r0 i0 w,
  link_ops (snd (attempts self el b r0 i0 w)) = [].
Proof.
  induction el as [|c el IH]; intros r0 i0 w; [reflexivity|].
  rewrite attempts_cons.
  destruct (repo_parse c b w) as [[v|e] w1].
  - destruct (truthy v); [reflexivity|].
    specialize (IH v (Some c) w1).
    destruct (attempts self el b v (Some c) w1) as [[r w'] tr]. exact IH.
  - destruct (truthy (failfast (config self))); [reflexivity|].
    specialize (IH (PBool false) (Some c) w1).
    destruct (attempts self el b (PBool false) (Some c) w1) as [[r w'] tr].
    exact IH.
Qed.

(** The attachment loop links every attachment of the list, in order,
    from the sub-repository's store into the composite's, and the file
    system it leaves is the one it found with these operations
    applied. *)
Lemma copy_attachments_effect self b inst l : forall cnt w r w' tr,
  copy_attachments self b inst l cnt w = (r, w', tr) ->
  link_ops tr
  = map (fun a => (parsed_attachment_path (store inst) b a,
                   parsed_attachment_path (base (cstore self)) b a)) l
  /\ w' = fold_left (fun w0 p => link_or_copy (fst p) (snd p) w0)
            (link_ops tr) w.
Proof.
  induction l as [|a l IH]; intros cnt w r w' tr.
  - intros [= <- <- <-]. split; reflexivity.
  - cbn [copy_attachments]. unfold bind at 1.
    unfold do_link_or_copy, bind, emit, update. cbn [fst snd app].
    destruct (copy_attachments self b inst l (S cnt) _)
      as [[r1 w1] t1] eqn:E.
    intros [= <- <- <-].
    destruct (IH _ _ _ _ _ E) as [IH1 IH2].
    simpl. rewrite IH1. split; [reflexivity|].
    rewrite IH2, IH1. reflexivity.
Qed.

(** What a run of [copy_parsed] does to the file system.  The file
    system it leaves is the one it found with its [link_or_copy]
    operations applied in order; these are none when the freshness
    check succeeds, and otherwise the entry, the distilled file and the
    parsed file of the sub-repository, linked into the composite's
    store under the same basefile, followed by the attachments of the
    parsed file when the sub-repository keeps a directory per
    document. *)
Lemma copy_parsed_effect self b inst w r w' tc :
  copy_parsed self b inst w = (r, w', tc) ->
  let mine := base (cstore self) in
  let theirs := store inst in
  let w3 := link_or_copy (parsed_path theirs b) (parsed_path mine b)
              (link_or_copy (distilled_path theirs b) (distilled_path mine b)
                 (link_or_copy (documententry_path theirs b)
                               (documententry_path mine b) w)) in
  w' = fold_left (fun w0 p => link_or_copy (fst p) (snd p) w0)
         (link_ops tc) w
  /\ link_ops tc
     = if negb (truthy (force (config self)))
          && outfile_is_newer [distilled_path theirs b]
                              (distilled_path mine b) w
          && outfile_is_newer [parsed_path theirs b]
                              (parsed_path mine b) w
       then []
       else ([(documententry_path theirs b, documententry_path mine b);
              (distilled_path theirs b, distilled_path mine b);
              (parsed_path theirs b, parsed_path mine b)]
             ++ (if String.eqb (storage_policy theirs) "dir"
                 then map (fun a => (parsed_attachment_path theirs b a,
                                     parsed_attachment_path mine b a))
                          (list_attachments theirs b "parsed" w3)
                 else []))%list.
Proof.
  intros Hrun mine theirs w3. revert Hrun.
  unfold copy_parsed. fold mine theirs.
  unfold bind at 1. unfold ask at 1.
  match goal with |- context [if ?c then _ else _] => destruct c end.
  - intros [= <- <- <-]. split; reflexivity.
  - unfold do_link_or_copy, bind, emit, update, ask.
    cbn [fst snd app]. fold w3.
    destruct (String.eqb (storage_policy theirs) "dir").
    + destruct (copy_attachments self b inst
                  (list_attachments theirs b "parsed" w3) 0 w3)
        as [[r1 w1] t1] eqn:E.
      destruct (copy_attachments_effect _ _ _ _ _ _ _ _ _ E) as [Hl Hw].
      destruct (copy_attachments_run self b inst
                  (list_attachments theirs b "parsed" w3) 0 w3)
        as (w2 & t2 & Hrun & _).
      rewrite E in Hrun. injection Hrun as -> <- <-.
      fold mine theirs in Hl.
      simpl. destruct (length _); intros [= <- <- <-]; simpl;
        rewrite ?link_ops_app; simpl; rewrite ?app_nil_r, Hl;
        (split; [|reflexivity]); rewrite Hw, Hl; reflexivity.
    + intros [= <- <- <-]. split; reflexivity.
Qed.

(** After a winner that did not rename the document. *)
Lemma parse_success_same self b v inst w :
  truthy v = true -> v = PBool true \/ v = PStr b ->
  parse_success self b v inst w =
  let '(_, w2, tc) := copy_parsed self b inst w in
  (Return v, w2, (tc ++ [LogParseOK b])%list).
Proof.
  intros Hv Hs. unfold parse_success.
  assert (Hren : negb (is_True v) && py_ne_str v b = false).
  { destruct Hs as [-> | ->]; simpl; [reflexivity|].
    rewrite String.eqb_refl. reflexivity. }
  rewrite Hren.
  assert (Hb : match v with PStr s => b | _ => b end = b)
    by (destruct v; reflexivity).
  rewrite Hb, String.eqb_refl. simpl.
  unfold bind, ret, emit. simpl.
  destruct (copy_parsed_run self b inst w) as (w2 & tc & -> & _).
  reflexivity.
Qed.

(** After a winner that returned a new basefile: first the placeholder
    at the old parsed path, then the propagation under the new
    basefile, then the log line, and at the very end the signal. *)
Lemma parse_success_renamed self b s inst w :
  s <> "" -> s <> b ->
  parse_success self b (PStr s) inst w =
  let '(_, w2, tc) :=
    copy_parsed self s inst
                (open_w (parsed_path (base (cstore self)) b) w) in
  (Raise (DocumentRenamedError (PBool true)
            (b ++ ": In subrepo " ++ qualified_class_name inst
             ++ " basefile turned out to really be " ++ s) b s),
   w2, (OpenParsedW b :: tc ++ [LogParseOK s])%list).
Proof.
  intros Hne Hs. unfold parse_success. simpl.
  apply String.eqb_neq in Hs. rewrite Hs. simpl.
  unfold bind, ret, emit, update, raise. simpl.
  destruct (copy_parsed_run self s inst
              (open_w (parsed_path (base (cstore self)) b) w))
    as (w2 & tc & -> & _).
  rewrite Hs. reflexivity.
Qed.

(** What [parse] hands back after a winner, in both cases. *)
Lemma parse_success_run self b v inst w :
  truthy v = true ->
  exists w' tr,
    parse_success self b v inst w = (result_of_success b v inst, w', tr)
    /\ calls tr = [].
Proof.
  intros Hv.
  destruct v as [|[|]|s]; try discriminate Hv.
  - rewrite parse_success_same by auto.
    destruct (copy_parsed_run self b inst w) as (w2 & tc & -> & Hc).
    eexists _, _. split; [reflexivity|]. rewrite calls_app, Hc. reflexivity.
  - simpl in Hv. destruct (String.eqb_spec s b) as [->|Hs].
    + rewrite parse_success_same by auto.
      destruct (copy_parsed_run self b inst w) as (w2 & tc & -> & Hc).
      eexists _, _. simpl. rewrite String.eqb_refl.
      split; [reflexivity|]. rewrite calls_app, Hc. reflexivity.
    + destruct (String.eqb_spec s "") as [->|Hne]; [discriminate Hv|].
      rewrite parse_success_renamed by assumption.
      match goal with
      | |- context [copy_parsed ?a ?b ?c ?d] =>
          destruct (copy_parsed_run a b c d) as (w2 & tc & -> & Hc)
      end.
      eexists _, _. simpl.
      apply String.eqb_neq in Hs. rewrite Hs.
      split; [reflexivity|]. simpl. rewrite calls_app, Hc. reflexivity.
Qed.

(** ** The whole of [parse] *)

Lemma parse_unfold self b w :
  parse self b w =
  if skipped self b w
  then (Return (PBool true), w, [Log DEBUG (b ++ ": Skipped")])
  else
    match parse_loop self (subrepos self) b (PBool false) None w with
    | (Return (v, oi), w1, t1) =>
        if truthy v then
          match oi with
          | Some inst =>
              let '(r, w2, t2) := parse_success self b v inst w1 in
              (r, w2, (t1 ++ t2)%list)
          | None => (Raise (UnboundLocalError "inst"), w1, t1)
          end
        else
          (Raise (ParseError
                    (parse_error_msg self b (subrepos_lbl self b))),
           w1, t1)
    | (Raise e, w1, t1) => (Raise e, w1, t1)
    end.
Proof.
  unfold parse, skipped. unfold bind at 1. unfold ask at 1.
  destruct (negb _ && skip_check self (subrepos self) b w); simpl.
  - reflexivity.
  - unfold bind.
    destruct (parse_loop self (subrepos self) b (PBool false) None w)
      as [[[[v oi]|e] w1] t1]; [|reflexivity].
    destruct (truthy v).
    + destruct oi as [inst|].
      * destruct (parse_success self b v inst w1) as [[r w2] t2].
        reflexivity.
      * unfold raise. rewrite app_nil_r. reflexivity.
    + unfold parse_error_msg.
      destruct (negb (String.eqb (subrepos_lbl self b) ""));
        unfold raise; rewrite app_nil_r; reflexivity.
Qed.


(** The calls of a whole run of [parse] are those of its loop, and the
    loop is the loop over the preferred instances. *)
Lemma parse_run self b w r w' tr :
  parse self b w = (r, w', tr) ->
  (skipped self b w = true /\ r = Return (PBool true) /\ w' = w
   /\ tr = [Log DEBUG (b ++ ": Skipped")])
  \/ (skipped self b w = false /\
      exists r1 w1 t1 t2,
        attempts self (preferred_instances self b (subrepos self) w) b
                 (PBool false) None w
        = (r1, w1, t1)
        /\ tr = (t1 ++ t2)%list /\ calls t2 = []
        /\ match r1 with
           | Return (v, oi) =>
               if truthy v then
                 exists inst, oi = Some inst
                   /\ r = result_of_success b v inst
                   /\ fst (parse_success self b v inst w1) = (r, w')
                   /\ snd (parse_success self b v inst w1) = t2
               else
                 r = Raise (ParseError
                              (parse_error_msg self b (subrepos_lbl self b)))
                 /\ w' = w1 /\ t2 = []
           | Raise e => r = Raise e /\ w' = w1 /\ t2 = []
           end).
Proof.
  rewrite parse_unfold.
  destruct (skipped self b w) eqn:Hs.
  - intros [= <- <- <-]. left. auto.
  - rewrite parse_loop_attempts.
    destruct (attempts self (preferred_instances self b (subrepos self) w)
                b (PBool false) None w) as [[r1 w1] t1] eqn:E.
    intros Hp. right. split; [reflexivity|].
    destruct r1 as [[v oi]|e].
    + destruct (truthy v) eqn:Hv.
      * destruct (attempts_ending self b _ (PBool false) _ _ _ _ _ eq_refl E)
          as [(v' & oi' & [= <- <-] & Hv' & _)
             |[(c & v' & [= <- ->] & _ & _)|(c & e & _ & [=] & _)]];
          [congruence|].
        destruct (parse_success_run self b v c w1 Hv)
          as (w2 & t2 & Hps & Hc).
        rewrite Hps in Hp. injection Hp as <- <- <-.
        exists (Return (v, Some c)), w1, t1, t2.
        rewrite Hv. repeat split; try assumption.
        exists c. rewrite Hps. auto.
      * injection Hp as <- <- <-.
        exists (Return (v, oi)), w1, t1, [].
        rewrite Hv, app_nil_r. repeat split; assumption || reflexivity.
    + injection Hp as <- <- <-.
      exists (Raise e), w1, t1, []. rewrite app_nil_r.
      repeat split; assumption || reflexivity.
Qed.

(** ** Fallback order *)

(** C1.  [parse] calls the eligible sub-repositories in declared order
    and none other: the instances called are an initial segment of the
    instances that [get_preferred_instances] yields (the sub-repositories
    that listed the basefile during the enumeration or whose downloaded
    file exists; in declared order, eligibility at the start, as long as
    parsing leaves the downloaded files alone).  A call that returns a
    truthy value is the last call of the run, so nothing is invoked
    after the first success, every earlier call failed, and what [parse]
    hands back is decided by that value.  The run stops short of the
    end of the list only at a success, at an exception under
    [failfast], or when the freshness short-circuit skipped the loop
    altogether. *)
Theorem parse_fallback_order self b w r w' tr :
  parse self b w = (r, w', tr) ->
  (keeps_downloads self b ->
     preferred_instances self b (subrepos self) w
     = List.filter (fun c => eligible self b c w) (subrepos self))
  /\ (exists rest,
        preferred_instances self b (subrepos self) w
        = (map fst (calls tr) ++ rest)%list)
  /\ (forall i c v,
        calls tr !! i = Some (c, Return v) -> truthy v = true ->
        S i = length (calls tr) /\ r = result_of_success b v c)
  /\ (forall i c o,
        calls tr !! i = Some (c, o) -> S i < length (calls tr) ->
        succeeded o = false)
  /\ (skipped self b w = true
      \/ (exists c v, last (calls tr) = Some (c, Return v)
                      /\ truthy v = true)
      \/ (exists c e, truthy (failfast (config self)) = true
                      /\ last (calls tr) = Some (c, Raise e)
                      /\ r = Raise e)
      \/ map fst (calls tr)
         = preferred_instances self b (subrepos self) w).
Proof.
  intros Hp.
  assert (Hlast :
    forall i c v, calls tr !! i = Some (c, Return v) -> truthy v = true ->
                  S i = length (calls tr) /\ r = result_of_success b v c).
  { destruct (parse_run _ _ _ _ _ _ Hp)
      as [(_ & _ & _ & ->)|(_ & r1 & w1 & t1 & t2 & E & -> & Hc & Hr)].
    - intros i c v Hi. discriminate Hi.
    - rewrite calls_app, Hc, app_nil_r. intros i c v Hi Hv.
      destruct (attempts_success_last _ _ _ _ _ _ _ _ _ E _ _ _ Hi Hv)
        as [Hl ->].
      split; [exact Hl|]. rewrite Hv in Hr.
      destruct Hr as (inst & [= <-] & -> & _). reflexivity. }
  split; [|split; [|split; [exact Hlast|split]]].
  - intros Hk. apply preferred_instances_static; [exact Hk|apply incl_refl].
  - destruct (parse_run _ _ _ _ _ _ Hp)
      as [(_ & _ & _ & ->)|(_ & r1 & w1 & t1 & t2 & E & -> & Hc & _)].
    + eexists. reflexivity.
    + rewrite calls_app, Hc, app_nil_r.
      exact (attempts_prefix _ _ _ _ _ _ _ _ _ E).
  - intros i c o Hi Hlt. destruct o as [v|e]; [|reflexivity].
    simpl. destruct (truthy v) eqn:Hv; [|reflexivity].
    destruct (Hlast _ _ _ Hi Hv) as [Hl _]. lia.
  - destruct (parse_run _ _ _ _ _ _ Hp)
      as [(Hs & _)|(_ & r1 & w1 & t1 & t2 & E & -> & Hc & Hr)];
      [left; exact Hs|right].
    rewrite calls_app, Hc, app_nil_r.
    destruct (attempts_ending self b _ (PBool false) _ _ _ _ _ eq_refl E)
      as [(v & oi & -> & Hv & Hm)|[(c & v & -> & Hv & Hl)
         |(c & e & Hf & -> & Hl)]].
    + right. right. exact Hm.
    + left. exists c, v. auto.
    + right. left. exists c, e. destruct Hr as (-> & _). auto.
Qed.


(** ** Exceptions of sub-repositories *)

Lemma lookup_map_fst {A B} (l : list (A * B)) i x :
  map fst l !! i = Some x -> i < length l.
Proof.
  revert i. induction l as [|y l IH]; intros [|i] Hi; simpl in *;
    try discriminate; [lia|]. apply IH in Hi. lia.
Qed.

Lemma lookup_map_fst_inv {A B} (l : list (A * B)) i :
  i < length l ->
  exists a o, l !! i = Some (a, o) /\ map fst l !! i = Some a.
Proof.
  revert i. induction l as [|[a o] l IH]; intros [|i] Hi; simpl in *;
    try lia.
  - exists a, o. split; reflexivity.
  - apply IH. lia.
Qed.

Lemma last_lookup_neq {A} (l : list A) i x y :
  l !! i = Some x -> last l = Some y -> x <> y -> S i < length l.
Proof.
  revert i. induction l as [|z l IH]; intros i Hi Hl Hne; [discriminate Hi|].
  destruct i as [|i]; simpl in *.
  - injection Hi as ->. destruct l; [simpl in Hl; congruence|simpl; lia].
  - destruct l as [|z' l]; [discriminate Hi|].
    specialize (IH i Hi Hl Hne). simpl in *. lia.
Qed.

(** C2.  With [failfast] set, an exception raised by the [parse] of a
    sub-repository ends the run on the spot: the raising call is the
    last call and the last action, and [parse] raises that very
    exception.  With [failfast] unset, the exception is swallowed: the
    raising call is followed at once by the debug line, and if the
    generator has a further instance to yield, that instance is called
    next. *)
Theorem parse_failfast_toggle self b w r w' tr :
  parse self b w = (r, w', tr) ->
  (truthy (failfast (config self)) = true ->
     forall i c e,
       calls tr !! i = Some (c, Raise e) ->
       S i = length (calls tr) /\ r = Raise e
       /\ last tr = Some (CallParse c b (Raise e)))
  /\ (truthy (failfast (config self)) = false ->
        forall i c e,
          calls tr !! i = Some (c, Raise e) ->
          (exists t1 t2,
              tr = (t1 ++ CallParse c b (Raise e)
                      :: Log DEBUG (swallowed_msg b c e) :: t2)%list
              /\ length (calls t1) = i)
          /\ (forall c',
                preferred_instances self b (subrepos self) w !! S i
                = Some c' ->
                exists o, calls tr !! S i = Some (c', o))).
Proof.
  intros Hp.
  destruct (parse_run _ _ _ _ _ _ Hp)
    as [(_ & _ & _ & ->)|(_ & r1 & w1 & t1 & t2 & E & -> & Hc & Hr)].
  { split; intros _ i c e Hi; discriminate Hi. }
  rewrite calls_app, Hc, app_nil_r. split; intros Hff i c e Hi.
  - destruct (attempts_failfast _ _ _ Hff _ _ _ _ _ _ E _ _ _ Hi)
      as (Hl & -> & Hlast).
    destruct Hr as (-> & _ & ->). rewrite app_nil_r. auto.
  - split.
    + destruct (attempts_swallowed _ _ _ Hff _ _ _ _ _ _ E _ _ _ Hi)
        as (ta & tb & -> & Hl).
      exists ta, (tb ++ t2)%list. split; [|exact Hl].
      rewrite <- app_assoc. reflexivity.
    + intros c' Hc'.
      destruct (attempts_prefix _ _ _ _ _ _ _ _ _ E) as [rest Hpre].
      assert (Hlen : S i < length (calls t1)).
      { destruct (attempts_ending self b _ (PBool false) _ _ _ _ _
                    eq_refl E)
          as [(v & oi & _ & _ & Hm)|[(c0 & v & _ & _ & Hl)
             |(c0 & e0 & Hf & _)]].
        - rewrite <- Hm in Hc'. exact (lookup_map_fst _ _ _ Hc').
        - apply (last_lookup_neq _ _ _ _ Hi Hl). congruence.
        - congruence. }
      destruct (lookup_map_fst_inv _ _ Hlen) as (a & o & Ho & Hm).
      exists o. rewrite Ho. f_equal. f_equal.
      rewrite Hpre in Hc'.
      rewrite lookup_app_l in Hc' by (rewrite length_map; exact Hlen).
      congruence.
Qed.


(** ** The freshness short-circuit *)

Lemma skip_check_true self b w cs inst :
  In inst cs ->
  needed (store inst) b "parse" w = false ->
  path_exists (parsed_path (base (cstore self)) b) w = true ->
  skip_check self cs b w = true.
Proof.
  intros Hin Hn Hp. induction cs as [|c cs IH]; [destruct Hin|].
  simpl. rewrite Hp, andb_true_r.
  destruct Hin as [->|Hin].
  - rewrite Hn. reflexivity.
  - destruct (needed (store c) b "parse" w); simpl; auto.
Qed.

(** The short-circuit as the code has it.  When neither [config.force]
    nor [config.parseforce] is [True], one declared sub-repository,
    eligible or not, that reports that no parse is needed is enough, if
    the composite has the parsed file: [parse] returns [True] and all it
    does is write the debug line. *)
Theorem parse_skip self b w inst :
  is_True (force (config self)) = false ->
  is_True (parseforce (config self)) = false ->
  In inst (subrepos self) ->
  needed (store inst) b "parse" w = false ->
  path_exists (parsed_path (base (cstore self)) b) w = true ->
  parse self b w
  = (Return (PBool true), w, [Log DEBUG (b ++ ": Skipped")]).
Proof.
  intros Hf Hpf Hin Hn Hp. rewrite parse_unfold. unfold skipped.
  rewrite Hf, Hpf, (skip_check_true self b w _ inst Hin Hn Hp).
  reflexivity.
Qed.

(** C3, amended.  When neither [config.force] nor [config.parseforce] is
    [True], at least one sub-repository is eligible, no eligible
    sub-repository reports that a parse is needed, and the composite
    has a parsed file for the basefile, then [parse] returns [True]
    without calling the [parse] of any sub-repository and without
    touching the file system. *)
Theorem parse_skips_when_fresh self b w :
  is_True (force (config self)) = false ->
  is_True (parseforce (config self)) = false ->
  (exists inst, In inst (subrepos self) /\ eligible self b inst w = true) ->
  (forall inst, In inst (subrepos self) -> eligible self b inst w = true ->
                needed (store inst) b "parse" w = false) ->
  path_exists (parsed_path (base (cstore self)) b) w = true ->
  exists tr,
    parse self b w = (Return (PBool true), w, tr)
    /\ calls tr = [] /\ link_ops tr = [].
Proof.
  intros Hf Hpf (inst & Hin & He) Hall Hp.
  exists [Log DEBUG (b ++ ": Skipped")]. split; [|split; reflexivity].
  rewrite parse_unfold. unfold skipped.
  rewrite Hf, Hpf, (skip_check_true self b w _ inst Hin (Hall _ Hin He) Hp).
  reflexivity.
Qed.

(** ** Renamed documents *)

(** A loop that ends with a truthy value ends with the call that
    returned it. *)
Lemma attempts_success_trace self b el : forall r0 i0 w v oi w' tr,
  truthy r0 = false ->
  attempts self el b r0 i0 w = (Return (v, oi), w', tr) ->
  truthy v = true ->
  exists c, oi = Some c /\ last tr = Some (CallParse c b (Return v)).
Proof.
  induction el as [|c el IH]; intros r0 i0 w v' oi w' tr Hr0.
  - intros [= <- <- <- <-] Hv. congruence.
  - turn self c b w.
    + intros [= <- <- <- <-] _. exists c. auto.
    + destruct (attempts self el b v (Some c) w0) as [[r1 w1] t1] eqn:E.
      intros [= -> <- <-] Hv.
      destruct (IH _ _ _ _ _ _ _ Ev E Hv) as (c' & -> & Hl).
      exists c'. split; [reflexivity|].
      destruct t1; [discriminate Hl|exact Hl].
    + intros [=].
    + destruct (attempts self el b (PBool false) (Some c) w0)
        as [[r1 w1] t1] eqn:E.
      intros [= -> <- <-] Hv.
      destruct (IH (PBool false) _ _ _ _ _ _ eq_refl E Hv) as (c' & -> & Hl).
      exists c'. split; [reflexivity|].
      destruct t1; [discriminate Hl|exact Hl].
Qed.

(** C4.  When the winning sub-repository [c] returns a basefile [s]
    other than the one asked for, the run of [parse] is: the loop,
    ending with the call of [c]; the empty placeholder written at the
    parsed path of the old basefile; the run of [copy_parsed] for the
    new basefile and [c], in the file system with the placeholder; the
    "parse OK" line; and only then the [DocumentRenamedError], which
    carries the old and the new basefile.  The [link_or_copy]
    operations of the whole run are those of that [copy_parsed], and
    the file system [parse] leaves is the one with the placeholder
    after these operations, in order.  Unless the freshness check of
    [copy_parsed] finds the composite's distilled and parsed files of
    the new basefile up to date already, they are: the entry, the
    distilled file and the parsed file of [c] under the new basefile,
    each linked to the composite's path for the new basefile, and then
    the attachments of that parsed file if [c] keeps a directory per
    document. *)
Theorem parse_rename self b w r w' tr c s :
  parse self b w = (r, w', tr) ->
  In (c, Return (PStr s)) (calls tr) -> s <> "" -> s <> b ->
  r = Raise (DocumentRenamedError (PBool true)
               (b ++ ": In subrepo " ++ qualified_class_name c
                ++ " basefile turned out to really be " ++ s) b s)
  /\ exists t1 w1 tc,
       parse_loop self (subrepos self) b (PBool false) None w
       = (Return (PStr s, Some c), w1, t1)
       /\ last t1 = Some (CallParse c b (Return (PStr s)))
       /\ copy_parsed self s c
            (open_w (parsed_path (base (cstore self)) b) w1)
          = (Return tt, w', tc)
       /\ tr = (t1 ++ OpenParsedW b :: tc ++ [LogParseOK s])%list
       /\ link_ops tr = link_ops tc
       /\ let mine := base (cstore self) in
          let theirs := store c in
          let w0 := open_w (parsed_path mine b) w1 in
          let w3 := link_or_copy (parsed_path theirs s) (parsed_path mine s)
                      (link_or_copy (distilled_path theirs s)
                                    (distilled_path mine s)
                         (link_or_copy (documententry_path theirs s)
                                       (documententry_path mine s) w0)) in
          w' = fold_left (fun w2 p => link_or_copy (fst p) (snd p) w2)
                 (link_ops tc) w0
          /\ link_ops tc
             = if negb (truthy (force (config self)))
                  && outfile_is_newer [distilled_path theirs s]
                                      (distilled_path mine s) w0
                  && outfile_is_newer [parsed_path theirs s]
                                      (parsed_path mine s) w0
               then []
               else ([(documententry_path theirs s,
                       documententry_path mine s);
                      (distilled_path theirs s, distilled_path mine s);
                      (parsed_path theirs s, parsed_path mine s)]
                     ++ (if String.eqb (storage_policy theirs) "dir"
                         then map (fun a =>
                                     (parsed_attachment_path theirs s a,
                                      parsed_attachment_path mine s a))
                                  (list_attachments theirs s "parsed" w3)
                         else []))%list.
Proof.
  intros Hp Hin Hne Hs.
  assert (Hv : truthy (PStr s) = true).
  { simpl. apply negb_true_iff, String.eqb_neq, Hne. }
  destruct (parse_run _ _ _ _ _ _ Hp)
    as [(_ & _ & _ & ->)|(_ & r1 & w1 & t1 & t2 & E & -> & Hc & Hr)];
    [destruct Hin|].
  rewrite calls_app, Hc, app_nil_r in Hin.
  apply list_elem_of_In, list_elem_of_lookup in Hin. destruct Hin as [i Hi].
  destruct (attempts_success_last _ _ _ _ _ _ _ _ _ E _ _ _ Hi Hv)
    as [_ ->].
  rewrite Hv in Hr. destruct Hr as (inst & [= <-] & -> & Hps & Ht2).
  destruct (attempts_success_trace self b _ (PBool false) _ _ _ _ _ _ eq_refl E Hv)
    as (c' & [= <-] & Hl).
  rewrite (parse_success_renamed _ _ _ _ _ Hne Hs) in Hps, Ht2.
  destruct (copy_parsed_run self s c
              (open_w (parsed_path (base (cstore self)) b) w1))
    as (w2 & tc & Hcp & _).
  rewrite Hcp in Hps, Ht2. simpl in Hps, Ht2.
  injection Hps as Hr Hw. subst w2 t2.
  split.
  - simpl. apply String.eqb_neq in Hs. rewrite Hs. reflexivity.
  - exists t1, w1, tc. rewrite parse_loop_attempts.
    pose proof (attempts_no_links self b
                  (preferred_instances self b (subrepos self) w)
                  (PBool false) None w) as Hnl.
    rewrite E in Hnl. simpl in Hnl.
    repeat (split; [solve [auto]|]). split.
    + rewrite link_ops_app, Hnl. simpl.
      rewrite link_ops_app, app_nil_r. reflexivity.
    + exact (copy_parsed_effect _ _ _ _ _ _ _ Hcp).
Qed.

(** ** Idempotent propagation *)

(** C6.  With [config.force] unset, when the freshness check finds the
    composite's distilled and parsed files no older than those of the
    winning sub-repository, a run of [copy_parsed] performs no
    [link_or_copy] at all: it writes the debug line and leaves the file
    system as it found it. *)
Theorem copy_parsed_fresh self b inst w :
  truthy (force (config self)) = false ->
  outfile_is_newer [distilled_path (store inst) b]
                   (distilled_path (base (cstore self)) b) w = true ->
  outfile_is_newer [parsed_path (store inst) b]
                   (parsed_path (base (cstore self)) b) w = true ->
  exists tr,
    copy_parsed self b inst w = (Return tt, w, tr)
    /\ link_ops tr = []
    /\ tr = [Log DEBUG (b ++ ": Attachments are (likely) up-to-date")].
Proof.
  intros Hf Hd Hp. eexists. unfold copy_parsed, bind, ask.
  rewrite Hf, Hd, Hp. simpl. repeat split; reflexivity.
Qed.


Lemma copy_attachments_links self b inst l : forall cnt w,
  link_ops (snd (copy_attachments self b inst l cnt w))
  = map (fun a => (parsed_attachment_path (store inst) b a,
                   parsed_attachment_path (base (cstore self)) b a)) l.
Proof.
  induction l as [|a l IH]; intros cnt w; [reflexivity|].
  cbn [copy_attachments]. unfold bind at 1.
  unfold do_link_or_copy, bind, emit, update. cbn [fst snd app].
  specialize (IH (S cnt)
                (link_or_copy
                   (parsed_attachment_path (store inst) b a)
                   (parsed_attachment_path (base (cstore self)) b a) w)).
  destruct (copy_attachments self b inst l (S cnt) _) as [[r w'] tr].
  simpl in *. rewrite IH. reflexivity.
Qed.

(** When the freshness check does not cut it short, [copy_parsed] links
    or copies, in this order, the entry, the distilled file and the parsed
    file of the winning sub-repository into the composite's store, and,
    only if that sub-repository stores a directory per document, every
    attachment of the parsed file. *)
Theorem copy_parsed_links self b inst w :
  truthy (force (config self)) = true
  \/ outfile_is_newer [distilled_path (store inst) b]
                      (distilled_path (base (cstore self)) b) w = false
  \/ outfile_is_newer [parsed_path (store inst) b]
                      (parsed_path (base (cstore self)) b) w = false ->
  let mine := base (cstore self) in
  let theirs := store inst in
  let w3 := link_or_copy (parsed_path theirs b) (parsed_path mine b)
              (link_or_copy (distilled_path theirs b) (distilled_path mine b)
                 (link_or_copy (documententry_path theirs b)
                               (documententry_path mine b) w)) in
  link_ops (snd (copy_parsed self b inst w))
  = ([(documententry_path theirs b, documententry_path mine b);
      (distilled_path theirs b, distilled_path mine b);
      (parsed_path theirs b, parsed_path mine b)]
     ++ (if String.eqb (storage_policy theirs) "dir"
         then map (fun a => (parsed_attachment_path theirs b a,
                             parsed_attachment_path mine b a))
                  (list_attachments theirs b "parsed" w3)
         else []))%list.
Proof.
  intros Hstale mine theirs w3.
  unfold copy_parsed. unfold bind at 1. unfold ask at 1.
  assert (Hf : negb (truthy (force (config self)))
               && outfile_is_newer [distilled_path (store inst) b]
                    (distilled_path (base (cstore self)) b) w
               && outfile_is_newer [parsed_path (store inst) b]
                    (parsed_path (base (cstore self)) b) w = false).
  { destruct Hstale as [->|[->| ->]]; [reflexivity| |];
      rewrite ?andb_false_r; reflexivity. }
  rewrite Hf. unfold do_link_or_copy, bind, emit, update, ask.
  cbn [fst snd app]. fold mine theirs. fold w3.
  destruct (String.eqb (storage_policy theirs) "dir").
  - pose proof (copy_attachments_links self b inst
                  (list_attachments theirs b "parsed" w3) 0 w3) as Hl.
    destruct (copy_attachments_run self b inst
                (list_attachments theirs b "parsed" w3) 0 w3)
      as (w' & tr & Hrun & _).
    rewrite Hrun in *. simpl in Hl. simpl.
    destruct (length _); simpl; rewrite ?link_ops_app, Hl; simpl;
      rewrite ?app_nil_r; reflexivity.
  - reflexivity.
Qed.

(** ** No sub-repository succeeds *)

Lemma preferred_instances_incl self b cs : forall w c,
  In c (preferred_instances self b cs w) -> In c cs.
Proof.
  induction cs as [|c0 cs IH]; intros w c; simpl; [tauto|].
  destruct (eligible self b c0 w).
  - intros [->|Hin]; [left; reflexivity|right; eapply IH, Hin].
  - intros Hin. right. eapply IH, Hin.
Qed.

(** Every call of the loop is a call of one of its instances, with the
    outcome that instance's [parse] gives. *)
Lemma attempts_calls_sound self b el : forall r0 i0 w r w' tr,
  attempts self el b r0 i0 w = (r, w', tr) ->
  forall c o, In (c, o) (calls tr) ->
    In c el /\ exists w0, o = fst (repo_parse c b w0).
Proof.
  induction el as [|c el IH]; intros r0 i0 w r w' tr.
  - intros [= <- <- <-] c o [].
  - rewrite attempts_cons.
    destruct (repo_parse c b w) as [o1 w1] eqn:P.
    assert (Hhead : forall c' o', (c, o1) = (c', o') ->
              In c' (c :: el) /\ exists w0, o' = fst (repo_parse c' b w0)).
    { intros c' o' [= <- <-]. split; [left; reflexivity|].
      exists w. rewrite P. reflexivity. }
    destruct o1 as [v|e].
    + destruct (truthy v).
      * intros [= <- <- <-] c' o' [Heq|[]]. auto.
      * destruct (attempts self el b v (Some c) w1) as [[r1 w2] t1] eqn:E.
        intros [= <- <- <-] c' o' [Heq|Hin]; [auto|].
        destruct (IH _ _ _ _ _ _ E _ _ Hin) as [Hc Ho].
        split; [right; exact Hc|exact Ho].
    + destruct (truthy (failfast (config self))).
      * intros [= <- <- <-] c' o' [Heq|[]]. auto.
      * destruct (attempts self el b (PBool false) (Some c) w1)
          as [[r1 w2] t1] eqn:E.
        intros [= <- <- <-] c' o' [Heq|Hin]; [auto|].
        destruct (IH _ _ _ _ _ _ E _ _ Hin) as [Hc Ho].
        split; [right; exact Hc|exact Ho].
Qed.

(** When the sub-repositories the generator yields are all listed, it
    yields exactly the sub-repositories that the label of the final
    error names; the others may be declared or not, they are not
    listed. *)
Lemma preferred_instances_yielded_listed self b cs : forall w,
  (forall inst, In inst (preferred_instances self b cs w) ->
                listed self b inst = true) ->
  preferred_instances self b cs w = List.filter (listed self b) cs.
Proof.
  induction cs as [|c cs IH]; intros w Hl; [reflexivity|].
  simpl in *. destruct (eligible self b c w) eqn:E.
  - rewrite (Hl c (or_introl eq_refl)). f_equal.
    apply IH. intros inst Hin. apply Hl. right. exact Hin.
  - unfold eligible in E. apply orb_false_iff in E as [-> _].
    apply IH, Hl.
Qed.

(** C5, amended.  With [failfast] unset and the freshness short-circuit
    not firing, if no call of a sub-repository's [parse] succeeds, then
    every instance the generator yields has been called, and [parse]
    raises [ParseError].  When moreover every eligible sub-repository
    (every one the generator yields) was recorded as listing the
    basefile, the label of the message is the list of the qualified
    class names of the sub-repositories that were called, in the order
    of the calls.  Nothing is asked of the sub-repositories that are not
    eligible. *)
Theorem parse_error_names_attempted self b w r w' tr :
  truthy (failfast (config self)) = false ->
  skipped self b w = false ->
  parse self b w = (r, w', tr) ->
  (forall c o, In (c, o) (calls tr) -> succeeded o = false) ->
  r = Raise (ParseError (parse_error_msg self b (subrepos_lbl self b)))
  /\ map fst (calls tr) = preferred_instances self b (subrepos self) w
  /\ ((forall inst,
         In inst (preferred_instances self b (subrepos self) w) ->
         listed self b inst = true) ->
      subrepos_lbl self b
      = join ", " (map qualified_class_name (map fst (calls tr)))).
Proof.
  intros Hff Hsk Hp Hfail.
  destruct (parse_run _ _ _ _ _ _ Hp)
    as [(Hs & _)|(_ & r1 & w1 & t1 & t2 & E & -> & Hc & Hr)];
    [congruence|].
  rewrite calls_app, Hc, app_nil_r in Hfail.
  assert (Hnone : forall c v, In (c, Return v) (calls t1) ->
                              truthy v = false)
    by (intros c v Hin; exact (Hfail _ _ Hin)).
  rewrite calls_app, Hc, app_nil_r.
  destruct (attempts_ending self b _ (PBool false) _ _ _ _ _ eq_refl E)
    as [(v & oi & -> & Hv & Hm)|[(c & v & _ & Hv & Hl)
       |(c & e & Hf & _)]].
  - rewrite Hv in Hr. destruct Hr as (-> & _ & ->).
    split; [reflexivity|split; [exact Hm|]].
    intros Hlisted. unfold subrepos_lbl.
    rewrite Hm, (preferred_instances_yielded_listed self b _ _ Hlisted).
    reflexivity.
  - assert (Hin : In (c, Return v) (calls t1)).
    { apply list_elem_of_In. rewrite last_lookup in Hl.
      eapply list_elem_of_lookup_2, Hl. }
    rewrite (Hnone _ _ Hin) in Hv. discriminate Hv.
  - congruence.
Qed.


(** ** Enumeration *)

(** The inner loop: the basefiles yielded are the new ones, each once;
    all of the listing is recorded under the class. *)
Lemma list_one_spec (k : string) (l : list string) :
  forall (bf : gmap string (gset string)) (docs : gset string) ys bf' docs',
  list_one k l bf docs = (ys, bf', docs') ->
  docs' = docs ∪ list_to_set l
  /\ NoDup ys
  /\ (forall x, x ∈ ys <-> x ∈ l /\ x ∉ docs)
  /\ (forall k', bf' !!! k'
                 = if decide (k' = k) then bf !!! k ∪ list_to_set l
                   else bf !!! k').
Proof.
  induction l as [|x0 l IH]; intros bf docs ys bf' docs'; simpl.
  - intros [= <- <- <-]. split; [set_solver|]. split; [constructor|].
    split.
    + intros x. split; [intros Hx; inversion Hx|].
      intros [Hx _]. inversion Hx.
    + intros k'. destruct (decide (k' = k)) as [->|]; set_solver.
  - destruct (decide (x0 ∈ docs)) as [Hin|Hnin].
    + intros E. destruct (IH _ _ _ _ _ E) as (-> & Hnd & Hys & Hbf).
      split; [set_solver|]. split; [exact Hnd|]. split.
      * intros x. rewrite Hys. set_solver.
      * intros k'. rewrite Hbf. destruct (decide (k' = k)) as [->|Hne].
        -- rewrite lookup_total_insert_eq. set_solver.
        -- rewrite lookup_total_insert_ne by congruence. reflexivity.
    + destruct (list_one k l (<[k:={[x0]} ∪ bf !!! k]> bf) ({[x0]} ∪ docs))
        as [[ys1 bf1] d1] eqn:E.
      intros [= <- <- <-].
      destruct (IH _ _ _ _ _ E) as (-> & Hnd & Hys & Hbf).
      split; [set_solver|]. split; [|split].
      * apply NoDup_cons. split; [|exact Hnd].
        intros Hx. apply Hys in Hx. set_solver.
      * intros x. rewrite elem_of_cons, Hys.
        destruct (decide (x = x0)) as [->|Hne]; set_solver.
      * intros k'. rewrite Hbf. destruct (decide (k' = k)) as [->|Hne].
        -- rewrite lookup_total_insert_eq. set_solver.
        -- rewrite lookup_total_insert_ne by congruence. reflexivity.
Qed.

(** The outer loop. *)
Lemma list_all_spec (insts : list (@DocumentRepository world))
    (action : string) (force_ : bool) w :
  forall (bf : gmap string (gset string)) (docs : gset string) ys bf' docs',
  list_all insts action force_ w bf docs = (ys, bf', docs') ->
  NoDup ys
  /\ (forall x, x ∈ ys <->
        (exists inst, inst ∈ insts
           /\ x ∈ list_basefiles_for (store inst) action force_ w)
        /\ x ∉ docs)
  /\ (forall x, x ∈ docs' <->
        x ∈ docs \/ exists inst, inst ∈ insts
           /\ x ∈ list_basefiles_for (store inst) action force_ w)
  /\ (forall k x, x ∈ bf' !!! k <->
        x ∈ bf !!! k
        \/ exists inst, inst ∈ insts /\ cls inst = k
             /\ x ∈ list_basefiles_for (store inst) action force_ w).
Proof.
  induction insts as [|inst insts IH]; intros bf docs ys bf' docs'; simpl.
  - intros [= <- <- <-]. split; [constructor|].
    split; [|split].
    + intros x. split; [intros Hx; inversion Hx|].
      intros [(i & Hi & _) _]. inversion Hi.
    + intros x. split; [auto|]. intros [Hx|(i & Hi & _)]; [exact Hx|].
      inversion Hi.
    + intros k x. split; [auto|]. intros [Hx|(i & Hi & _)]; [exact Hx|].
      inversion Hi.
  - destruct (list_one (cls inst)
                (list_basefiles_for (store inst) action force_ w) bf docs)
      as [[ys1 bf1] d1] eqn:E1.
    destruct (list_all insts action force_ w bf1 d1)
      as [[ys2 bf2] d2] eqn:E2.
    intros [= <- <- <-].
    destruct (list_one_spec _ _ _ _ _ _ _ E1) as (-> & Hnd1 & Hys1 & Hbf1).
    destruct (IH _ _ _ _ _ E2) as (Hnd2 & Hys2 & Hd2 & Hbf2).
    split; [|split; [|split]].
    + apply NoDup_app. split; [exact Hnd1|]. split; [|exact Hnd2].
      intros x Hx1 Hx2. apply Hys1 in Hx1. apply Hys2 in Hx2.
      destruct Hx2 as [_ Hx2]. apply Hx2.
      apply elem_of_union_r, elem_of_list_to_set. tauto.
    + intros x. rewrite elem_of_app, Hys1, Hys2. split.
      * intros [[Hx Hd]|[(i & Hi & Hx) Hd]].
        -- split; [|exact Hd]. exists inst. split; [left|exact Hx].
        -- split; [|set_solver]. exists i. split; [right; exact Hi|exact Hx].
      * intros [(i & Hi & Hx) Hd].
        apply elem_of_cons in Hi as [->|Hi]; [left; tauto|].
        destruct (decide
                    (x ∈ list_basefiles_for (store inst) action force_ w))
          as [Hx'|Hx']; [left; tauto|].
        right. split; [exists i; tauto|]. set_solver.
    + intros x. rewrite Hd2, elem_of_union, elem_of_list_to_set. split.
      * intros [[Hx|Hx]|(i & Hi & Hx)]; [left; exact Hx| |].
        -- right. exists inst. split; [left|exact Hx].
        -- right. exists i. split; [right; exact Hi|exact Hx].
      * intros [Hx|(i & Hi & Hx)]; [tauto|].
        apply elem_of_cons in Hi as [->|Hi]; [tauto|].
        right. exists i. tauto.
    + intros k x. rewrite Hbf2, Hbf1. split.
      * intros [Hx|(i & Hi & Hk & Hx)].
        -- destruct (decide (k = cls inst)) as [->|Hne]; [|left; exact Hx].
           apply elem_of_union in Hx as [Hx|Hx]; [left; exact Hx|].
           right. exists inst. rewrite elem_of_list_to_set in Hx.
           split; [left|tauto].
        -- right. exists i. split; [right; exact Hi|tauto].
      * intros [Hx|(i & Hi & Hk & Hx)].
        -- left. destruct (decide (k = cls inst)); [|exact Hx].
           apply elem_of_union_l. subst k. exact Hx.
        -- apply elem_of_cons in Hi as [->|Hi].
           ++ left. rewrite decide_True by (symmetry; exact Hk).
              apply elem_of_union_r, elem_of_list_to_set, Hx.
           ++ right. exists i. tauto.
Qed.

(** C10.  For the action ["parse"], run to exhaustion,
    [CompositeStore.list_basefiles_for] yields every basefile at most
    once; it yields exactly the basefiles that some sub-repository
    lists; and afterwards [store.basefiles] holds, under the class of
    every sub-repository, all the basefiles that sub-repository listed
    (besides what was recorded before and nothing else): the record
    that [get_preferred_instances] consults through [listed]. *)
Theorem list_basefiles_for_parse (self : @CompositeStore world)
    (force_ : bool) w :
  let run := composite_list_basefiles_for self "parse" force_ w in
  NoDup (fst run)
  /\ (forall x, x ∈ fst run <->
        exists inst, inst ∈ docrepo_instances self
          /\ x ∈ list_basefiles_for (store inst) "parse" force_ w)
  /\ (forall k x, x ∈ basefiles (snd run) !!! k <->
        x ∈ basefiles self !!! k
        \/ exists inst, inst ∈ docrepo_instances self /\ cls inst = k
             /\ x ∈ list_basefiles_for (store inst) "parse" force_ w)
  /\ docrepo_instances (snd run) = docrepo_instances self
  /\ base (snd run) = base self.
Proof.
  unfold composite_list_basefiles_for.
  change (str_in "parse" "parse") with true. cbv iota.
  destruct (list_all (docrepo_instances self) "parse" force_ w
              (basefiles self) ∅) as [[ys bf] d] eqn:E.
  destruct (list_all_spec _ _ _ _ _ _ _ _ _ E) as (Hnd & Hys & _ & Hbf).
  cbv zeta. simpl. split; [exact Hnd|]. split; [|split; [exact Hbf|auto]].
  intros x. rewrite Hys. split; [tauto|]. intros Hx. split; [exact Hx|].
  set_solver.
Qed.

End Facts.

End CompositeFacts.

(** * The composite repository at work *)

Module CompositeExamples.

Import Composite Scenario CompositeFacts.

Lemma run_eta {A B C : Type} (p : A * B * C) : p = (fst (fst p), snd (fst p), snd p).
Proof. destruct p as [[a b] c]. reflexivity. Qed.

(** Scenario B of the specification: A and B raise, C returns [True];
    the three are called in that order and C decides the result. *)
Lemma parse_fallback_order_witness :
  let run := parse abc "doc1" abc_disk in
  map (fun c => cls (fst c)) (calls (snd run)) = ["A"; "B"; "C"]
  /\ (forall i c v,
        calls (snd run) !! i = Some (c, Return v) -> truthy v = true ->
        S i = length (calls (snd run))
        /\ fst (fst run) = result_of_success "doc1" v c).
Proof.
  split; [vm_compute; reflexivity|].
  exact (proj1 (proj2 (proj2
           (parse_fallback_order abc "doc1" abc_disk _ _ _ (run_eta _))))).
Defined.

(** With [failfast], the [ParseError] of A ends the run. *)
Lemma parse_failfast_toggle_witness :
  let run := parse abc_failfast "doc1" abc_disk in
  truthy (failfast (config abc_failfast)) = true
  /\ calls (snd run) !! 0 = Some (srcA, Raise (ParseError "A cannot parse this"))
  /\ 1 = length (calls (snd run))
  /\ fst (fst run) = Raise (ParseError "A cannot parse this").
Proof.
  assert (Hc : calls (snd (parse abc_failfast "doc1" abc_disk)) !! 0
               = Some (srcA, Raise (ParseError "A cannot parse this")))
    by reflexivity.
  split; [reflexivity|]. split; [exact Hc|].
  destruct (proj1 (parse_failfast_toggle abc_failfast "doc1" abc_disk
                     _ _ _ (run_eta _)) eq_refl _ _ _ Hc) as (Hl & Hr & _).
  split; [exact Hl|exact Hr].
Defined.

(** C3 as stated fails.  Neither option is set, the composite has the
    parsed file of [doc1], and no eligible sub-repository reports that
    a parse is needed, because no sub-repository is eligible: the only
    one neither lists [doc1] nor has it downloaded.  [parse] does not
    return [True]; it raises [ParseError]. *)
Lemma parse_skip_counterexample :
  is_True (force (config orphaned)) = false
  /\ is_True (parseforce (config orphaned)) = false
  /\ (forall inst, In inst (subrepos orphaned) ->
        eligible orphaned "doc1" inst orphaned_disk = true ->
        needed (store inst) "doc1" "parse" orphaned_disk = false)
  /\ path_exists (parsed_path (base (cstore orphaned)) "doc1") orphaned_disk
     = true
  /\ fst (fst (parse orphaned "doc1" orphaned_disk))
     = Raise (ParseError "No available instance (out of 1) had basefile doc1")
  /\ fst (fst (parse orphaned "doc1" orphaned_disk)) <> Return (PBool true).
Proof.
  split; [reflexivity|]. split; [reflexivity|]. split.
  - intros inst [<-|[]] He. vm_compute in He. discriminate He.
  - split; [vm_compute; reflexivity|].
    split; [vm_compute; reflexivity|]. vm_compute. discriminate.
Defined.

(** The composite has parsed [doc1] from C before and nothing changed
    since: the next [parse] is skipped. *)
Lemma parse_skips_when_fresh_witness :
  exists tr,
    parse only_c "doc1" parsed_disk = (Return (PBool true), parsed_disk, tr)
    /\ calls tr = [] /\ link_ops tr = [].
Proof.
  apply parse_skips_when_fresh.
  - reflexivity.
  - reflexivity.
  - exists srcC. split; [left; reflexivity|vm_compute; reflexivity].
  - intros inst [<-|[]] _. vm_compute. reflexivity.
  - vm_compute. reflexivity.
Defined.

(** Scenario C of the specification: asked for [oldid], R answers
    [newid].  The entry, the distilled file and the parsed file of R
    under [newid] are linked into the composite's store, and that is
    all that is linked. *)
Lemma parse_rename_witness :
  let run := parse renaming "oldid" renaming_disk in
  In (srcR, Return (PStr "newid")) (calls (snd run))
  /\ fst (fst run)
     = Raise (DocumentRenamedError (PBool true)
                "oldid: In subrepo repos.R basefile turned out to really be newid"
                "oldid" "newid")
  /\ link_ops (snd run)
     = [("data/R/entries/newid.json", "data/comp/entries/newid.json");
        ("data/R/distilled/newid.rdf", "data/comp/distilled/newid.rdf");
        ("data/R/parsed/newid.xhtml", "data/comp/parsed/newid.xhtml")].
Proof.
  assert (Hc : calls (snd (parse renaming "oldid" renaming_disk))
               = [(srcR, Return (PStr "newid"))]) by reflexivity.
  assert (Hin : In (srcR, Return (PStr "newid"))
                   (calls (snd (parse renaming "oldid" renaming_disk))))
    by (rewrite Hc; left; reflexivity).
  split; [exact Hin|].
  destruct (parse_rename renaming "oldid" renaming_disk _ _ _ srcR "newid"
              (run_eta _) Hin ltac:(discriminate) ltac:(discriminate))
    as (Hr & t1 & w1 & tc & E & _ & _ & _ & Hl & _ & Hops).
  split; [exact Hr|].
  assert (Hw1 : w1 = snd (fst (parse_loop renaming (subrepos renaming) "oldid"
                                 (PBool false) None renaming_disk)))
    by (rewrite E; reflexivity).
  cbv zeta. rewrite Hl, Hops, Hw1. reflexivity.
Defined.

(** C5 as stated fails.  With [failfast] set, the only eligible
    sub-repository raises an [IOError]; no [parse] succeeded, and what
    [parse] raises is that [IOError], not a [ParseError]. *)
Lemma parse_error_counterexample :
  let run := parse b_failfast "doc1" abc_disk in
  (forall c o, In (c, o) (calls (snd run)) -> succeeded o = false)
  /\ fst (fst run) = Raise (OtherException "IOError" "disk error")
  /\ ~ exists msg, fst (fst run) = Raise (ParseError msg).
Proof.
  assert (Hc : calls (snd (parse b_failfast "doc1" abc_disk))
               = [(srcB, Raise (OtherException "IOError" "disk error"))])
    by reflexivity.
  assert (Hr : fst (fst (parse b_failfast "doc1" abc_disk))
               = Raise (OtherException "IOError" "disk error"))
    by reflexivity.
  cbv zeta. rewrite Hc, Hr. split; [|split].
  - intros c o [[= <- <-]|[]]. reflexivity.
  - reflexivity.
  - intros [msg Hm]. discriminate Hm.
Defined.

(** A and B both fail: the [ParseError] names them.  With A and D
    declared, D neither listed nor downloaded, only A is tried and only
    A is named. *)
Lemma parse_error_names_attempted_witness :
  (let run := parse ab "doc1" abc_disk in
   fst (fst run)
   = Raise (ParseError "No instance of repos.A, repos.B was able to parse doc1")
   /\ map fst (calls (snd run)) = [srcA; srcB]
   /\ subrepos_lbl ab "doc1"
      = join ", " (map qualified_class_name (map fst (calls (snd run)))))
  /\ (let run := parse ad "doc1" abc_disk in
      fst (fst run)
      = Raise (ParseError "No instance of repos.A was able to parse doc1")
      /\ map fst (calls (snd run)) = [srcA]
      /\ subrepos_lbl ad "doc1"
         = join ", " (map qualified_class_name (map fst (calls (snd run))))).
Proof.
  split.
  - assert (Hnone : forall c o,
              In (c, o) (calls (snd (parse ab "doc1" abc_disk))) ->
              succeeded o = false).
    { assert (Hc : calls (snd (parse ab "doc1" abc_disk))
                   = [(srcA, Raise (ParseError "A cannot parse this"));
                      (srcB, Raise (OtherException "IOError" "disk error"))])
        by reflexivity.
      rewrite Hc. intros c o [[= <- <-]|[[= <- <-]|[]]]; reflexivity. }
    assert (Hlisted : forall inst,
              In inst (preferred_instances ab "doc1" (subrepos ab) abc_disk) ->
              listed ab "doc1" inst = true).
    { assert (Hy : preferred_instances ab "doc1" (subrepos ab) abc_disk
                   = [srcA; srcB]) by reflexivity.
      rewrite Hy. intros inst [<-|[<-|[]]]; reflexivity. }
    destruct (parse_error_names_attempted ab "doc1" abc_disk _ _ _
                eq_refl eq_refl (run_eta _) Hnone) as (Hr & Hm & Hn).
    split; [exact Hr|split; [exact Hm|exact (Hn Hlisted)]].
  - assert (Hnone : forall c o,
              In (c, o) (calls (snd (parse ad "doc1" abc_disk))) ->
              succeeded o = false).
    { assert (Hc : calls (snd (parse ad "doc1" abc_disk))
                   = [(srcA, Raise (ParseError "A cannot parse this"))])
        by reflexivity.
      rewrite Hc. intros c o [[= <- <-]|[]]; reflexivity. }
    assert (Hlisted : forall inst,
              In inst (preferred_instances ad "doc1" (subrepos ad) abc_disk) ->
              listed ad "doc1" inst = true).
    { assert (Hy : preferred_instances ad "doc1" (subrepos ad) abc_disk
                   = [srcA]) by reflexivity.
      rewrite Hy. intros inst [<-|[]]; reflexivity. }
    destruct (parse_error_names_attempted ad "doc1" abc_disk _ _ _
                eq_refl eq_refl (run_eta _) Hnone) as (Hr & Hm & Hn).
    split; [exact Hr|split; [exact Hm|exact (Hn Hlisted)]].
Defined.

(** Right after a propagation, the next one has nothing to do. *)
Lemma copy_parsed_fresh_witness :
  exists tr,
    copy_parsed only_c "doc1" srcC parsed_disk = (Return tt, parsed_disk, tr)
    /\ link_ops tr = []
    /\ tr = [Log DEBUG "doc1: Attachments are (likely) up-to-date"].
Proof.
  apply copy_parsed_fresh; vm_compute; reflexivity.
Defined.

(** The skip needs no eligible sub-repository: here the sub-repository
    that reports "no parse needed" is C, which is eligible too, and the
    debug line is all that happens. *)
Lemma parse_skip_witness :
  parse only_c "doc1" parsed_disk
  = (Return (PBool true), parsed_disk, [Log DEBUG "doc1: Skipped"]).
Proof.
  apply (parse_skip only_c "doc1" parsed_disk srcC).
  - reflexivity.
  - reflexivity.
  - left. reflexivity.
  - vm_compute. reflexivity.
  - vm_compute. reflexivity.
Defined.

(** C has just parsed [doc1]; the composite has nothing yet. *)
Lemma copy_parsed_links_witness :
  link_ops (snd (copy_parsed abc "doc1" srcC
                   (snd (repo_parse srcC "doc1" abc_disk))))
  = [("data/C/entries/doc1.json", "data/comp/entries/doc1.json");
     ("data/C/distilled/doc1.rdf", "data/comp/distilled/doc1.rdf");
     ("data/C/parsed/doc1.xhtml", "data/comp/parsed/doc1.xhtml")].
Proof.
  apply (copy_parsed_links abc "doc1" srcC).
  right. left. vm_compute. reflexivity.
Defined.

(** [parse] for one basefile without an enumeration before it: D is tried
    because its downloaded file is there, and fails; the message of the
    [ParseError] does not name it. *)
Example parse_error_unlisted :
  calls (snd (parse unlisted "doc1" unlisted_disk))
  = [(srcD, Raise (ParseError "D cannot parse this"))]
  /\ fst (fst (parse unlisted "doc1" unlisted_disk))
     = Raise (ParseError "No available instance (out of 1) had basefile doc1").
Proof. split; reflexivity. Qed.

(** Scenario C on the concrete file system: afterwards the parsed file is
    there under the new basefile, and an empty placeholder under the old
    one. *)
Example rename_leaves_placeholder :
  let after := snd (fst (parse renaming "oldid" renaming_disk)) in
  FS.path_exists "data/comp/parsed/oldid.xhtml" after = true
  /\ FS.read_lines "data/comp/parsed/oldid.xhtml" after = []
  /\ FS.read_lines "data/comp/parsed/newid.xhtml" after = ["<html/>"]
  /\ FS.path_exists "data/comp/parsed/oldid.xhtml" renaming_disk = false.
Proof. repeat split; vm_compute; reflexivity. Qed.

End CompositeExamples.

(** * Properties of the uri map *)

Module DVFacts.

Import DV.

(** ** Strings *)

Lemma append_cons (c : ascii) (a b : string) :
  String c a ++ b = String c (a ++ b).
Proof. reflexivity. Qed.

Lemma append_nil (b : string) : "" ++ b = b.
Proof. reflexivity. Qed.

Lemma list_ascii_app (a b : string) :
  list_ascii_of_string (a ++ b)
  = (list_ascii_of_string a ++ list_ascii_of_string b)%list.
Proof.
  induction a as [|c a IH]; [reflexivity|].
  rewrite append_cons. simpl. rewrite IH. reflexivity.
Qed.

Lemma string_of_list_app (l k : list ascii) :
  string_of_list_ascii (l ++ k)
  = string_of_list_ascii l ++ string_of_list_ascii k.
Proof.
  induction l as [|c l IH]; [reflexivity|].
  simpl. rewrite append_cons, IH. reflexivity.
Qed.

Lemma reversed_app (a b : string) :
  FS.reversed (a ++ b) = FS.reversed b ++ FS.reversed a.
Proof.
  unfold FS.reversed. rewrite list_ascii_app, rev_app_distr.
  apply string_of_list_app.
Qed.

Lemma prefix_app (a b : string) : String.prefix a (a ++ b) = true.
Proof.
  induction a as [|c a IH]; [destruct b; reflexivity|].
  rewrite append_cons. simpl.
  destruct (ascii_dec c c); [exact IH|congruence].
Qed.

Lemma prefix_app_head (a x y : string) :
  String.prefix (a ++ x) (a ++ y) = String.prefix x y.
Proof.
  induction a as [|c a IH]; [reflexivity|].
  rewrite !append_cons. simpl.
  destruct (ascii_dec c c); [exact IH|congruence].
Qed.

Lemma append_assoc (a b c : string) : (a ++ b) ++ c = a ++ (b ++ c).
Proof.
  induction a as [|x a IH]; [reflexivity|].
  rewrite !append_cons, IH. reflexivity.
Qed.

Lemma endswith_app (a sfx : string) : FS.endswith (a ++ sfx) sfx = true.
Proof. unfold FS.endswith. rewrite reversed_app. apply prefix_app. Qed.

Lemma append_inv_head (a x y : string) : a ++ x = a ++ y -> x = y.
Proof.
  induction a as [|c a IH]; [auto|].
  rewrite !append_cons. intros [= Ha]. auto.
Qed.

Lemma append_inv_tail (x y b : string) : x ++ b = y ++ b -> x = y.
Proof.
  intros Heq. apply (f_equal list_ascii_of_string) in Heq.
  rewrite !list_ascii_app in Heq. apply app_inv_tail in Heq.
  apply (f_equal string_of_list_ascii) in Heq.
  rewrite !string_of_list_ascii_of_string in Heq. exact Heq.
Qed.

(** The directory of the canonical map file is [<datadir>/generated]. *)
Lemma dirname_canonical_mapfile (self : Repo) :
  ospath.dirname (canonical_mapfile self) = datadir self ++ "/generated".
Proof.
  unfold canonical_mapfile, store_path, ospath.dirname.
  change (datadir self ++ "/" ++ "generated" ++ "/" ++ "uri" ++ ".map")
    with (datadir self ++ "/generated/uri.map").
  rewrite list_ascii_app, rev_app_distr. simpl.
  rewrite rev_involutive, <- !app_assoc. simpl.
  rewrite string_of_list_app, string_of_list_ascii_of_string. reflexivity.
Qed.

(** ** Which files are read *)

Lemma list_dirs_In (d sfx p : string) (w : FS.world) :
  In p (FS.list_dirs d sfx w) <->
  FS.path_exists p w = true
  /\ String.prefix (d ++ "/") p = true /\ FS.endswith p sfx = true.
Proof.
  unfold FS.list_dirs, FS.path_exists. rewrite filter_In, andb_true_iff.
  rewrite bool_decide_eq_true.
  assert (Hk : In p (map fst (map_to_list (FS.files w)))
               <-> is_Some (FS.files w !! p)).
  { rewrite in_map_iff. split.
    - intros ([k f] & <- & Hin). apply list_elem_of_In in Hin.
      apply elem_of_map_to_list in Hin. eauto.
    - intros [f Hf]. exists (p, f). split; [reflexivity|].
      apply list_elem_of_In, elem_of_map_to_list, Hf. }
  tauto.
Qed.

(** Every file [<datadir>/generated/uri<anything>.map] that exists is
    among the map files read under a client name. *)
Lemma mapfiles_client (self : Repo) (w : FS.world) (sfx : string) :
  truthy (clientname (config self)) = true ->
  FS.path_exists (store_path self "uri" "generated" (sfx ++ ".map")) w = true ->
  In (store_path self "uri" "generated" (sfx ++ ".map")) (mapfiles self w).
Proof.
  intros Hc Hex. unfold mapfiles. rewrite Hc, dirname_canonical_mapfile.
  apply list_dirs_In. split; [exact Hex|]. unfold store_path. split.
  - rewrite append_assoc.
    change ("/" ++ "generated" ++ "/" ++ "uri" ++ sfx ++ ".map")
      with (("/generated" ++ "/") ++ "uri" ++ sfx ++ ".map").
    rewrite prefix_app_head. apply prefix_app.
  - rewrite <- !append_assoc. apply endswith_app.
Qed.

(** ** Scanning *)

Lemma scan_lines_none callback ls :
  scan_lines callback ls = Return PNone ->
  forall line, In line ls ->
    exists path filename,
      parse_line line = Return (path, filename)
      /\ callback path filename = Return PNone.
Proof.
  induction ls as [|l ls IH]; simpl; [intros _ line []|].
  destruct (parse_line l) as [[p f]|e] eqn:Hp; [|discriminate].
  destruct (callback p f) as [[| |]|e] eqn:Hc; try discriminate.
  intros Hs line [<-|Hin]; [eauto|auto].
Qed.

Lemma scan_files_none callback fs w :
  scan_files callback fs w = Return PNone ->
  forall f line, In f fs -> In line (FS.read_lines f w) ->
    exists path filename,
      parse_line line = Return (path, filename)
      /\ callback path filename = Return PNone.
Proof.
  induction fs as [|f0 fs IH]; simpl; [intros _ f line []|].
  intros Hs f line [<-|Hin] Hl.
  - destruct (FS.path_exists f0 w) eqn:Hex.
    + destruct (scan_lines callback (FS.read_lines f0 w))
        as [[| |]|e] eqn:Hsl; try discriminate.
      exact (scan_lines_none _ _ Hsl _ Hl).
    + unfold FS.path_exists in Hex. apply bool_decide_eq_false in Hex.
      unfold FS.read_lines in Hl.
      destruct (FS.files w !! f0); [|destruct Hl].
      exfalso. apply Hex. eauto.
  - destruct (FS.path_exists f0 w).
    + destruct (scan_lines callback (FS.read_lines f0 w))
        as [[| |]|e]; try discriminate. eauto.
    + eauto.
Qed.

(** An answer other than [None] is the answer on one line: the first
    line that cannot be taken apart, or to which the callback answers
    anything but [None].  The lines before it have all been passed
    over. *)
Lemma scan_lines_found callback ls :
  scan_lines callback ls <> Return PNone ->
  exists pre line post,
    ls = (pre ++ line :: post)%list
    /\ (forall l, In l pre ->
          exists path filename,
            parse_line l = Return (path, filename)
            /\ callback path filename = Return PNone)
    /\ match parse_line line with
       | Raise e => scan_lines callback ls = Raise e
       | Return (path, filename) =>
           callback path filename <> Return PNone
           /\ scan_lines callback ls = callback path filename
       end.
Proof.
  induction ls as [|l ls IH]; simpl; [congruence|].
  destruct (parse_line l) as [[p f]|e] eqn:Hp.
  - destruct (callback p f) as [v|e] eqn:Hc.
    + destruct (decide (v = PNone)) as [->|Hv].
      * intros Hs. destruct (IH Hs) as (pre & line & post & -> & Hpre & Hl).
        exists (l :: pre), line, post. split; [reflexivity|].
        split; [|exact Hl].
        intros l' [<-|Hin]; [eauto|auto].
      * intros _. exists [], l, ls. split; [reflexivity|].
        split; [intros l' []|]. rewrite Hp, Hc.
        split; [congruence|]. destruct v; congruence.
    + intros _. exists [], l, ls. split; [reflexivity|].
      split; [intros l' []|]. rewrite Hp, Hc. split; [discriminate|reflexivity].
  - intros _. exists [], l, ls. split; [reflexivity|].
    split; [intros l' []|]. rewrite Hp. reflexivity.
Qed.

(** An answer other than [None] comes from a map file that exists; the
    map files before it, where they exist, have been read to their end
    with [None] for an answer. *)
Lemma scan_files_found callback fs w :
  scan_files callback fs w <> Return PNone ->
  exists fs1 f fs2,
    fs = (fs1 ++ f :: fs2)%list
    /\ FS.path_exists f w = true
    /\ (forall f' l, In f' fs1 -> In l (FS.read_lines f' w) ->
          exists path filename,
            parse_line l = Return (path, filename)
            /\ callback path filename = Return PNone)
    /\ scan_lines callback (FS.read_lines f w) <> Return PNone
    /\ scan_files callback fs w = scan_lines callback (FS.read_lines f w).
Proof.
  induction fs as [|f0 fs IH]; simpl; [congruence|].
  destruct (FS.path_exists f0 w) eqn:Hex.
  - destruct (decide (scan_lines callback (FS.read_lines f0 w)
                      = Return PNone)) as [Hn|Hn].
    + rewrite Hn. intros Hs.
      destruct (IH Hs) as (fs1 & f & fs2 & -> & Hf & Hpre & Hne & Heq).
      exists (f0 :: fs1), f, fs2. split; [reflexivity|].
      split; [exact Hf|]. split; [|split; [exact Hne|exact Heq]].
      intros f' l [<-|Hin] Hl; [|eauto].
      exact (scan_lines_none _ _ Hn _ Hl).
    + intros _. exists [], f0, fs. split; [reflexivity|].
      split; [exact Hex|]. split; [intros f' l []|]. split; [exact Hn|].
      destruct (scan_lines callback (FS.read_lines f0 w)) as [[| |]|e];
        congruence.
  - intros Hs.
    destruct (IH Hs) as (fs1 & f & fs2 & -> & Hf & Hpre & Hne & Heq).
    exists (f0 :: fs1), f, fs2. split; [reflexivity|].
    split; [exact Hf|]. split; [|split; [exact Hne|exact Heq]].
    intros f' l [<-|Hin] Hl; [|eauto].
    unfold FS.path_exists in Hex. apply bool_decide_eq_false in Hex.
    unfold FS.read_lines in Hl.
    destruct (FS.files w !! f0); [|destruct Hl].
    exfalso. apply Hex. eauto.
Qed.

(** ** Writing *)

Lemma append_line_other (f p line : string) (w : FS.world) :
  p <> f -> FS.files (FS.append_line f line w) !! p = FS.files w !! p.
Proof. intros Hne. simpl. apply lookup_insert_ne. congruence. Qed.

Lemma append_line_read (f line : string) (w : FS.world) :
  FS.read_lines f (FS.append_line f line w)
  = (FS.read_lines f w ++ [line])%list.
Proof. unfold FS.read_lines at 1. simpl. rewrite lookup_insert_eq. reflexivity. Qed.

(** What the uri-map section of [postprocess_doc] does to the file
    system: nothing, or one line more at the end of one file. *)
Lemma postprocess_doc_writes (self : Repo) (doc : Document) (w : FS.world) :
  snd (postprocess_doc self doc w) = w
  \/ (fst (postprocess_doc self doc w) = Return tt
      /\ readmapfile self (map_append_needed self doc) w <> Return (PBool false)
      /\ snd (postprocess_doc self doc w)
         = FS.append_line (append_mapfile self) (map_line self doc) w).
Proof.
  unfold postprocess_doc.
  destruct (readmapfile self (map_append_needed self doc) w) as [v|e];
    [|left; reflexivity].
  destruct (bool_decide_reflect (v = PBool false)) as [->|Hne]; simpl.
  - left. reflexivity.
  - right. repeat split. congruence.
Qed.

(** ** The protocol under several processes *)

(** C9.  Under a client name, a process appends to no file but its own,
    [uri.<clientname>.<pid>.map] next to the canonical [uri.map] (and a
    process of the same client with another pid has another file); what
    it appends is the one line of the document.  A reader under a client
    name reads the canonical map file and the file of every process, of
    whatever client and pid, whenever they exist, and it answers "no
    entry" ([None]) only after its callback has seen every line of every
    one of the files it reads and has answered [None] to each.  Any
    other answer of the reader is the answer on a line of one of these
    files, which exists: the first line, in the order of the files and
    of their lines, that cannot be taken apart or on which the callback
    answers anything but [None]; every line before it has been handed
    to the callback and answered with [None]. *)
Theorem multiprocess_map_protocol (self : Repo) (doc : Document)
    (w : FS.world) :
  truthy (clientname (config self)) = true ->
  (* the writer *)
  (forall p, p <> own_mapfile self ->
     FS.files (snd (postprocess_doc self doc w)) !! p = FS.files w !! p)
  /\ (snd (postprocess_doc self doc w) = w
      \/ FS.read_lines (own_mapfile self) (snd (postprocess_doc self doc w))
         = (FS.read_lines (own_mapfile self) w ++ [map_line self doc])%list)
  /\ (forall other : Repo,
        datadir other = datadir self ->
        clientname (config other) = clientname (config self) ->
        getpid other <> getpid self ->
        own_mapfile other <> own_mapfile self)
  (* the reader *)
  /\ (FS.path_exists (canonical_mapfile self) w = true ->
      In (canonical_mapfile self) (mapfiles self w))
  /\ (forall other : Repo,
        datadir other = datadir self ->
        FS.path_exists (own_mapfile other) w = true ->
        In (own_mapfile other) (mapfiles self w))
  /\ (forall callback,
        readmapfile self callback w = Return PNone ->
        forall f line,
          In f (mapfiles self w) -> In line (FS.read_lines f w) ->
          exists path filename,
            parse_line line = Return (path, filename)
            /\ callback path filename = Return PNone)
  /\ (forall callback,
        readmapfile self callback w <> Return PNone ->
        exists fs1 f fs2 pre line post,
          mapfiles self w = (fs1 ++ f :: fs2)%list
          /\ FS.path_exists f w = true
          /\ FS.read_lines f w = (pre ++ line :: post)%list
          /\ (forall f' l,
                In f' fs1 /\ In l (FS.read_lines f' w)
                \/ f' = f /\ In l pre ->
                exists path filename,
                  parse_line l = Return (path, filename)
                  /\ callback path filename = Return PNone)
          /\ match parse_line line with
             | Raise e => readmapfile self callback w = Raise e
             | Return (path, filename) =>
                 callback path filename <> Return PNone
                 /\ readmapfile self callback w = callback path filename
             end).
Proof.
  intros Hc.
  assert (Happ : append_mapfile self = own_mapfile self)
    by (unfold append_mapfile; rewrite Hc; reflexivity).
  split; [|split; [|split; [|split; [|split; [|split]]]]].
  - intros p Hp.
    destruct (postprocess_doc_writes self doc w) as [->|(_ & _ & ->)];
      [reflexivity|].
    rewrite Happ. apply append_line_other, Hp.
  - destruct (postprocess_doc_writes self doc w) as [Hw|(_ & _ & ->)];
      [left; exact Hw|right].
    rewrite Happ. apply append_line_read.
  - intros other Hd Hcl Hpid Heq. apply Hpid.
    unfold own_mapfile, store_path in Heq. rewrite Hd, Hcl in Heq.
    repeat apply append_inv_head in Heq.
    apply append_inv_tail in Heq. exact (pretty_nat_inj _ _ Heq).
  - intros Hex. apply (mapfiles_client self w "" Hc Hex).
  - intros other Hd Hex.
    assert (Ho : own_mapfile other
                 = store_path self "uri" "generated"
                     (("." ++ py_str (clientname (config other)) ++ "."
                       ++ pretty (getpid other)) ++ ".map")).
    { unfold own_mapfile, store_path. rewrite Hd, !append_assoc.
      reflexivity. }
    rewrite Ho in *. apply (mapfiles_client self w _ Hc Hex).
  - intros callback Hr. apply (scan_files_none _ _ _ Hr).
  - intros callback Hr. unfold readmapfile in *.
    destruct (scan_files_found _ _ _ Hr)
      as (fs1 & f & fs2 & Hfs & Hf & Hbefore & Hne & Heq).
    destruct (scan_lines_found _ _ Hne)
      as (pre & line & post & Hls & Hpre & Hline).
    exists fs1, f, fs2, pre, line, post.
    split; [exact Hfs|]. split; [exact Hf|]. split; [exact Hls|].
    split.
    + intros f' l [[Hin Hl]|[-> Hl]]; [eauto|auto].
    + rewrite Heq. exact Hline.
Qed.

(** ** The first entry wins *)

(** Lines that are not about the path are passed over. *)
Lemma scan_lines_app_none callback pre rest :
  (forall line, In line pre ->
     exists path filename,
       parse_line line = Return (path, filename)
       /\ callback path filename = Return PNone) ->
  scan_lines callback (pre ++ rest) = scan_lines callback rest.
Proof.
  induction pre as [|l pre IH]; intros Hpre; [reflexivity|]. simpl.
  destruct (Hpre l (or_introl eq_refl)) as (p & f & -> & ->).
  apply IH. intros line Hin. apply Hpre. right. exact Hin.
Qed.

Lemma split_max_0 sep s : split_max sep 0 s = [s].
Proof. destruct s; reflexivity. Qed.

Lemma split_tab_clean (p f : string) :
  Forall (fun a => is_space a = false) (list_ascii_of_string p) ->
  split_max tab 1 (p ++ String tab f) = [p; f].
Proof.
  induction p as [|c p IH]; intros Hp.
  - rewrite append_nil. simpl. rewrite split_max_0. reflexivity.
  - rewrite append_cons. simpl in Hp. inversion Hp as [|? ? Hc Hp']; subst.
    simpl. destruct (Ascii.eqb_spec c tab) as [->|_]; [discriminate Hc|].
    change (split_max tab 1 (p ++ String tab f)) with
      (split_max tab 1 (p ++ String tab f)).
    rewrite (IH Hp'). reflexivity.
Qed.

Lemma strip_id (l : list ascii) (a z : ascii) (m : list ascii) :
  is_space a = false -> is_space z = false ->
  l = (a :: m ++ [z])%list ->
  strip (string_of_list_ascii l) = string_of_list_ascii l.
Proof.
  intros Ha Hz ->. unfold strip.
  rewrite list_ascii_of_string_of_list_ascii.
  cbn [ospath.drop_while]. rewrite Ha.
  assert (Hrev : rev (a :: m ++ [z]) = z :: rev (a :: m)).
  { change (a :: m ++ [z])%list with ((a :: m) ++ [z])%list.
    rewrite rev_app_distr. reflexivity. }
  rewrite Hrev. cbn [ospath.drop_while]. rewrite Hz.
  rewrite <- Hrev, rev_involutive. reflexivity.
Qed.

(** A line of the nginx form is read back as it was written. *)
Lemma parse_line_nginx (p b : string) :
  clean p ->
  parse_line (p ++ String tab ("/dv/generated/" ++ b ++ ".html;"))
  = Return (p, "/dv/generated/" ++ b ++ ".html;").
Proof.
  intros [Hne Hp]. unfold parse_line.
  set (f := "/dv/generated/" ++ b ++ ".html;").
  assert (Hstrip : strip (p ++ String tab f) = p ++ String tab f).
  { destruct p as [|a p]; [congruence|].
    rewrite append_cons. simpl in Hp. inversion Hp as [|? ? Ha Hp']; subst.
    rewrite <- (string_of_list_ascii_of_string (String a (p ++ String tab f))).
    apply (strip_id _ a ";"%char
             (list_ascii_of_string (p ++ String tab ("/dv/generated/" ++ b ++ ".html")))
             Ha eq_refl).
    simpl. f_equal. unfold f.
    rewrite !list_ascii_app. simpl. rewrite !list_ascii_app. simpl.
    rewrite <- !app_assoc. simpl. rewrite <- !app_assoc. reflexivity. }
  rewrite Hstrip, (split_tab_clean p f Hp). reflexivity.
Qed.

Lemma split_dot_head (b rest : string) (n : nat) :
  dotless b ->
  hd "" (split_max "."%char (S n) (b ++ String "."%char rest)) = b.
Proof.
  induction b as [|c b IH]; intros Hb.
  - reflexivity.
  - rewrite append_cons. simpl in Hb. inversion Hb as [|? ? Hc Hb']; subst.
    simpl. destruct (Ascii.eqb_spec c "."%char) as [->|_]; [congruence|].
    specialize (IH Hb').
    destruct (split_max "."%char (S n) (b ++ String "."%char rest))
      as [|piece more]; simpl in *; congruence.
Qed.

(** An entry of the nginx form converts back to its basefile. *)
Lemma filename_to_basefile_nginx (b : string) :
  dotless b ->
  filename_to_basefile ("/dv/generated/" ++ b ++ ".html;") = b.
Proof.
  intros Hb. unfold filename_to_basefile.
  assert (Hs : split_max "/"%char 3 ("/dv/generated/" ++ b ++ ".html;")
               = [""; "dv"; "generated"; b ++ ".html;"]).
  { change ("/dv/generated/" ++ b ++ ".html;")
      with (String "/" (String "d" (String "v" (String "/"
              ("generated" ++ String "/" (b ++ ".html;")))))).
    cbn [split_max Ascii.eqb Bool.eqb].
    change ("generated" ++ String "/" (b ++ ".html;"))
      with (String "g" (String "e" (String "n" (String "e" (String "r"
             (String "a" (String "t" (String "e" (String "d"
               (String "/" (b ++ ".html;"))))))))))).
    cbn [split_max Ascii.eqb Bool.eqb]. rewrite split_max_0. reflexivity. }
  rewrite Hs. cbn [List.last]. unfold split.
  change (b ++ ".html;") with (b ++ String "." "html;").
  destruct (String.length (b ++ String "." "html;")) as [|n] eqn:Hl.
  - destruct b; discriminate Hl.
  - apply split_dot_head, Hb.
Qed.

Lemma map_append_needed_other (self : Repo) (d1 d2 : Document) p f :
  map_path self d1 = map_path self d2 ->
  map_append_needed self d1 p f = Return PNone ->
  map_append_needed self d2 p f = Return PNone.
Proof.
  unfold map_append_needed. intros <-.
  destruct (String.eqb p (map_path self d1)); [|reflexivity].
  destruct (negb _); discriminate.
Qed.

(** In the nginx form, for one process: when two distinct basefiles
    resolve to the same path and the first has been entered in the map,
    [postprocess_doc] for the second raises [DuplicateReferatDoc] with the
    first basefile and leaves the file system, the entry of the first
    included, as it is. *)
Theorem nginx_first_wins (self : Repo) (d1 d2 : Document) (w : FS.world) :
  mapfiletype (config self) = "nginx" ->
  truthy (clientname (config self)) = false ->
  map_path self d1 = map_path self d2 ->
  clean (map_path self d1) ->
  dotless (basefile d1) ->
  basefile d2 <> basefile d1 ->
  readmapfile self (map_append_needed self d1) w = Return PNone ->
  let w1 := snd (postprocess_doc self d1 w) in
  FS.read_lines (canonical_mapfile self) w1
  = (FS.read_lines (canonical_mapfile self) w ++ [map_line self d1])%list
  /\ postprocess_doc self d2 w1
     = (Raise (DuplicateReferatDoc (basefile d1)
                 (parsed_path self (basefile d2))), w1).
Proof.
  intros Hng Hcl Hpath Hclean Hdot Hne Hnone w1.
  assert (Hw1 : w1 = FS.append_line (canonical_mapfile self)
                       (map_line self d1) w).
  { unfold w1, postprocess_doc. rewrite Hnone. simpl.
    unfold append_mapfile. rewrite Hcl. reflexivity. }
  assert (Hread : FS.read_lines (canonical_mapfile self) w1
                  = (FS.read_lines (canonical_mapfile self) w
                       ++ [map_line self d1])%list)
    by (rewrite Hw1; apply append_line_read).
  split; [exact Hread|].
  assert (Hold : forall line,
            In line (FS.read_lines (canonical_mapfile self) w) ->
            exists p f, parse_line line = Return (p, f)
                        /\ map_append_needed self d2 p f = Return PNone).
  { intros line Hin. unfold readmapfile, mapfiles in Hnone.
    rewrite Hcl in Hnone.
    destruct (scan_files_none _ _ _ Hnone _ line (or_introl eq_refl) Hin)
      as (p & f & Hp & Hcb).
    exists p, f. split; [exact Hp|].
    exact (map_append_needed_other self d1 d2 p f Hpath Hcb). }
  assert (Hex : FS.path_exists (canonical_mapfile self) w1 = true).
  { rewrite Hw1. unfold FS.path_exists, FS.append_line. simpl.
    rewrite lookup_insert_eq. apply bool_decide_eq_true. eauto. }
  assert (Hline : map_line self d1
                  = map_path self d1
                    ++ String tab ("/dv/generated/" ++ basefile d1 ++ ".html;"))
    by (unfold map_line; rewrite Hng; reflexivity).
  assert (Hscan : readmapfile self (map_append_needed self d2) w1
                  = Raise (DuplicateReferatDoc (basefile d1)
                             (parsed_path self (basefile d2)))).
  { unfold readmapfile, mapfiles. rewrite Hcl. cbn [scan_files].
    rewrite Hex, Hread, (scan_lines_app_none _ _ _ Hold), Hline.
    cbn [scan_lines]. rewrite (parse_line_nginx _ _ Hclean).
    unfold map_append_needed. rewrite <- Hpath, String.eqb_refl.
    rewrite (filename_to_basefile_nginx _ Hdot).
    apply String.eqb_neq in Hne. rewrite Hne. reflexivity. }
  unfold postprocess_doc. rewrite Hscan. reflexivity.
Qed.

End DVFacts.

(** * The uri map at work *)

Module DVExamples.

Import DV Scenario DVFacts.

(** The first basefile of a report is entered in the map. *)
Example first_is_entered :
  postprocess_doc dv_apache doc_first empty_disk = (Return tt, apache_disk)
  /\ FS.read_lines (canonical_mapfile dv_apache) apache_disk
     = [map_line dv_apache doc_first].
Proof. split; vm_compute; reflexivity. Qed.

(** C7 on the default map file type.  The map holds the entry of the
    first basefile, [HDO/B883-81_1]; the second basefile of the same
    report is refused with [DuplicateReferatDoc] and the file system is
    left as it was, but the exception carries [B883-81_1], which is not
    the first basefile: the conversion of the entry back to a basefile
    is written for the nginx form of the map and cuts the court off an
    entry in the default form.  For the same reason parsing the first
    basefile a second time is refused as a duplicate of itself. *)
Lemma postprocess_doc_apache_duplicate :
  postprocess_doc dv_apache doc_second apache_disk
  = (Raise (DuplicateReferatDoc "B883-81_1"
              "data/dv/parsed/HDO/B882-81_1.xhtml"), apache_disk)
  /\ basefile doc_first = "HDO/B883-81_1"
  /\ filename_to_basefile (basefile doc_first) = "B883-81_1"
  /\ postprocess_doc dv_apache doc_first apache_disk
     = (Raise (DuplicateReferatDoc "B883-81_1"
                 "data/dv/parsed/HDO/B883-81_1.xhtml"), apache_disk).
Proof. repeat split; vm_compute; reflexivity. Qed.

(** In the nginx form the second basefile is refused with the first
    basefile, across processes: the entry is in the file of [sophie],
    and [anna] finds it. *)
Example nginx_duplicate_across_processes :
  own_mapfile sophie = "data/dv/generated/uri.sophie.4435.map"
  /\ FS.read_lines (own_mapfile sophie) sophie_disk
     = [map_line sophie doc_first]
  /\ postprocess_doc anna doc_second sophie_disk
     = (Raise (DuplicateReferatDoc "HDO/B883-81_1"
                 "data/dv/parsed/HDO/B882-81_1.xhtml"), sophie_disk)
  /\ postprocess_doc anna doc_first sophie_disk = (Return tt, sophie_disk).
Proof. repeat split; vm_compute; reflexivity. Qed.

(** [anna] reads the file that [sophie] wrote, and her own entries go to
    her own file only.  Her refusal of the second basefile is the answer
    of her callback on a line of a map file she reads. *)
Lemma multiprocess_map_protocol_witness :
  truthy (clientname (config anna)) = true
  /\ In (own_mapfile sophie) (mapfiles anna sophie_disk)
  /\ (forall p, p <> own_mapfile anna ->
        FS.files (snd (postprocess_doc anna doc_second sophie_disk)) !! p
        = FS.files sophie_disk !! p)
  /\ readmapfile anna (map_append_needed anna doc_second) sophie_disk
     = Raise (DuplicateReferatDoc "HDO/B883-81_1"
                "data/dv/parsed/HDO/B882-81_1.xhtml")
  /\ (exists f line,
        In f (mapfiles anna sophie_disk)
        /\ FS.path_exists f sophie_disk = true
        /\ In line (FS.read_lines f sophie_disk)
        /\ match parse_line line with
           | Raise e =>
               readmapfile anna (map_append_needed anna doc_second)
                 sophie_disk = Raise e
           | Return (path, filename) =>
               readmapfile anna (map_append_needed anna doc_second)
                 sophie_disk
               = map_append_needed anna doc_second path filename
           end).
Proof.
  pose proof (multiprocess_map_protocol anna doc_second sophie_disk eq_refl)
    as (Hw & _ & _ & _ & Hr & _ & Hfound).
  assert (Hdup : readmapfile anna (map_append_needed anna doc_second)
                   sophie_disk
                 = Raise (DuplicateReferatDoc "HDO/B883-81_1"
                            "data/dv/parsed/HDO/B882-81_1.xhtml"))
    by (vm_compute; reflexivity).
  split; [reflexivity|]. split; [|split; [exact Hw|split; [exact Hdup|]]].
  - apply Hr; [reflexivity|vm_compute; reflexivity].
  - destruct (Hfound (map_append_needed anna doc_second))
      as (fs1 & f & fs2 & pre & line & post & Hfs & Hf & Hls & _ & Hline).
    { rewrite Hdup. discriminate. }
    exists f, line. split; [|split; [exact Hf|split]].
    + rewrite Hfs. apply in_or_app. right. left. reflexivity.
    + rewrite Hls. apply in_or_app. right. left. reflexivity.
    + destruct (parse_line line) as [[path filename]|e];
        [exact (proj2 Hline)|exact Hline].
Defined.

(** One process, nginx form, the two basefiles of the example. *)
Lemma nginx_first_wins_witness :
  postprocess_doc (dv "nginx" PNone 1) doc_second
    (snd (postprocess_doc (dv "nginx" PNone 1) doc_first empty_disk))
  = (Raise (DuplicateReferatDoc "HDO/B883-81_1"
              "data/dv/parsed/HDO/B882-81_1.xhtml"),
     snd (postprocess_doc (dv "nginx" PNone 1) doc_first empty_disk)).
Proof.
  refine (proj2 (nginx_first_wins (dv "nginx" PNone 1) doc_first doc_second
                   empty_disk eq_refl eq_refl eq_refl _ _ _ eq_refl)).
  - split; [discriminate|]. vm_compute. repeat constructor.
  - unfold dotless. vm_compute. repeat (constructor; [discriminate|]).
    constructor.
  - discriminate.
Defined.

End DVExamples.

(** * Properties of the grammars *)

Module DVParserFacts.

Import DVParser.

(** Whatever decides which recognizers fire, the first in declared order
    that fires is found, and it is a recognizer that fires. *)
Lemma first_match_fires (fires : recognizer -> bool) recs r :
  first_match fires recs = Some r -> In r recs /\ fires r = true.
Proof. apply find_some. Qed.

Lemma first_match_some (fires : recognizer -> bool) recs r :
  In r recs -> fires r = true ->
  exists r', first_match fires recs = Some r'.
Proof.
  intros Hin Hf. unfold first_match.
  destruct (find fires recs) as [r'|] eqn:E; [eauto|].
  rewrite (find_none _ _ E r Hin) in Hf. discriminate Hf.
Qed.

(** In a list that ends with the catch-all and holds it nowhere else,
    the first match is the catch-all only if nothing else fires. *)
Lemma first_match_before_last (fires : recognizer -> bool) pre r :
  ~ In is_paragraph pre -> In r pre -> fires r = true ->
  exists r', first_match fires (pre ++ [is_paragraph]) = Some r'
             /\ r' <> is_paragraph.
Proof.
  intros Hnot Hin Hf. unfold first_match.
  induction pre as [|x pre IH]; [destruct Hin|]. simpl.
  destruct (fires x) eqn:Hx.
  - exists x. split; [reflexivity|]. intros ->. apply Hnot. left. reflexivity.
  - destruct Hin as [->|Hin]; [congruence|].
    apply IH; [|exact Hin]. intros H. apply Hnot. right. exact H.
Qed.

(** C8.  In both grammars of [get_parser] (["simple"] and any other
    parse configuration): [is_paragraph] answers [True] whatever the
    parser's position; it is the last recognizer of the list and occurs
    nowhere before; hence the first recognizer in declared order that
    fires always exists, and whenever a recognizer other than the
    catch-all fires (on the chunk, and, if the engine restricts the
    recognizers by state, among those it admits), the one selected is
    not the catch-all. *)
Theorem catch_all_is_last {parser : Type}
    (inspects : recognizer -> parser -> bool) (parseconfig : string) :
  (forall p, recognize inspects is_paragraph p = true)
  /\ last (get_parser_recognizers parseconfig) = Some is_paragraph
  /\ (exists pre, get_parser_recognizers parseconfig = (pre ++ [is_paragraph])%list
                  /\ ~ In is_paragraph pre)
  /\ (forall p, exists r,
        first_match (fun x => recognize inspects x p)
                    (get_parser_recognizers parseconfig) = Some r)
  /\ (forall p (admits : recognizer -> bool) r,
        In r (get_parser_recognizers parseconfig) ->
        r <> is_paragraph ->
        admits r && recognize inspects r p = true ->
        exists r',
          first_match (fun x => admits x && recognize inspects x p)
                      (get_parser_recognizers parseconfig) = Some r'
          /\ r' <> is_paragraph).
Proof.
  assert (Hshape : exists pre,
            get_parser_recognizers parseconfig = (pre ++ [is_paragraph])%list
            /\ ~ In is_paragraph pre).
  { unfold get_parser_recognizers.
    destruct (String.eqb parseconfig "simple").
    - exists []. split; [reflexivity|]. intros [].
    - exists [is_delmal; is_endmeta; is_instans; is_dom; is_betankande;
              is_domskal; is_domslut; is_skiljaktig; is_tillagg; is_heading].
      split; [reflexivity|]. simpl. intuition discriminate. }
  split; [reflexivity|]. split; [|split; [exact Hshape|split]].
  - unfold get_parser_recognizers.
    destruct (String.eqb parseconfig "simple"); reflexivity.
  - intros p. destruct Hshape as (pre & -> & _).
    apply (first_match_some _ _ is_paragraph); [|reflexivity].
    apply in_or_app. right. left. reflexivity.
  - intros p admits r Hin Hne Hf. destruct Hshape as (pre & Hrecs & Hnot).
    rewrite Hrecs in *. apply (first_match_before_last _ _ r Hnot); [|exact Hf].
    apply in_app_or in Hin as [Hin|[<-|[]]]; [exact Hin|congruence].
Qed.

End DVParserFacts.

(** ** CompositeRepository.download: facts *)

Module DownloadFacts.

Import Composite CompositeDownload.

Section Facts.

Context {world : Type} `{Logging world}.

Variable loc : exn -> string.

Implicit Types (self : @Downloader world) (c : @Subrepo world)
  (cs : list (@Subrepo world)) (basefile : pyval) (w : world)
  (insts : list (@DocumentRepository world)) (tr : list (@dl_event world)).

Lemma dl_calls_app tr1 tr2 :
  dl_calls (tr1 ++ tr2) = (dl_calls tr1 ++ dl_calls tr2)%list.
Proof.
  induction tr1 as [|ev tr1 IH]; [reflexivity|].
  destruct ev; simpl; rewrite IH; reflexivity.
Qed.

Lemma dl_errors_app tr1 tr2 :
  dl_errors (tr1 ++ tr2) = (dl_errors tr1 ++ dl_errors tr2)%list.
Proof.
  induction tr1 as [|ev tr1 IH]; [reflexivity|].
  destruct ev; simpl; rewrite IH; reflexivity.
Qed.

(** One turn of the loop makes exactly one call, and writes an error
    line exactly when the call raised. *)
Lemma try_download_spec self c basefile w :
  forall ret_ w' tr,
  try_download loc self c basefile w = (ret_, w', tr) ->
  exists o,
    dl_calls tr = [(c, o)]
    /\ dl_errors tr = option_list (error_of loc (c, o))
    /\ ret_ = ret_of o
    /\ Forall (fun ev => match ev with
                         | CallDownload _ b _ => b = basefile
                         | _ => True
                         end) tr.
Proof.
  intros ret_ w' tr. unfold try_download.
  destruct (workaround self c w);
    [destruct (repo_download c basefile
                 (set_level (logger c) (effective_level (dl_logger self) w) w))
       as [o w2]
    |destruct (repo_download c basefile w) as [o w2]];
    destruct o as [v|e]; intros [= <- <- <-];
    [exists (Return v)|exists (Raise e)|exists (Return v)|exists (Raise e)];
    simpl; repeat split; repeat constructor.
Qed.

Lemma omap_error_of_single (call : @Subrepo world * Result pyval) :
  omap (error_of loc) [call] = option_list (error_of loc call).
Proof. simpl. destruct (error_of loc call); reflexivity. Qed.

(** The loop never raises, and its error lines are those of the calls
    that raised. *)
Lemma download_loop_errors self cs basefile :
  forall insts w r insts' w' tr,
  download_loop loc self cs basefile insts w = (r, insts', w', tr) ->
  r = Return PNone
  /\ dl_errors tr = omap (error_of loc) (dl_calls tr).
Proof.
  induction cs as [|c cs IH]; intros insts w r insts' w' tr; simpl.
  - intros [= <- <- <- <-]. split; reflexivity.
  - destruct (try_download loc self c basefile w) as [[ret_ w1] t1] eqn:E1.
    destruct (try_download_spec _ _ _ _ _ _ _ E1) as (o & Hc & He & _ & _).
    destruct (truthy basefile && truthy ret_).
    + intros [= <- <- <- <-]. split; [reflexivity|].
      rewrite Hc, He, omap_error_of_single. reflexivity.
    + destruct (download_loop loc self cs basefile (register c insts) w1)
        as [[[r2 insts2] w2] t2] eqn:E2.
      intros [= <- <- <- <-].
      destruct (IH _ _ _ _ _ _ E2) as [-> He2]. split; [reflexivity|].
      rewrite dl_errors_app, dl_calls_app, omap_app, Hc, He, He2,
        omap_error_of_single. reflexivity.
Qed.

(** X4.  [CompositeRepository.download] never raises, whatever the
    sub-repositories do: it returns [None], and the error lines it
    writes are, in order, one line ["download for <alias> failed: <e>
    (<location>)"] for each [download] call that raised. *)
Theorem download_resilient self basefile insts w :
  let '(r, _, _, tr) := download loc self basefile insts w in
  r = Return PNone
  /\ dl_errors tr = omap (error_of loc) (dl_calls tr).
Proof.
  unfold download.
  destruct (download_loop loc self (dl_subrepos self) basefile insts w)
    as [[[r insts'] w'] tr] eqn:E.
  exact (download_loop_errors _ _ _ _ _ _ _ _ _ E).
Qed.

(** The calls of the loop when no single basefile is asked for. *)
Lemma download_loop_all self cs basefile :
  truthy basefile = false ->
  forall insts w r insts' w' tr,
  download_loop loc self cs basefile insts w = (r, insts', w', tr) ->
  map fst (dl_calls tr) = cs.
Proof.
  intros Hb.
  induction cs as [|c cs IH]; intros insts w r insts' w' tr; simpl.
  - intros [= <- <- <- <-]. reflexivity.
  - destruct (try_download loc self c basefile w) as [[ret_ w1] t1] eqn:E1.
    destruct (try_download_spec _ _ _ _ _ _ _ E1) as (o & Hc & _).
    rewrite Hb. simpl.
    destruct (download_loop loc self cs basefile (register c insts) w1)
      as [[[r2 insts2] w2] t2] eqn:E2.
    intros [= <- <- <- <-].
    rewrite dl_calls_app, map_app, Hc, (IH _ _ _ _ _ _ E2). reflexivity.
Qed.

(** Every call of a run is handed the basefile that [download] was
    given. *)
Lemma download_loop_basefile self cs basefile :
  forall insts w r insts' w' tr,
  download_loop loc self cs basefile insts w = (r, insts', w', tr) ->
  Forall (fun ev => match ev with
                    | CallDownload _ b _ => b = basefile
                    | _ => True
                    end) tr.
Proof.
  induction cs as [|c cs IH]; intros insts w r insts' w' tr; simpl.
  - intros [= <- <- <- <-]. constructor.
  - destruct (try_download loc self c basefile w) as [[ret_ w1] t1] eqn:E1.
    destruct (try_download_spec _ _ _ _ _ _ _ E1) as (o & _ & _ & _ & Hf).
    destruct (truthy basefile && truthy ret_).
    + intros [= <- <- <- <-]. exact Hf.
    + destruct (download_loop loc self cs basefile (register c insts) w1)
        as [[[r2 insts2] w2] t2] eqn:E2.
      intros [= <- <- <- <-]. apply Forall_app. split; [exact Hf|].
      exact (IH _ _ _ _ _ _ E2).
Qed.

(** X5.  Called without a basefile ([None], or anything falsy),
    [download] calls the [download] of every declared sub-repository
    exactly once, in declared order, whatever the calls return or
    raise, and hands each the same argument. *)
Theorem download_all self basefile insts w :
  truthy basefile = false ->
  let '(_, _, _, tr) := download loc self basefile insts w in
  map fst (dl_calls tr) = dl_subrepos self
  /\ Forall (fun ev => match ev with
                       | CallDownload _ b _ => b = basefile
                       | _ => True
                       end) tr.
Proof.
  intros Hb. unfold download.
  destruct (download_loop loc self (dl_subrepos self) basefile insts w)
    as [[[r insts'] w'] tr] eqn:E.
  split.
  - exact (download_loop_all _ _ _ Hb _ _ _ _ _ _ E).
  - exact (download_loop_basefile _ _ _ _ _ _ _ _ _ E).
Qed.

(** The calls of the loop when one basefile is asked for. *)
Lemma download_loop_first self cs basefile :
  truthy basefile = true ->
  forall insts w r insts' w' tr,
  download_loop loc self cs basefile insts w = (r, insts', w', tr) ->
  exists rest,
    cs = (map fst (dl_calls tr) ++ rest)%list
    /\ (forall i call, dl_calls tr !! i = Some call ->
          S i < length (dl_calls tr) -> succeeded (snd call) = false)
    /\ (rest <> [] ->
        exists call, last (dl_calls tr) = Some call
                     /\ succeeded (snd call) = true).
Proof.
  intros Hb.
  induction cs as [|c cs IH]; intros insts w r insts' w' tr; simpl.
  - intros [= <- <- <- <-]. exists []. split; [reflexivity|].
    split; [intros i call Hi; inversion Hi|]. intros Hne. congruence.
  - destruct (try_download loc self c basefile w) as [[ret_ w1] t1] eqn:E1.
    destruct (try_download_spec _ _ _ _ _ _ _ E1) as (o & Hc & _ & Hr & _).
    rewrite Hb. simpl. destruct (truthy ret_) eqn:Et.
    + intros [= <- <- <- <-]. exists cs. rewrite Hc. simpl.
      split; [reflexivity|]. split.
      * intros i call _ Hi. lia.
      * intros _. exists (c, o). split; [reflexivity|].
        simpl. subst ret_. destruct o; [exact Et|discriminate Et].
    + destruct (download_loop loc self cs basefile (register c insts) w1)
        as [[[r2 insts2] w2] t2] eqn:E2.
      intros [= <- <- <- <-].
      destruct (IH _ _ _ _ _ _ E2) as (rest & Hcs & Hbefore & Hlast).
      exists rest. rewrite dl_calls_app, Hc. simpl.
      split; [congruence|]. split.
      * intros [|i] call Hi Hlen; simpl in Hi.
        -- injection Hi as <-. simpl. subst ret_.
           destruct o; [exact Et|reflexivity].
        -- apply (Hbefore i call Hi). lia.
      * intros Hne. destruct (Hlast Hne) as (call & Hl & Hs).
        exists call. split; [|exact Hs].
        destruct (dl_calls t2) as [|x l]; [discriminate Hl|exact Hl].
Qed.

(** X6.  Called with a basefile (a truthy argument), [download] tries
    the sub-repositories in declared order and stops at the first whose
    [download] returns a truthy value: the calls made are an initial
    segment of the declared sub-repositories, every call but the last
    returned a falsy value or raised, and when some sub-repository was
    left untried the last call returned a truthy value. *)
Theorem download_first_success self basefile insts w :
  truthy basefile = true ->
  let '(_, _, _, tr) := download loc self basefile insts w in
  exists rest,
    dl_subrepos self = (map fst (dl_calls tr) ++ rest)%list
    /\ (forall i call, dl_calls tr !! i = Some call ->
          S i < length (dl_calls tr) -> succeeded (snd call) = false)
    /\ (rest <> [] ->
        exists call, last (dl_calls tr) = Some call
                     /\ succeeded (snd call) = true).
Proof.
  intros Hb. unfold download.
  destruct (download_loop loc self (dl_subrepos self) basefile insts w)
    as [[[r insts'] w'] tr] eqn:E.
  exact (download_loop_first _ _ _ Hb _ _ _ _ _ _ E).
Qed.

(** What the loop leaves in [self.store.docrepo_instances]. *)
Lemma download_loop_registers self cs basefile :
  forall insts w r insts' w' tr,
  download_loop loc self cs basefile insts w = (r, insts', w', tr) ->
  exists new,
    insts' = (insts ++ new)%list
    /\ (forall c, c ∈ map fst (dl_calls tr) ->
          cls (instance c) ∈ map cls insts')
    /\ (forall i, i ∈ new ->
          cls i ∉ map cls insts
          /\ exists c, c ∈ map fst (dl_calls tr) /\ i = instance c).
Proof.
  induction cs as [|c cs IH]; intros insts w r insts' w' tr; simpl.
  - intros [= <- <- <- <-]. exists []. rewrite app_nil_r.
    split; [reflexivity|]. split; intros x Hx; inversion Hx.
  - destruct (try_download loc self c basefile w) as [[ret_ w1] t1] eqn:E1.
    destruct (try_download_spec _ _ _ _ _ _ _ E1) as (o & Hc & _).
    assert (Hreg : exists new1,
               register c insts = (insts ++ new1)%list
               /\ cls (instance c) ∈ map cls (register c insts)
               /\ (forall i, i ∈ new1 ->
                     cls i ∉ map cls insts /\ i = instance c)).
    { unfold register, registered.
      destruct (bool_decide_reflect (cls (instance c) ∈ map cls insts))
        as [Hin|Hnin].
      - exists []. rewrite app_nil_r. split; [reflexivity|].
        split; [exact Hin|]. intros i Hi. inversion Hi.
      - exists [instance c]. split; [reflexivity|]. split.
        + rewrite map_app. apply elem_of_app. right. simpl. left.
        + intros i Hi. apply list_elem_of_singleton in Hi as ->.
          split; [exact Hnin|reflexivity]. }
    destruct Hreg as (new1 & Hreg & Hcin & Hnew1).
    destruct (truthy basefile && truthy ret_).
    + intros [= <- <- <- <-]. exists new1. split; [exact Hreg|].
      rewrite Hc. simpl. split.
      * intros c' Hc'. apply list_elem_of_singleton in Hc' as ->. exact Hcin.
      * intros i Hi. destruct (Hnew1 i Hi) as [Hn ->].
        split; [exact Hn|]. exists c. split; [left|reflexivity].
    + destruct (download_loop loc self cs basefile (register c insts) w1)
        as [[[r2 insts2] w2] t2] eqn:E2.
      intros [= <- <- <- <-].
      destruct (IH _ _ _ _ _ _ E2) as (new2 & Hi2 & Hcalled & Hnew2).
      exists (new1 ++ new2)%list. rewrite Hi2, Hreg, app_assoc.
      split; [reflexivity|]. rewrite dl_calls_app, map_app, Hc. simpl.
      split.
      * intros c' Hc'. apply elem_of_cons in Hc' as [->|Hc'].
        -- rewrite Hreg in Hcin. rewrite map_app. apply elem_of_app.
           left. exact Hcin.
        -- rewrite <- Hreg, <- Hi2. apply Hcalled. exact Hc'.
      * intros i Hi. apply elem_of_app in Hi as [Hi|Hi].
        -- destruct (Hnew1 i Hi) as [Hn ->]. split; [exact Hn|].
           exists c. split; [left|reflexivity].
        -- destruct (Hnew2 i Hi) as [Hn (c' & Hc' & ->)]. split.
           ++ intros Hin. apply Hn. rewrite Hreg, map_app.
              apply elem_of_app. left. exact Hin.
           ++ exists c'. split; [right; exact Hc'|reflexivity].
Qed.

(** X7.  [download] makes the store know every sub-repository it
    calls: afterwards [store.docrepo_instances] is what it was, in the
    same order, followed by new entries; the class of every
    sub-repository called is among its keys; and every new entry is the
    instance of a sub-repository that was called and whose class was not
    a key before. *)
Theorem download_registers self basefile insts w :
  let '(_, insts', _, tr) := download loc self basefile insts w in
  exists new,
    insts' = (insts ++ new)%list
    /\ (forall c, c ∈ map fst (dl_calls tr) ->
          cls (instance c) ∈ map cls insts')
    /\ (forall i, i ∈ new ->
          cls i ∉ map cls insts
          /\ exists c, c ∈ map fst (dl_calls tr) /\ i = instance c).
Proof.
  unfold download.
  destruct (download_loop loc self (dl_subrepos self) basefile insts w)
    as [[[r insts'] w'] tr] eqn:E.
  exact (download_loop_registers _ _ _ _ _ _ _ _ _ E).
Qed.

(** The levels after one turn of the loop: the logger of the
    sub-repository is left at INFO when the workaround was applied and
    the call raised; every other level, and this one in every other
    case, is as before. *)
Lemma try_download_levels self c basefile w :
  cells -> keeps_levels c ->
  forall ret_ w' tr,
  try_download loc self c basefile w = (ret_, w', tr) ->
  exists o,
    dl_calls tr = [(c, o)]
    /\ (forall lg,
          workaround self c w = true -> lg = logger c ->
          (exists e, o = Raise e) ->
          effective_level lg w' = INFO)
    /\ (forall lg,
          ~ (workaround self c w = true /\ lg = logger c
             /\ exists e, o = Raise e) ->
          effective_level lg w' = effective_level lg w).
Proof.
  intros [Hset Hother] Hkeep ret_ w' tr. unfold try_download.
  destruct (workaround self c w) eqn:Ew.
  - unfold workaround in Ew. apply andb_true_iff in Ew as [Es Ec].
    apply Nat.eqb_eq in Es. apply Nat.eqb_eq in Ec.
    assert (Hne : logger c <> dl_logger self).
    { intros Heq. rewrite Heq in Ec. rewrite Es in Ec.
      unfold INFO in Ec. lia. }
    pose proof (Hkeep (dl_logger self) basefile
                  (set_level (logger c) (effective_level (dl_logger self) w) w))
      as Hk1.
    pose proof (fun lg => Hkeep lg basefile
                  (set_level (logger c) (effective_level (dl_logger self) w) w))
      as Hk.
    destruct (repo_download c basefile
                (set_level (logger c) (effective_level (dl_logger self) w) w))
      as [o w2]. simpl in Hk1, Hk.
    destruct o as [v|e]; intros [= <- <- <-].
    + exists (Return v). split; [reflexivity|]. split.
      * intros lg _ _ [e He]. discriminate He.
      * intros lg _. destruct (decide (lg = logger c)) as [->|Hlg].
        -- rewrite Hset by lia. rewrite Hk1, Hother by exact Hne.
           rewrite Es, Ec. reflexivity.
        -- rewrite Hother by congruence. rewrite Hk.
           apply Hother. congruence.
    + exists (Raise e). split; [reflexivity|]. split.
      * intros lg _ -> _. rewrite Hk, Hset; [exact Es|].
        rewrite Es. discriminate.
      * intros lg Hn. destruct (decide (lg = logger c)) as [->|Hlg].
        -- exfalso. apply Hn. repeat split. exists e. reflexivity.
        -- rewrite Hk. apply Hother. congruence.
  - pose proof (fun lg => Hkeep lg basefile w) as Hk.
    destruct (repo_download c basefile w) as [o w2]. simpl in Hk.
    destruct o as [v|e]; intros [= <- <- <-];
      [exists (Return v)|exists (Raise e)];
      (split; [reflexivity|]);
      (split; [intros lg Hw; discriminate Hw|intros lg _; apply Hk]).
Qed.

Lemma raised_on_cons (lg : string) c (o : Result pyval)
    (calls : list (@Subrepo world * Result pyval)) :
  raised_on lg ((c, o) :: calls) <->
  (logger c = lg /\ exists e, o = Raise e) \/ raised_on lg calls.
Proof.
  unfold raised_on. split.
  - intros (c' & e & Hin & Hlg). apply elem_of_cons in Hin as [Heq|Hin].
    + injection Heq as -> <-. left. split; [exact Hlg|]. exists e.
      reflexivity.
    + right. exists c', e. tauto.
  - intros [[Hlg [e ->]]|(c' & e & Hin & Hlg)].
    + exists c, e. split; [left|exact Hlg].
    + exists c', e. split; [right; exact Hin|exact Hlg].
Qed.

Lemma raised_on_nil (lg : string) : ~ @raised_on world lg [].
Proof. intros (c & e & Hin & _). inversion Hin. Qed.

(** The levels after the loop. *)
Lemma download_loop_levels self cs basefile :
  cells -> Forall keeps_levels cs ->
  forall insts w r insts' w' tr,
  download_loop loc self cs basefile insts w = (r, insts', w', tr) ->
  forall lg,
    (effective_level (dl_logger self) w = INFO ->
     effective_level lg w = INFO + 1 ->
     raised_on lg (dl_calls tr) ->
     effective_level lg w' = INFO)
    /\ (~ (effective_level (dl_logger self) w = INFO
           /\ effective_level lg w = INFO + 1
           /\ raised_on lg (dl_calls tr)) ->
        effective_level lg w' = effective_level lg w).
Proof.
  intros Hcells Hkeep.
  induction Hkeep as [|c cs Hkc Hkeep IH];
    intros insts w r insts' w' tr; simpl.
  - intros [= <- <- <- <-] lg. simpl. split; [|reflexivity].
    intros _ _ Hr. destruct (raised_on_nil _ Hr).
  - destruct (try_download loc self c basefile w) as [[ret_ w1] t1] eqn:E1.
    destruct (try_download_levels _ _ _ _ Hcells Hkc _ _ _ E1)
      as (o & Hc & Hleak & Hsame).
    assert (Hwork : workaround self c w = true <->
                    effective_level (dl_logger self) w = INFO
                    /\ effective_level (logger c) w = INFO + 1).
    { unfold workaround. rewrite andb_true_iff, !Nat.eqb_eq. tauto. }
    assert (Hself : effective_level (dl_logger self) w1
                    = effective_level (dl_logger self) w).
    { apply Hsame. intros (Hw & Hl & _). apply Hwork in Hw.
      rewrite <- Hl in Hw. unfold INFO in Hw. lia. }
    (* the whole run, whether the loop goes on or not *)
    assert (Hgen : forall w2 t2 lg,
      ((effective_level (dl_logger self) w1 = INFO ->
        effective_level lg w1 = INFO + 1 ->
        raised_on lg (dl_calls t2) ->
        effective_level lg w2 = INFO)
       /\ (~ (effective_level (dl_logger self) w1 = INFO
              /\ effective_level lg w1 = INFO + 1
              /\ raised_on lg (dl_calls t2)) ->
           effective_level lg w2 = effective_level lg w1)) ->
      (effective_level (dl_logger self) w = INFO ->
       effective_level lg w = INFO + 1 ->
       raised_on lg (dl_calls (t1 ++ t2)) ->
       effective_level lg w2 = INFO)
      /\ (~ (effective_level (dl_logger self) w = INFO
             /\ effective_level lg w = INFO + 1
             /\ raised_on lg (dl_calls (t1 ++ t2))) ->
          effective_level lg w2 = effective_level lg w)).
    { intros w2 t2 lg [IHleak IHsame].
      rewrite Hself in IHleak, IHsame.
      rewrite dl_calls_app, Hc. simpl. rewrite raised_on_cons.
      destruct (decide (logger c = lg)) as [Hlg|Hlg];
        [destruct o as [v|e]|].
      - (* the call returned *)
        assert (E : effective_level lg w1 = effective_level lg w).
        { apply Hsame. intros (_ & _ & e & He). discriminate He. }
        rewrite E in IHleak, IHsame. split.
        + intros Hs Hl [[_ [e He]]|Hr]; [discriminate He|].
          apply IHleak; assumption.
        + intros Hn. apply IHsame. intros (Hs & Hl & Hr). apply Hn. tauto.
      - (* the call raised *)
        destruct (workaround self c w) eqn:Ew.
        + assert (E : effective_level lg w1 = INFO).
          { apply Hleak; [reflexivity|congruence|exists e; reflexivity]. }
          assert (E2 : effective_level lg w2 = INFO).
          { rewrite IHsame; [exact E|]. intros (_ & Hl & _).
            rewrite E in Hl. unfold INFO in Hl. lia. }
          split; [intros _ _ _; exact E2|].
          intros Hn. exfalso. apply Hn.
          destruct (proj1 Hwork eq_refl) as [Hs Hl]. rewrite Hlg in Hl.
          repeat split; [exact Hs|exact Hl|]. left.
          split; [exact Hlg|]. exists e. reflexivity.
        + assert (E : effective_level lg w1 = effective_level lg w).
          { apply Hsame. intros (Hw & _). discriminate Hw. }
          assert (Hoff : ~ (effective_level (dl_logger self) w = INFO
                            /\ effective_level lg w = INFO + 1)).
          { intros Hw. rewrite <- Hlg in Hw. apply Hwork in Hw.
            discriminate Hw. }
          rewrite E in IHleak, IHsame. split.
          * intros Hs Hl _. exfalso. apply Hoff. tauto.
          * intros _. apply IHsame. intros (Hs & Hl & _). apply Hoff. tauto.
      - (* another logger *)
        assert (E : effective_level lg w1 = effective_level lg w).
        { apply Hsame. intros (_ & Heq & _). congruence. }
        rewrite E in IHleak, IHsame. split.
        + intros Hs Hl [[Heq _]|Hr]; [congruence|].
          apply IHleak; assumption.
        + intros Hn. apply IHsame. intros (Hs & Hl & Hr). apply Hn. tauto. }
    destruct (truthy basefile && truthy ret_).
    + intros [= <- <- <- <-] lg.
      rewrite <- (app_nil_r t1). apply Hgen. simpl. split; [|reflexivity].
      intros _ _ Hr. destruct (raised_on_nil _ Hr).
    + destruct (download_loop loc self cs basefile (register c insts) w1)
        as [[[r2 insts2] w2] t2] eqn:E2.
      intros [= <- <- <- <-] lg. apply Hgen.
      exact (IH _ _ _ _ _ _ E2 lg).
Qed.

(** X8.  The log-level workaround of [download], for loggers that
    behave as independent cells and sub-repositories whose [download]
    leaves the levels alone: after the run every logger has the level it
    had before, except the logger of a sub-repository whose [download]
    raised while the workaround was in force (the composite at INFO, the
    sub-repository at INFO+1): that logger is left at INFO, since the
    statement that raises it again is skipped by the exception. *)
Theorem download_log_levels self basefile insts w lg :
  cells -> Forall keeps_levels (dl_subrepos self) ->
  let '(_, _, w', tr) := download loc self basefile insts w in
  (effective_level (dl_logger self) w = INFO ->
   effective_level lg w = INFO + 1 ->
   raised_on lg (dl_calls tr) ->
   effective_level lg w' = INFO)
  /\ (~ (effective_level (dl_logger self) w = INFO
         /\ effective_level lg w = INFO + 1
         /\ raised_on lg (dl_calls tr)) ->
      effective_level lg w' = effective_level lg w).
Proof.
  intros Hcells Hkeep. unfold download.
  destruct (download_loop loc self (dl_subrepos self) basefile insts w)
    as [[[r insts'] w'] tr] eqn:E.
  exact (download_loop_levels _ _ _ Hcells Hkeep _ _ _ _ _ _ E lg).
Qed.

(** The outcome of every call is what the sub-repository's [download]
    answered, for the argument [download] was given. *)
Lemma try_download_outcome self c basefile w :
  forall ret_ w' tr,
  try_download loc self c basefile w = (ret_, w', tr) ->
  exists w0, dl_calls tr = [(c, fst (repo_download c basefile w0))].
Proof.
  intros ret_ w' tr. unfold try_download.
  destruct (workaround self c w); intros Hrun.
  - exists (set_level (logger c) (effective_level (dl_logger self) w) w).
    revert Hrun.
    destruct (repo_download c basefile
                (set_level (logger c) (effective_level (dl_logger self) w) w))
      as [o w2].
    destruct o as [v|e]; intros [= <- <- <-]; reflexivity.
  - exists w. revert Hrun.
    destruct (repo_download c basefile w) as [o w2].
    destruct o as [v|e]; intros [= <- <- <-]; reflexivity.
Qed.

Lemma download_loop_outcomes self cs basefile :
  forall insts w r insts' w' tr,
  download_loop loc self cs basefile insts w = (r, insts', w', tr) ->
  forall c o, (c, o) ∈ dl_calls tr ->
  exists w0, o = fst (repo_download c basefile w0).
Proof.
  induction cs as [|c0 cs IH]; intros insts w r insts' w' tr; simpl.
  - intros [= <- <- <- <-] c o Hin. inversion Hin.
  - destruct (try_download loc self c0 basefile w) as [[ret_ w1] t1] eqn:E1.
    destruct (try_download_outcome _ _ _ _ _ _ _ E1) as (w0 & Hc).
    destruct (truthy basefile && truthy ret_).
    + intros [= <- <- <- <-] c o Hin. rewrite Hc in Hin.
      apply list_elem_of_singleton in Hin. injection Hin as -> ->.
      exists w0. reflexivity.
    + destruct (download_loop loc self cs basefile (register c0 insts) w1)
        as [[[r2 insts2] w2] t2] eqn:E2.
      intros [= <- <- <- <-] c o Hin.
      rewrite dl_calls_app, Hc in Hin. apply elem_of_app in Hin as [Hin|Hin].
      * apply list_elem_of_singleton in Hin. injection Hin as -> ->.
        exists w0. reflexivity.
      * exact (IH _ _ _ _ _ _ E2 c o Hin).
Qed.

(** X14.  [DV] inside a composite.  [DV.download] refuses any
    argument but [None]; so when a composite is asked to download one
    basefile, every call it makes on a sub-repository whose [download]
    is [DV.download] raises [ValueError], is answered with the error
    line ["download for <alias> failed: DV.download cannot process a
    basefile parameter (...)"], and the composite goes on (by X4 it does
    not raise, by X6 a call that raised is not the successful one). *)
Theorem download_dv_one_basefile self basefile insts w
    (config : DVDownload.Config) download_ftp download_www :
  basefile <> PNone ->
  let '(_, _, _, tr) := download loc self basefile insts w in
  forall c o,
    (c, o) ∈ dl_calls tr ->
    repo_download c
    = DVDownload.as_repo_download download_ftp download_www config ->
    o = Raise (ValueError "DV.download cannot process a basefile parameter")
    /\ download_failed_msg loc c
         (ValueError "DV.download cannot process a basefile parameter")
       ∈ dl_errors tr.
Proof.
  intros Hb. unfold download.
  destruct (download_loop loc self (dl_subrepos self) basefile insts w)
    as [[[r insts'] w'] tr] eqn:E.
  intros c o Hin Hdv.
  destruct (download_loop_outcomes _ _ _ _ _ _ _ _ _ E c o Hin) as (w0 & Ho).
  assert (Ho' : o = Raise (ValueError
                  "DV.download cannot process a basefile parameter")).
  { rewrite Ho, Hdv. unfold DVDownload.as_repo_download, DVDownload.download.
    rewrite bool_decide_eq_false_2 by exact Hb. reflexivity. }
  split; [exact Ho'|].
  destruct (download_loop_errors _ _ _ _ _ _ _ _ _ E) as [_ ->].
  apply list_elem_of_omap. exists (c, o). split; [exact Hin|].
  rewrite Ho'. reflexivity.
Qed.

End Facts.

End DownloadFacts.

(** ** CompositeRepository.get_default_options: facts *)

Module OptionsFacts.

Import CompositeDownload.

(** The inner loop adds to [opts] what it lacks. *)
Lemma add_missing_union (items : list (string * pyval)) :
  forall opts : gmap string pyval,
  add_missing opts items = opts ∪ list_to_map items.
Proof.
  unfold add_missing.
  induction items as [|[k0 v0] items IH]; intros opts; simpl.
  - rewrite (right_id_L ∅ (∪)). reflexivity.
  - rewrite IH. destruct (decide (is_Some (opts !! k0))) as [[v Hv]|Hn].
    + apply map_eq. intros k. rewrite !lookup_union.
      destruct (decide (k = k0)) as [->|Hk].
      * rewrite Hv, lookup_insert_eq. destruct (list_to_map items !! k0);
          reflexivity.
      * rewrite lookup_insert_ne by congruence. reflexivity.
    + apply eq_None_not_Some in Hn.
      rewrite <- insert_union_l, <- insert_union_r by exact Hn.
      reflexivity.
Qed.

Lemma fold_add_missing_lookup (sub_opts : list (gmap string pyval)) :
  forall (opts : gmap string pyval) k,
  fold_left (fun opts c => add_missing opts (map_to_list c)) sub_opts opts
    !! k
  = first_with k (opts :: sub_opts).
Proof.
  induction sub_opts as [|c sub_opts IH]; intros opts k; simpl.
  - destruct (opts !! k); reflexivity.
  - rewrite IH. simpl. rewrite add_missing_union, list_to_map_to_list.
    rewrite lookup_union.
    destruct (opts !! k), (c !! k); reflexivity.
Qed.

(** X9.  The default options of a composite: [failfast] is always
    there and [False], whatever the superclass or a sub-repository says
    about it; every other option has the value of the first that defines
    it among the superclass and then the sub-repositories in declared
    order, and is absent when none of them defines it.  So a
    sub-repository never overrides an option of the superclass, nor a
    later sub-repository one of an earlier. *)
Theorem default_options_precedence (super_opts : gmap string pyval)
    (sub_opts : list (gmap string pyval)) (k : string) :
  get_default_options super_opts sub_opts !! k
  = if decide (k = "failfast") then Some (PBool false)
    else first_with k (super_opts :: sub_opts).
Proof.
  unfold get_default_options.
  destruct (decide (k = "failfast")) as [->|Hk].
  - apply lookup_insert_eq.
  - rewrite lookup_insert_ne by congruence.
    apply fold_add_missing_lookup.
Qed.

End OptionsFacts.

(** ** CompositeRepository.download: examples *)

Module DownloadExamples.

Import Composite CompositeDownload DownloadFacts DownloadScenario.

Lemma world_cells : @cells world _.
Proof.
  split.
  - intros lg n w _. simpl. rewrite lookup_insert_eq. reflexivity.
  - intros lg lg' n w Hne. simpl. rewrite lookup_insert_ne by exact Hne.
    reflexivity.
Qed.

Lemma abc_keeps_levels : Forall keeps_levels (dl_subrepos abc).
Proof. repeat constructor. Qed.

(** Without a basefile all three are asked, although A fails and B
    succeeds. *)
Lemma download_all_witness :
  let '(_, _, _, tr) := download somewhere abc PNone [] start in
  map fst (dl_calls tr) = dl_subrepos abc
  /\ Forall (fun ev => match ev with
                       | CallDownload _ b _ => b = PNone
                       | _ => True
                       end) tr.
Proof. apply (download_all somewhere abc PNone [] start). reflexivity. Defined.

(** Asked for [doc1], A fails, B succeeds and C is left alone. *)
Lemma download_first_success_witness :
  let '(_, _, _, tr) := download somewhere abc (PStr "doc1") [] start in
  exists rest,
    dl_subrepos abc = (map fst (dl_calls tr) ++ rest)%list
    /\ (forall i call, dl_calls tr !! i = Some call ->
          S i < length (dl_calls tr) -> succeeded (snd call) = false)
    /\ (rest <> [] ->
        exists call, last (dl_calls tr) = Some call
                     /\ succeeded (snd call) = true).
Proof.
  apply (download_first_success somewhere abc (PStr "doc1") [] start).
  reflexivity.
Defined.

(** A's logger, at INFO+1 before the run, is left at INFO. *)
Lemma download_log_levels_witness :
  let '(_, _, w', tr) := download somewhere abc PNone [] start in
  (effective_level (dl_logger abc) start = INFO ->
   effective_level "A" start = INFO + 1 ->
   raised_on "A" (dl_calls tr) ->
   effective_level "A" w' = INFO)
  /\ (~ (effective_level (dl_logger abc) start = INFO
         /\ effective_level "A" start = INFO + 1
         /\ raised_on "A" (dl_calls tr)) ->
      effective_level "A" w' = effective_level "A" start).
Proof.
  apply (download_log_levels somewhere abc PNone [] start "A").
  - exact world_cells.
  - exact abc_keeps_levels.
Defined.

(** Asked for [doc1], the composite gets an error from DV and the
    document from B. *)
Lemma download_dv_one_basefile_witness :
  let '(_, _, _, tr) :=
    download somewhere dv_then_b (PStr "doc1") [] start in
  forall c o,
    (c, o) ∈ dl_calls tr ->
    repo_download c = repo_download dlDV ->
    o = Raise (ValueError "DV.download cannot process a basefile parameter")
    /\ download_failed_msg somewhere c
         (ValueError "DV.download cannot process a basefile parameter")
       ∈ dl_errors tr.
Proof.
  apply (download_dv_one_basefile somewhere dv_then_b (PStr "doc1") []
           start).
  discriminate.
Defined.

Example download_dv_then_b_run :
  let '(r, _, _, tr) :=
    download somewhere dv_then_b (PStr "doc1") [] start in
  r = Return PNone
  /\ map (fun call => alias (fst call)) (dl_calls tr) = ["dv"; "B"]
  /\ dl_errors tr
     = ["download for dv failed: DV.download cannot process a basefile parameter (repo.py:42)"].
Proof. repeat split; reflexivity. Qed.

(** The run of the first scenario in full: the levels of B and C are
    lowered for the call and raised again, that of A is lowered and
    stays so; the store learns the three instances. *)
Example download_abc_run :
  let '(r, insts, w', tr) := download somewhere abc PNone [] start in
  r = Return PNone
  /\ map cls insts = ["A"; "B"; "C"]
  /\ map (fun lg => effective_level lg w') ["comp"; "A"; "B"; "C"]
     = [20; 20; 21; 21]
  /\ dl_errors tr
     = ["download for A failed: timed out (repo.py:42)"].
Proof. repeat split; reflexivity. Qed.

End DownloadExamples.

(** ** From a URI back to the basefile: facts *)

Module DVMapFacts.

Import DV DVMap DVFacts.

Lemma length_append (a b : string) :
  String.length (a ++ b) = String.length a + String.length b.
Proof.
  induction a as [|c a IH]; [reflexivity|].
  rewrite append_cons. simpl. rewrite IH. reflexivity.
Qed.

Lemma take_app (a b : string) : take (String.length a) (a ++ b) = a.
Proof.
  induction a as [|c a IH]; [destruct b; reflexivity|].
  rewrite append_cons. simpl. rewrite IH. reflexivity.
Qed.

Lemma drop_app (a b : string) : drop (String.length a) (a ++ b) = b.
Proof.
  induction a as [|c a IH]; [reflexivity|].
  rewrite append_cons. simpl. exact IH.
Qed.

(** [filename[14:-6]] undoes ["/dv/generated/%s.html;"], whatever the
    basefile. *)
Lemma slice_neg_nginx (b : string) :
  slice_neg 14 6 ("/dv/generated/" ++ b ++ ".html;") = b.
Proof.
  unfold slice_neg.
  assert (Hlen : String.length ("/dv/generated/" ++ b ++ ".html;") - 6
                 = String.length ("/dv/generated/" ++ b)).
  { rewrite !length_append. simpl. lia. }
  rewrite Hlen, <- append_assoc, take_app.
  apply (drop_app "/dv/generated/" b).
Qed.

(** A line of the default form is read back as it was written. *)
Lemma parse_line_apache (p b : string) :
  clean p -> clean b ->
  parse_line (p ++ String tab b) = Return (p, b).
Proof.
  intros [Hne Hp] [Hbne Hb]. unfold parse_line.
  assert (Hstrip : strip (p ++ String tab b) = p ++ String tab b).
  { destruct p as [|a p]; [congruence|].
    rewrite append_cons. simpl in Hp. inversion Hp as [|? ? Ha Hp']; subst.
    destruct (exists_last (l := list_ascii_of_string b)) as (m & z & Hmz).
    { destruct b; [congruence|discriminate]. }
    assert (Hz : is_space z = false).
    { rewrite Hmz in Hb. apply Forall_app in Hb as [_ Hb].
      inversion Hb; assumption. }
    rewrite <- (string_of_list_ascii_of_string (String a (p ++ String tab b))).
    apply (strip_id _ a z (list_ascii_of_string p ++ tab :: m) Ha Hz).
    simpl. f_equal. rewrite list_ascii_app. simpl. rewrite Hmz.
    rewrite <- app_assoc. reflexivity. }
  rewrite Hstrip, (split_tab_clean p b Hp). reflexivity.
Qed.

(** The line that [postprocess_doc] writes is read back as the path
    and, under the key of the path, the basefile. *)
Lemma build_basefilemap_map_line (self : Repo) (doc : Document)
    (m : gmap string string) :
  clean (map_path self doc) -> clean (basefile doc) ->
  exists filename,
    parse_line (map_line self doc) = Return (map_path self doc, filename)
    /\ build_basefilemap self (map_path self doc) filename m
       = <[map_key self (map_path self doc) := basefile doc]> m.
Proof.
  intros Hp Hb. unfold map_line, build_basefilemap, map_key.
  destruct (String.eqb (mapfiletype (config self)) "nginx").
  - eexists. split; [apply parse_line_nginx; exact Hp|].
    rewrite slice_neg_nginx. reflexivity.
  - eexists. split; [apply parse_line_apache; assumption|reflexivity].
Qed.

Lemma fill_lines_app callback (pre rest : list string) :
  (forall line, In line pre ->
     exists path filename, parse_line line = Return (path, filename)) ->
  forall m, exists m',
    fill_lines callback pre m = (Return PNone, m')
    /\ fill_lines callback (pre ++ rest) m = fill_lines callback rest m'.
Proof.
  induction pre as [|line pre IH]; intros Hall m; simpl.
  - exists m. split; reflexivity.
  - destruct (Hall line (or_introl eq_refl)) as (p & f & Hp). rewrite Hp.
    apply IH. intros l Hl. apply Hall. right. exact Hl.
Qed.

Lemma split_max_1_sep (sep : ascii) (p f : string) :
  without sep p -> split_max sep 1 (p ++ String sep f) = [p; f].
Proof.
  unfold without. induction p as [|c p IH]; intros Hp.
  - rewrite append_nil. simpl. rewrite Ascii.eqb_refl, split_max_0.
    reflexivity.
  - rewrite append_cons. simpl in Hp. inversion Hp as [|? ? Hc Hp']; subst.
    simpl. destruct (Ascii.eqb_spec c sep) as [->|_]; [congruence|].
    rewrite (IH Hp'). reflexivity.
Qed.

Lemma split_max_1_none (sep : ascii) (s : string) :
  without sep s -> split_max sep 1 s = [s].
Proof.
  unfold without. induction s as [|c s IH]; intros Hs; [reflexivity|].
  simpl in Hs. inversion Hs as [|? ? Hc Hs']; subst.
  simpl. destruct (Ascii.eqb_spec c sep) as [->|_]; [congruence|].
  rewrite (IH Hs'). reflexivity.
Qed.

Lemma replace_char_without (old new : ascii) (s : string) :
  new <> old -> without old (replace_char old new s).
Proof.
  intros Hne. unfold without. induction s as [|c s IH]; simpl.
  - constructor.
  - constructor; [|exact IH].
    destruct (Ascii.eqb_spec c old); congruence.
Qed.

Section BasefileFromUri.

Variable super_basefile_from_uri : string -> option string.
Variable py_int : string -> Result Z.

(** X10.  The assertion of [postprocess_doc] holds after an append.
    In a single-process run (no client name), for a document whose path
    and basefile hold no white space and whose path has no entry in the
    map yet, and when the inherited [basefile_from_uri] answers the
    remainder of the URI under which the map is keyed:
    [postprocess_doc] appends the line, drops the cached dictionary
    whatever it held, and the URI of the document then leads back to its
    basefile, in the nginx form of the map as in the default one; no
    warning is logged. *)
Theorem postprocess_doc_round_trip (self : Repo) (doc : Document)
    (cache : option (gmap string string)) (w : FS.world) :
  truthy (clientname (config self)) = false ->
  clean (map_path self doc) ->
  clean (basefile doc) ->
  readmapfile self (map_append_needed self doc) w = Return PNone ->
  super_basefile_from_uri (uri doc)
  = Some (map_key self (map_path self doc)) ->
  map_key self (map_path self doc) <> "" ->
  exists m,
    postprocess_doc_checked super_basefile_from_uri py_int self doc cache w
    = (Return tt, Some m,
       FS.append_line (canonical_mapfile self) (map_line self doc) w, [])
    /\ m !! map_key self (map_path self doc) = Some (basefile doc).
Proof.
  intros Hcl Hp Hb Hnone Hsuper Hkey.
  set (w1 := FS.append_line (canonical_mapfile self) (map_line self doc) w).
  assert (Hw1 : snd (postprocess_doc self doc w) = w1).
  { unfold postprocess_doc. rewrite Hnone. simpl.
    unfold append_mapfile. rewrite Hcl. reflexivity. }
  assert (Hold : forall line,
            In line (FS.read_lines (canonical_mapfile self) w) ->
            exists p f, parse_line line = Return (p, f)).
  { intros line Hin. unfold readmapfile, mapfiles in Hnone.
    rewrite Hcl in Hnone.
    destruct (scan_files_none _ _ _ Hnone _ line (or_introl eq_refl) Hin)
      as (p & f & Hpf & _).
    exists p, f. exact Hpf. }
  assert (Hex : FS.path_exists (canonical_mapfile self) w1 = true).
  { unfold w1, FS.path_exists, FS.append_line. simpl.
    rewrite lookup_insert_eq. apply bool_decide_eq_true. eauto. }
  destruct (fill_lines_app (build_basefilemap self) _ [map_line self doc]
              Hold ∅) as (m0 & _ & Happ).
  destruct (build_basefilemap_map_line self doc m0 Hp Hb)
    as (filename & Hline & Hbuild).
  exists (<[map_key self (map_path self doc) := basefile doc]> m0).
  split; [|apply lookup_insert_eq].
  unfold postprocess_doc_checked. rewrite Hnone, Hw1. simpl.
  unfold basefile_from_uri. rewrite Hsuper.
  destruct (String.eqb_spec (map_key self (map_path self doc)) "")
    as [He|_]; [contradiction|].
  unfold readmapfile_fill, mapfiles. rewrite Hcl. simpl. rewrite Hex.
  unfold w1 at 1. rewrite append_line_read, Happ. simpl.
  rewrite Hline, Hbuild, lookup_insert_eq.
  rewrite bool_decide_eq_true_2 by reflexivity. reflexivity.
Qed.

(** X11.  A URI that the map does not know.  When the remainder of
    the URI has no entry in the dictionary, [basefile_from_uri] does not
    answer [None]: a remainder without a slash makes it raise
    [ValueError] (the unpacking of [basefile.split("/", 1)]); a remainder
    [<court>/<rest>] whose [rest[:4]] is a number is answered with every
    colon replaced by a slash, so the invented basefile holds no colon;
    and this is silent exactly when the court is one of
    [expected_cases] and the year lies before the year expected for
    it.  The dictionary is left as it is and the map files are not
    read. *)
Theorem basefile_from_uri_unmapped (self : Repo) (uri remainder : string)
    (m : gmap string string) (w : FS.world) :
  super_basefile_from_uri uri = Some remainder ->
  remainder <> "" ->
  m !! remainder = None ->
  (without "/"%char remainder ->
   basefile_from_uri super_basefile_from_uri py_int self uri (Some m) w
   = (Raise (ValueError "not enough values to unpack (expected 2, got 1)"),
      Some m, []))
  /\ (forall court rest y,
        remainder = court ++ String "/"%char rest ->
        without "/"%char court ->
        py_int (take 4 rest) = Return y ->
        exists warnings,
          basefile_from_uri super_basefile_from_uri py_int self uri
            (Some m) w
          = (Return (PStr (replace_char ":"%char "/"%char remainder)),
             Some m, warnings)
          /\ without ":"%char (replace_char ":"%char "/"%char remainder)
          /\ (warnings = [] <->
              exists expected, expected_cases !! court = Some expected
                               /\ (y < expected)%Z)).
Proof.
  intros Hsuper Hne Hm. unfold basefile_from_uri. rewrite Hsuper.
  destruct (String.eqb_spec remainder "") as [He|_]; [contradiction|].
  rewrite Hm. split.
  - intros Hno. rewrite (split_max_1_none _ _ Hno). reflexivity.
  - intros court rest y -> Hcourt Hy.
    rewrite (split_max_1_sep _ _ _ Hcourt), Hy.
    eexists. split; [reflexivity|].
    split; [apply replace_char_without; discriminate|].
    destruct (expected_cases !! court) as [expected|].
    + destruct (Z.leb_spec expected y) as [Hle|Hlt].
      * split; [discriminate|]. intros (e & [= <-] & Hlt). lia.
      * split; [|reflexivity]. intros _. exists expected.
        split; [reflexivity|exact Hlt].
    + split; [discriminate|]. intros (e & He & _). discriminate He.
Qed.

End BasefileFromUri.

End DVMapFacts.

(** ** From a URI back to the basefile: examples *)

Module DVMapExamples.

Import DV DVMap DVMapFacts DVMapScenario.

(** The first basefile of the report, entered in the nginx form of the
    map and found again from its URI, whatever was cached. *)
Lemma postprocess_doc_round_trip_witness :
  exists m,
    postprocess_doc_checked remainder_of int_of_digits dv_nginx
      Scenario.doc_first (Some ∅) Scenario.empty_disk
    = (Return tt, Some m,
       FS.append_line (canonical_mapfile dv_nginx)
         (map_line dv_nginx Scenario.doc_first) Scenario.empty_disk, [])
    /\ m !! "nja/1982s350" = Some "HDO/B883-81_1".
Proof.
  apply (postprocess_doc_round_trip remainder_of int_of_digits dv_nginx
           Scenario.doc_first (Some ∅) Scenario.empty_disk).
  - reflexivity.
  - split; [discriminate|]. vm_compute. repeat constructor.
  - split; [discriminate|]. vm_compute. repeat constructor.
  - vm_compute. reflexivity.
  - reflexivity.
  - discriminate.
Defined.

(** A report of 1962 is older than the cases expected of NJA (1981):
    the invented basefile comes without a warning. *)
Lemma basefile_from_uri_unmapped_witness :
  exists warnings,
    basefile_from_uri remainder_of int_of_digits dv_nginx old_uri
      (Some ∅) Scenario.empty_disk
    = (Return (PStr (replace_char ":"%char "/"%char "nja/1962s123")),
       Some ∅, warnings)
    /\ without ":"%char (replace_char ":"%char "/"%char "nja/1962s123")
    /\ (warnings = [] <->
        exists expected, expected_cases !! "nja" = Some expected
                         /\ (1962 < expected)%Z).
Proof.
  apply (proj2 (basefile_from_uri_unmapped remainder_of int_of_digits
                  dv_nginx old_uri "nja/1962s123" ∅ Scenario.empty_disk
                  eq_refl ltac:(discriminate) eq_refl)
           "nja" "1962s123" 1962%Z).
  - reflexivity.
  - vm_compute. repeat constructor; discriminate.
  - reflexivity.
Defined.

(** The same for a court that is not listed: the colon of the report
    number becomes a slash, and the warning is written. *)
Example basefile_from_uri_hfd :
  basefile_from_uri remainder_of int_of_digits dv_nginx hfd_uri
    (Some ∅) Scenario.empty_disk
  = (Return (PStr "hfd/2014/35"), Some ∅,
     ["https://lagen.nu/rf/hfd/2014:35: Could not find corresponding basefile"]).
Proof. vm_compute. reflexivity. Qed.

(** In the default form of the map the way back works as well, although
    the duplicate check of the same method does not. *)
Example postprocess_doc_round_trip_apache :
  fst (fst (fst (postprocess_doc_checked remainder_of int_of_digits
                   Scenario.dv_apache Scenario.doc_first None
                   Scenario.empty_disk)))
  = Return tt.
Proof. vm_compute. reflexivity. Qed.

End DVMapExamples.

(** ** The enumeration pass and what parse makes of it *)

Module EnumerationFacts.

Import Composite Enumeration.

Section Facts.

Context {world : Type} `{Util world}.

Lemma unseen_app (l1 l2 : list string) :
  forall seen : gset string,
  unseen (l1 ++ l2) seen
  = (unseen l1 seen ++ unseen l2 (seen ∪ list_to_set l1))%list.
Proof.
  induction l1 as [|x l1 IH]; intros seen; simpl.
  - f_equal. set_solver.
  - destruct (decide (x ∈ seen)) as [Hin|Hnin].
    + rewrite IH. do 2 f_equal. set_solver.
    + simpl. rewrite IH. do 3 f_equal. set_solver.
Qed.

Lemma list_one_unseen (k : string) (l : list string) :
  forall (bf : gmap string (gset string)) (docs : gset string),
  (list_one k l bf docs).1.1 = unseen l docs
  /\ (list_one k l bf docs).2 = docs ∪ list_to_set l.
Proof.
  induction l as [|x l IH]; intros bf docs; simpl.
  - split; [reflexivity|set_solver].
  - destruct (decide (x ∈ docs)) as [Hin|Hnin].
    + destruct (IH (<[k:={[x]} ∪ bf !!! k]> bf) docs) as [-> ->].
      split; [reflexivity|set_solver].
    + pose proof (IH (<[k:={[x]} ∪ bf !!! k]> bf) ({[x]} ∪ docs)) as [H1 H2].
      destruct (list_one k l (<[k:={[x]} ∪ bf !!! k]> bf) ({[x]} ∪ docs))
        as [[ys bf2] d2]. simpl in *. subst.
      split; [reflexivity|set_solver].
Qed.

Lemma list_all_unseen (insts : list (@DocumentRepository world))
    (action : string) (force_ : bool) w :
  forall (bf : gmap string (gset string)) (docs : gset string),
  (list_all insts action force_ w bf docs).1.1
  = unseen (concat (map (fun inst =>
              list_basefiles_for (store inst) action force_ w) insts)) docs
  /\ (list_all insts action force_ w bf docs).2
     = docs ∪ list_to_set (concat (map (fun inst =>
              list_basefiles_for (store inst) action force_ w) insts)).
Proof.
  induction insts as [|inst insts IH]; intros bf docs; simpl.
  - split; [reflexivity|set_solver].
  - pose proof (list_one_unseen (cls inst)
                  (list_basefiles_for (store inst) action force_ w) bf docs)
      as [H1 H2].
    destruct (list_one (cls inst)
                (list_basefiles_for (store inst) action force_ w) bf docs)
      as [[ys1 bf1] d1]. simpl in H1, H2. subst.
    pose proof (IH bf1 (docs ∪ list_to_set
                  (list_basefiles_for (store inst) action force_ w)))
      as [H3 H4].
    destruct (list_all insts action force_ w bf1
                (docs ∪ list_to_set
                   (list_basefiles_for (store inst) action force_ w)))
      as [[ys2 bf2] d2]. simpl in H3, H4. subst. simpl.
    rewrite unseen_app. split; [reflexivity|].
    rewrite list_to_set_app_L. set_solver.
Qed.

(** X12.  The order of an enumeration for ["parse"]: the basefiles
    come out sub-repository after sub-repository, in the order of
    [docrepo_instances], and within one sub-repository in the order of
    its own listing; a basefile that was yielded before is passed over.
    In other words, the yield is the concatenation of the listings with
    every basefile kept at its first occurrence. *)
Theorem list_basefiles_for_order (self : @CompositeStore world)
    (force_ : bool) w :
  fst (composite_list_basefiles_for self "parse" force_ w)
  = unseen (concat (map (fun inst =>
              list_basefiles_for (store inst) "parse" force_ w)
              (docrepo_instances self))) ∅.
Proof.
  unfold composite_list_basefiles_for.
  change (str_in "parse" "parse") with true. cbv iota.
  pose proof (list_all_unseen (docrepo_instances self) "parse" force_ w
                (basefiles self) ∅) as [H1 _].
  destruct (list_all (docrepo_instances self) "parse" force_ w
              (basefiles self) ∅) as [[ys bf] d]. exact H1.
Qed.

(** X13.  Enumeration and parse fit together: when the composite's
    sub-repositories are the instances its store knows, every basefile
    that the enumeration for ["parse"] yields is listed by a
    sub-repository which, with the store as the enumeration leaves it, is
    eligible for that basefile in [get_preferred_instances], in any
    state of the file system.  So [parse] of an enumerated basefile
    always has a sub-repository to try. *)
Theorem enumerated_is_eligible (self : @CompositeRepository world)
    (force_ : bool) w (b : string) :
  subrepos self = docrepo_instances (cstore self) ->
  b ∈ fst (composite_list_basefiles_for (cstore self) "parse" force_ w) ->
  let self' :=
    {| config := config self; subrepos := subrepos self;
       cstore := snd (composite_list_basefiles_for (cstore self)
                        "parse" force_ w) |} in
  exists inst,
    inst ∈ subrepos self'
    /\ b ∈ list_basefiles_for (store inst) "parse" force_ w
    /\ forall w', eligible self' b inst w' = true.
Proof.
  intros Hsub Hb self'.
  unfold composite_list_basefiles_for in *.
  change (str_in "parse" "parse") with true in *. cbv iota in *.
  subst self'.
  destruct (list_all (docrepo_instances (cstore self)) "parse" force_ w
              (basefiles (cstore self)) ∅) as [[ys bf] d] eqn:E.
  destruct (CompositeFacts.list_all_spec _ _ _ _ _ _ _ _ _ E)
    as (_ & Hys & _ & Hbf).
  simpl in Hb. apply Hys in Hb as [(inst & Hin & Hl) _].
  exists inst. simpl. rewrite Hsub. split; [exact Hin|].
  split; [exact Hl|]. intros w'. unfold eligible, listed. simpl.
  apply orb_true_iff. left. apply bool_decide_eq_true.
  apply Hbf. right. exists inst. auto.
Qed.

End Facts.

End EnumerationFacts.

(** ** The enumeration pass: examples *)

Module EnumerationExamples.

Import Composite Enumeration EnumerationFacts Scenario EnumerationScenario.

(** [doc1] is yielded once, and after the enumeration a sub-repository
    that lists it is eligible for it. *)
Lemma enumerated_is_eligible_witness :
  let self' :=
    {| config := config fresh; subrepos := subrepos fresh;
       cstore := snd (composite_list_basefiles_for (cstore fresh)
                        "parse" true empty_disk) |} in
  exists inst,
    inst ∈ subrepos self'
    /\ "doc1" ∈ list_basefiles_for (store inst) "parse" true empty_disk
    /\ forall w', eligible self' "doc1" inst w' = true.
Proof.
  apply (enumerated_is_eligible fresh true empty_disk "doc1").
  - reflexivity.
  - assert (E : fst (composite_list_basefiles_for (cstore fresh)
                       "parse" true empty_disk) = ["doc1"]) by reflexivity.
    rewrite E. left.
Defined.

End EnumerationExamples.

(** ** The transitions of [DV.get_parser]: facts *)

Module DVGrammarFacts.

Import DVParser DVGrammar.

(** The states the table of a parse configuration leads to. *)
Lemma leads_to_states (parseconfig state : string) :
  leads_to (get_parser_transitions parseconfig) state ->
  In state ["body"; "delmal"; "instans"; "endmeta"; "betankande";
            "domslut"; "dom"; "skiljaktig"; "tillagg"; "domskal"]
  /\ (String.eqb parseconfig "simple" = true -> state = "body").
Proof.
  intros [->|(e & stack & Hin & Hs)]; [split; [left|]; reflexivity|].
  unfold get_parser_transitions in Hin.
  destruct (String.eqb parseconfig "simple").
  - destruct Hin as [<-|[]]. discriminate Hs.
  - split; [|discriminate].
    simpl in Hin.
    repeat (destruct Hin as [<-|Hin];
            [simpl in Hs;
             try discriminate Hs;
             try (injection Hs as <-; simpl; tauto);
             try (unfold transition_domskal in Hs;
                  destruct (bool_decide ("betankande" ∈ stack));
                  [injection Hs as <-; simpl; tauto|discriminate Hs])|]).
    destruct Hin.
Qed.

(** X15.  The grammar never runs dry and never pops its root.  In
    both parse configurations of [get_parser]: in every state the table
    can put the parser in (the initial state, or the new state of some
    entry, the callable [transition_domskal] included) the catch-all
    recognizer has exactly one entry, which makes a paragraph and keeps
    the state; [__done__] is not such a state, nothing leads to it; and
    no entry that applies in the initial state answers [(False, None)],
    the signal to leave the state. *)
Theorem catch_all_everywhere (parseconfig state : string) :
  leads_to (get_parser_transitions parseconfig) state ->
  applicable (get_parser_transitions parseconfig) state is_paragraph
  = [stay make_paragraph]
  /\ state <> "__done__"
  /\ forall r a statestack,
       In a (applicable (get_parser_transitions parseconfig)
               initial_state r) ->
       run_action a statestack <> (None, None).
Proof.
  intros Hl. destruct (leads_to_states _ _ Hl) as [Hin Hsimple].
  unfold get_parser_transitions in *.
  destruct (String.eqb parseconfig "simple").
  - rewrite (Hsimple eq_refl). split; [reflexivity|].
    split; [discriminate|].
    intros r a stack Ha. destruct r; vm_compute in Ha; try tauto.
    destruct Ha as [<-|[]]. discriminate.
  - split; [|split].
    + simpl in Hin.
      repeat (destruct Hin as [<-|Hin]; [vm_compute; reflexivity|]).
      destruct Hin.
    + simpl in Hin.
      repeat (destruct Hin as [<-|Hin]; [discriminate|]). destruct Hin.
    + intros r a stack Ha. destruct r; vm_compute in Ha;
        repeat (destruct Ha as [<-|Ha]; [discriminate|]); destruct Ha.
Qed.

End DVGrammarFacts.

(** ** The transitions of [DV.get_parser]: examples *)

Module DVGrammarExamples.

Import DVParser DVGrammar DVGrammarFacts.

(** [domskal] is reached from [betankande] through the callable. *)
Lemma catch_all_everywhere_witness :
  applicable (get_parser_transitions "default") "domskal" is_paragraph
  = [stay make_paragraph]
  /\ "domskal" <> "__done__"
  /\ forall r a statestack,
       In a (applicable (get_parser_transitions "default")
               initial_state r) ->
       run_action a statestack <> (None, None).
Proof.
  apply (catch_all_everywhere "default" "domskal").
  right.
  exists (["betankande"], is_domskal, Callable transition_domskal),
         ["body"; "instans"; "betankande"].
  split; [|reflexivity].
  vm_compute. do 14 right. left. reflexivity.
Defined.

End DVGrammarExamples.
